(* ===== verification/_CoqProject ===== *)
-Q . S2P
Prelude.v
JsString.v
Levenshtein.v
Promise.v
Scheduler.v
Progress.v
Types.v
Matcher.v
Store.v
Paystack.v
World.v
Schema.v
Exec.v
AddUser.v
UserQuery.v
Service.v
Concurrent.v
Liveness.v
WellFormed.v
Serial.v
Linear.v
Abstract.v
Session.v
