(* ===== verification/Prelude.v ===== *)
(** * Verification of the bank-account GraphQL schema ([src/schema/schema.js])

    ** The program

    One JavaScript module builds a GraphQL schema with three resolvers over
    a table of bank-account records:

    - query [users] (lines 60-65): every record, by [User.findAll()];
    - query [user(user_account_number, user_bank_code)] (lines 67-128):
      checks the length of the account number, looks the record up, and
      answers it with its stored name in title case or, when the record has
      no name, with the name the bank-resolution service (Paystack, through
      [axios]) resolves; a failure of that request is logged and answered
      by [null];
    - mutation [addUser(...)] (lines 135-220): checks the length of the
      account number, refuses a number that is stored, asks the service for
      the holder's name, compares it with the claimed name by Levenshtein
      distance on the lower-cased strings, and creates the record, verified
      when the distance is at most 2; failures of the request and of the
      creation are logged and reported as [INVALID_BANK_DETAILS] or
      [SERVER_ERROR].

    The resolvers are promise chains.  They call the model layer
    ([User.findAll], [User.findOne], [User.create] of [../models/userModel]),
    the HTTP client ([axios]) and the console, and they fail by throwing.
    The model layer, [toTitleCase] ([../utils/titleCase]), [errorName]
    ([../utils/constant]) and the [js-levenshtein] package are not among the
    sources; they are modelled from the specification and are marked so
    where they are defined.

    ** The files, in the order of their dependencies

    - [Prelude] (this file): the type [result] with its notation (scope
      [result_scope]), the tactics and the hint database [js] of the
      development, and the lemmas on numbers and lists the components share
      ([min3], [tails], [unique_on]).
    - [JsString]: JavaScript strings as [string]s of code units; [length],
      [toLowerCase], [toUpperCase], truthiness, [toTitleCase]; the
      equivalence [same_letters] (equality up to case).
    - [Levenshtein]: the edit distance over lists of any type with decidable
      equality: the recurrence [lev] (by well-founded recursion), edit
      scripts [edits], the row-by-row dynamic programme [levenshtein], its
      equality with [lev], and the laws of a metric.
    - [Promise]: promise chains as finite trees of calls ([promise]) with
      [then_] and [catch_], their laws up to [peq], and [run], which
      executes a chain against a world and returns the calls made, the
      world left and the value or the error.
    - [Scheduler]: chains in flight that take turns ([pool], [turn],
      [step], [schedule]); a run is the schedule that gives one chain all
      its turns; what no call breaks holds in every pool reached, and an
      invariant of the chains that each keeps at its own turn holds in
      every pool reached ([steps_chains]); the calls a chain avoids (hint
      database [chain]).
    - [Progress]: the calls a chain makes at most ([within]), the budget of
      a pool that every step spends, strong normalisation of the steps,
      absence of deadlock, and fair schedules; calls that are never
      answered ([stall], [guarded], [hung]).
    - [Types]: the data of the schema: [UserType] (lines 45-54), the filters
      and values handed to the model layer, the request handed to [axios]
      and its answers, the values thrown ([js_error]), the calls
      ([schema_call]).
    - [Matcher]: [ld] (lines 179-183) and the test [ld <= 2] (line 185).
    - [Store]: the model layer as an interface ([Store], its laws
      [StoreLaws], the storage-level constraint [Constrained]) and two
      implementations, the [table] with its unique index and the same table
      without it ([bag_store]).
    - [Paystack]: the bank-resolution service as an interface ([Bank]) and
      two banks, [paystack] and [offline].
    - [World]: the world that answers the calls of the resolvers, from a
      store and a bank ([schema_respond]).
    - [Schema]: the resolvers, one definition for each resolver and each
      callback of [src/schema/schema.js], in the order of the source, and
      the dispatch of a root field ([schema], lines 224-227).
    - [Exec]: the tactic [exec] that computes runs, and the example world
      the witnesses evaluate.
    - [AddUser]: the runs of [addUser] and their specification
      [addUser_spec], a relation with one case for each way a run can go.
    - [UserQuery]: the same for [user] ([user_spec]) and [users].
    - [Service]: requests served one after another ([serve], [serve_all],
      [reachable]).
    - [Concurrent]: requests served at once, their calls interleaved.
    - [Liveness]: the bound of each resolver ([calls_bound]) and what
      follows for the requests in flight: they are answered; and what
      happens to them when the bank never answers.
    - [WellFormed]: the typing of a record of the data model
      ([well_formed]) and of the answers of the fields ([field_type]).
    - [Serial]: the invariant [serial] of a chain on the table, and the
      serialisability of interleavings in what they store.
    - [Linear]: the invariant [linear] of a chain on the table, the
      linearisability of the answers, and the race of two creations.
    - [Abstract]: the table as a finite map from account numbers to records
      ([directory], a [gmap]), the specification of the resolvers on that
      map ([spec_addUser], [spec_user]) and the refinement theorems.
    - [Session]: the specification as a machine on a [book] (the directory
      and the next identifier), and the simulation of whole sessions.

    ** How the model corresponds to the code

    - A chain [p.then(f).catch(h)] is the term [p .then f .catch h]; a call
      to a collaborator is [perform c]; [throw] in a callback and a rejected
      promise are both [Rejected] (GraphQL sees a field error either way).
      [console.error] and [console.log] are calls after which the chain goes
      on whatever they answer.  They are synchronous in the code and are
      calls of their own in the model: the model has the interleavings of
      the code and, with them, those in which another request makes a call
      between the two lines of a [catch]; what holds in all of them holds in
      the code, and the bounds of [Liveness] count them.
    - A call is made and answered in one [step].  A call that is never
      answered is a step that is never taken: the interleavings in which the
      bank hangs are the sequences of steps that make no request to it
      ([Liveness.bank_hangs]).
    - The bank is a function of the request ([Bank]): the same request is
      answered the same whenever it is sent.  What the code reads of an
      answer, [response.data.data.account_name], is one [option]: a missing
      [data], a missing [data.data] and a missing name are all [None], and
      all raise the same [TypeError].  [toTitleCase] of a missing name is
      taken to throw, as a function that calls a method of its argument
      does.
    - A value that may be [null] or [undefined] is an [option]: the
      arguments of the fields are nullable GraphQL strings.  Calling
      [toString] or [toLowerCase] on an absent value is a [TypeError].
    - A stored record ([UserType]) has an identifier, an account number, a
      bank code and a flag, and may lack a name: that is the data model of
      the specification.  The GraphQL type of lines 45-54 declares every
      field nullable; the resolvers read [user_account_name] only as a value
      that may be absent.
    - The state is the state of the store.  [User.create] is the one call
      that changes it.  The resolvers are verified against the interfaces
      [Store] and [Bank]: the theorems hold for every store that obeys
      [StoreLaws] (which lets every operation reject) and every bank.
    - [process.env.PAYSTACK_SECRET_KEY] is a parameter of the resolvers.
    - The test in the [catch] of [addUser] (lines 208-212) is evaluated from
      left to right and can throw: [is_invalid_bank_details] answers a
      boolean, or the [TypeError] of reading [status] of an absent body.
    - The stores are [table] (the unique index of the data model),
      [bag_store] (the same table without the index) and [down_store]
      (every operation rejects); the banks are [paystack], [offline] and
      [bodiless].

    ** What the theorems show

    - [Levenshtein], [Matcher]: the distance the code computes is the least
      cost of an edit script on the lower-cased names; it is a metric up to
      case; it is bounded by the lengths; names of at most two characters
      always match, and matching is not transitive.
    - [AddUser], [UserQuery]: a run is exactly one case of the relational
      specification (soundness and totality); from the cases: a refused
      number costs no call; a stored number is refused; the calls come in
      the order lookup, request, creation, each exactly when the one before
      was answered as it must; each error is raised by exactly the runs
      listed for it; a failed run stores nothing; the row created is the
      one requested, verified when the names match; the query reads only,
      sends one request at most, answers a row of the table, and answers
      [null] when the bank fails.
    - [Service]: the invariant (valid table, account numbers and
      identifiers unique) holds in every state reachable by any sequence of
      requests; rows are appended only; what [addUser] created, [user]
      answers.
    - [Concurrent]: queries change nothing in any interleaving.  As lemmas
      and examples: the sequential service is one interleaving; the
      invariant holds in every interleaving when the store has the unique
      index, whatever the chains do, and fails without it (two creations of
      one number both pass the lookup).
    - [Progress], [Liveness]: every interleaving is finite and no longer
      than the budget of its requests; a pool that cannot move has
      answered every request, and from every pool reached some
      continuation answers them all; a request that gets as many turns as
      its bound is answered and keeps its answer, whatever turns the other
      requests get.  When the bank never answers: both resolvers keep the
      creation behind the request to the bank, so nothing is stored; the
      requests whose run alone asks the bank wait for ever; the others are
      answered, with the answers of their runs alone.
    - [WellFormed]: every record the resolvers add has an account number
      of ten characters and a name, in every interleaving; every answer
      has the type the schema declares for its field.
    - [Serial]: on the table with its unique index, the table an
      interleaving leaves is the table that serving the same requests one
      after another, in the order their creations were accepted, leaves;
      the answers are not those of any sequential order (the request that
      loses a race is answered [SERVER_ERROR]).
    - [Linear]: every answer is the answer of the request served alone in
      a table between the one the request arrived in and the one reached
      (in its rows and in the identifiers given out), except the
      [SERVER_ERROR] of a mutation that lost a race, which is the answer of
      no table; and for every two creations of one number that both look
      the number up before either creates, the second loses that race.
    - [Abstract], [Session]: the resolvers refine their specification on
      the directory; the table simulates the specification machine through
      whole sessions, and requests served at once leave a book that the
      machine leaves after a session of the same requests in some order.

    ** Bounds and termination

    No definition takes fuel.  A chain is a finite tree, so [run] is
    structural and total, and a run takes as many turns as it has calls
    ([Scheduler.advance_n_run]).  The bounds are those of the code: one
    call for [users], three for [user] (lookup, request, [console.error]),
    five for [addUser] (lookup, request, creation, [console.error],
    [console.log]); the last is reached by the request that loses a race
    ([Liveness.calls_bound_reached]).  The steps of a pool are strongly
    normalising ([Progress.pool_sn]); [lev] recurses on the sum of the
    lengths.
    Each [ascii] of a string is one UTF-16 code unit below 128: case
    conversion touches [A-Z] and [a-z], as JavaScript does on that range;
    code units from 128 on are left as they are and are outside what the
    model claims.  Identifiers are natural numbers.

    ** What is not modelled

    - GraphQL itself: parsing and validation of documents, coercion of
      arguments, selection of fields, and the formatting of errors; the
      model starts where a resolver is called with its arguments.
    - Sequelize and the database behind [User]: rows are a list, a lookup
      answers the first row that passes the filter; the resolvers' theorems
      rely on the laws of [Store] only.
    - HTTP: the request is the [options] object and the answer is what
      [axios] settles with, or nothing when the bank hangs; there are no
      timeouts in the code and none in the model.
    - An explicit [null] for the argument [is_verified] of [addUser]: the
      argument is the boolean the resolver sees when the request gives one
      or leaves it out.
    - A [null] bank code in the filter of [user]: the table answers that no
      row passes such a filter.
    - The commented-out prefetch of the bank list (lines 22-42): dead code.
    - Time: a call is answered or it is not; the theorems of [Liveness]
      are about schedules, not about durations. *)

From stdpp Require Export base tactics option list.
From Stdlib Require Export Arith Lia.

(** ** Results: a value or an error *)

(** [result E A] is the outcome of a fallible operation: [Ok a] or [Err e]. *)
Inductive result (E A : Type) : Type :=
| Ok (a : A)
| Err (e : E).
Arguments Ok {E A} a.
Arguments Err {E A} e.

Definition result_bind {E A B} (r : result E A) (f : A -> result E B) : result E B :=
  match r with
  | Ok a => f a
  | Err e => Err e
  end.

Definition result_map {E A B} (f : A -> B) (r : result E A) : result E B :=
  result_bind r (fun a => Ok (f a)).

Definition is_ok {E A} (r : result E A) : bool :=
  match r with
  | Ok _ => true
  | Err _ => false
  end.

Declare Scope result_scope.
Delimit Scope result_scope with result.
Notation "'let?' x ':=' r 'in' k" := (result_bind r (fun x => k))
  (at level 10, x name, r at level 100, k at level 200) : result_scope.

#[export] Instance result_eq_dec {E A} `{EqDecision E, EqDecision A} :
  EqDecision (result E A).
Proof. solve_decision. Defined.

(** ** Tactics *)

(** [break_match]: case analysis on the scrutinee of the first [match] or [if]
    found in the goal, keeping the equation. *)
Ltac break_match :=
  match goal with
  | |- context [match ?x with _ => _ end] =>
      let E := fresh "E" in destruct x eqn:E
  end.

(** [break_match_hyp]: the same for a [match] in a hypothesis. *)
Ltac break_match_hyp :=
  match goal with
  | H : context [match ?x with _ => _ end] |- _ =>
      let E := fresh "E" in destruct x eqn:E
  end.

(** [by_cases_bool b]: both values of a boolean, with the equation rewritten. *)
Ltac by_cases_bool b :=
  let E := fresh "E" in destruct b eqn:E; simpl in *.

(** Hint database of the development: structural facts that [auto with js]
    and [eauto with js] may use. *)
Create HintDb js discriminated.

(** ** Numbers *)

(** The minimum of three numbers, as the edit-distance recurrence takes it. *)
Definition min3 (a b c : nat) : nat := Nat.min a (Nat.min b c).

Lemma min3_spec a b c :
  (min3 a b c = a /\ a <= b /\ a <= c) \/
  (min3 a b c = b /\ b <= a /\ b <= c) \/
  (min3 a b c = c /\ c <= a /\ c <= b).
Proof. unfold min3. lia. Qed.

Lemma min3_le_l a b c : min3 a b c <= a.
Proof. unfold min3. lia. Qed.

Lemma min3_le_m a b c : min3 a b c <= b.
Proof. unfold min3. lia. Qed.

Lemma min3_le_r a b c : min3 a b c <= c.
Proof. unfold min3. lia. Qed.

Lemma min3_glb a b c n : n <= a -> n <= b -> n <= c -> n <= min3 a b c.
Proof. unfold min3. lia. Qed.

Lemma min3_comm_12 a b c : min3 a b c = min3 b a c.
Proof. unfold min3. lia. Qed.

#[export] Hint Resolve min3_le_l min3_le_m min3_le_r min3_glb : js.

(** ** Results *)

Lemma result_bind_ok {E A B} (r : result E A) (f : A -> result E B) b :
  result_bind r f = Ok b <-> exists a, r = Ok a /\ f a = Ok b.
Proof.
  destruct r as [a|e']; simpl; split.
  - eauto.
  - intros (a0 & H & ?). by simplify_eq.
  - done.
  - by intros (a0 & H & ?).
Qed.

Lemma result_bind_err {E A B} (r : result E A) (f : A -> result E B) e :
  result_bind r f = Err e <-> r = Err e \/ exists a, r = Ok a /\ f a = Err e.
Proof.
  destruct r as [a|e']; simpl; split.
  - eauto.
  - intros [H|(a0 & H & ?)]; [done|]. by simplify_eq.
  - intros [= ->]. by left.
  - by intros [[= ->]|(a0 & H & ?)].
Qed.

Lemma result_bind_assoc {E A B C} (r : result E A)
    (f : A -> result E B) (g : B -> result E C) :
  result_bind (result_bind r f) g = result_bind r (fun a => result_bind (f a) g).
Proof. by destruct r. Qed.

Lemma result_bind_ret {E A} (r : result E A) : result_bind r Ok = r.
Proof. by destruct r. Qed.

(** ** Lists *)

(** [tails l] lists the suffixes of [l], longest first, the empty one last. *)
Fixpoint tails {A} (l : list A) : list (list A) :=
  match l with
  | [] => [[]]
  | x :: l' => l :: tails l'
  end.

Lemma tails_length {A} (l : list A) : length (tails l) = S (length l).
Proof. induction l; simpl; congruence. Qed.

Lemma tails_hd {A} (l : list A) : head (tails l) = Some l.
Proof. by destruct l. Qed.

Lemma tails_cons {A} (x : A) l : tails (x :: l) = (x :: l) :: tails l.
Proof. done. Qed.

(** A list in which no two elements have the same key. *)
Definition unique_on {A K} (key : A -> K) (l : list A) : Prop :=
  NoDup (key <$> l).

Lemma unique_on_nil {A K} (key : A -> K) : unique_on key [].
Proof. constructor. Qed.

Lemma unique_on_snoc {A K} (key : A -> K) l x :
  unique_on key (l ++ [x]) <->
  unique_on key l /\ forall y, y ∈ l -> key y <> key x.
Proof.
  unfold unique_on. rewrite fmap_app, NoDup_app. simpl. split.
  - intros (Hl & Hd & _). split; [done|]. intros y Hy Heq.
    apply (Hd (key y)); [by apply list_elem_of_fmap_2|]. by apply list_elem_of_singleton.
  - intros [Hl Hd]. split_and!; [done| |apply NoDup_singleton].
    intros k [y [-> Hy]]%list_elem_of_fmap Heq%list_elem_of_singleton.
    by eapply Hd.
Qed.

Lemma unique_on_fresh {A K} (key : A -> K) l x :
  unique_on key l -> key x ∉ (key <$> l) -> unique_on key (l ++ [x]).
Proof.
  intros Hl Hx. apply unique_on_snoc. split; [done|].
  intros y Hy Heq. apply Hx. rewrite <- Heq. by apply list_elem_of_fmap_2.
Qed.

Lemma unique_on_lookup {A K} (key : A -> K) l x y :
  unique_on key l -> x ∈ l -> y ∈ l -> key x = key y -> x = y.
Proof.
  unfold unique_on. induction l as [|z l IH]; simpl; [by intros _ ?%elem_of_nil|].
  intros [Hz Hl]%NoDup_cons [->|Hx]%elem_of_cons [->|Hy]%elem_of_cons Hk; auto.
  - destruct Hz. rewrite Hk. by apply list_elem_of_fmap_2.
  - destruct Hz. rewrite <- Hk. by apply list_elem_of_fmap_2.
Qed.

#[export] Hint Resolve unique_on_nil : js.
