(* ===== verification/JsString.v ===== *)
(** * JavaScript strings

    The string operations the resolvers of [src/schema/schema.js] use:
    [.length], [.toLowerCase()], the truthiness test [if (s)], and
    [toTitleCase] of [../utils/titleCase] (not in the sources: modelled from
    the specification as "each word capitalized").  A string is a [string]
    whose characters are UTF-16 code units below 128. *)

From S2P Require Import Prelude.
From stdpp Require Import strings.
From Stdlib Require Ascii String.
Export Stdlib.Strings.Ascii (ascii(..)).
Export (notations) Stdlib.Strings.Ascii.

(** ** Code units *)

Definition char_code (c : ascii) : nat := Ascii.nat_of_ascii c.

Definition is_upper (c : ascii) : bool :=
  (65 <=? char_code c) && (char_code c <=? 90).

Definition is_lower (c : ascii) : bool :=
  (97 <=? char_code c) && (char_code c <=? 122).

(** [A-Z] go to [a-z]; every other code unit stays. *)
Definition lower_char (c : ascii) : ascii :=
  if is_upper c then Ascii.ascii_of_nat (char_code c + 32) else c.

(** [a-z] go to [A-Z]; every other code unit stays. *)
Definition upper_char (c : ascii) : ascii :=
  if is_lower c then Ascii.ascii_of_nat (char_code c - 32) else c.

Definition is_space (c : ascii) : bool := bool_decide (c = " "%char).

(** ** Strings *)

Fixpoint string_map (f : ascii -> ascii) (s : string) : string :=
  match s with
  | EmptyString => EmptyString
  | String c s' => String (f c) (string_map f s')
  end.

(** [s.length] *)
Definition js_length (s : string) : nat := String.length s.

(** [s.toLowerCase()] *)
Definition toLowerCase (s : string) : string := string_map lower_char s.

(** [s.toUpperCase()] *)
Definition toUpperCase (s : string) : string := string_map upper_char s.

(** The code units of a string, for the functions that work on lists. *)
Definition code_units (s : string) : list ascii := String.list_ascii_of_string s.

(** [if (s)] for a string that may be [null] or [undefined]: only a string
    with at least one character is truthy. *)
Definition truthy (s : option string) : bool :=
  match s with
  | Some (String _ _) => true
  | Some EmptyString => false
  | None => false
  end.

(** [title_from start s]: the title case of [s] when [start] says whether the
    first character of [s] begins a word. *)
Fixpoint title_from (start : bool) (s : string) : string :=
  match s with
  | EmptyString => EmptyString
  | String c s' =>
      String (if start then upper_char c else lower_char c)
             (title_from (is_space c) s')
  end.

(** [toTitleCase(s)]: every word (a maximal run without a space) has its first
    character in upper case and the others in lower case. *)
Definition toTitleCase (s : string) : string := title_from true s.

(** A string in which no character is an upper-case letter. *)
Definition lower_only (s : string) : Prop := toLowerCase s = s.

(** Two strings that differ in the case of their letters only. *)
Definition same_letters (s t : string) : Prop := toLowerCase s = toLowerCase t.

#[export] Instance same_letters_dec s t : Decision (same_letters s t).
Proof. unfold same_letters. apply _. Defined.

#[export] Instance same_letters_equiv : Equivalence same_letters.
Proof.
  unfold same_letters. split.
  - by intros s.
  - by intros s t.
  - intros s t u. congruence.
Qed.

(** ** Characters: facts checked on all 256 code units *)

(** [all_chars P]: the boolean predicate [P] holds of every code unit. *)
Definition all_chars (P : ascii -> bool) : bool :=
  forallb (fun n => P (Ascii.ascii_of_nat n)) (seq 0 256).

Lemma all_chars_spec P : all_chars P = true -> forall c, P c = true.
Proof.
  unfold all_chars. rewrite forallb_forall. intros H c.
  rewrite <- (Ascii.ascii_nat_embedding c). apply H, in_seq.
  pose proof (Ascii.nat_ascii_bounded c). lia.
Qed.

(** [char_facts]: reduce a universally quantified equation on code units to
    the exhaustive check. *)
Ltac char_facts :=
  let c := fresh "c" in
  intros c;
  match goal with
  | |- ?l = ?r =>
      let P := eval pattern c in (bool_decide (l = r)) in
      match P with
      | ?f c => apply (bool_decide_eq_true_1 _),
                  (all_chars_spec f); vm_compute; reflexivity
      end
  end.

Lemma lower_char_idemp : forall c, lower_char (lower_char c) = lower_char c.
Proof. char_facts. Qed.

Lemma upper_char_idemp : forall c, upper_char (upper_char c) = upper_char c.
Proof. char_facts. Qed.

Lemma lower_upper_char : forall c, lower_char (upper_char c) = lower_char c.
Proof. char_facts. Qed.

Lemma upper_lower_char : forall c, upper_char (lower_char c) = upper_char c.
Proof. char_facts. Qed.

Lemma lower_char_not_upper : forall c, is_upper (lower_char c) = false.
Proof. char_facts. Qed.

Lemma upper_char_not_lower : forall c, is_lower (upper_char c) = false.
Proof. char_facts. Qed.

Lemma is_space_lower : forall c, is_space (lower_char c) = is_space c.
Proof. char_facts. Qed.

Lemma is_space_upper : forall c, is_space (upper_char c) = is_space c.
Proof. char_facts. Qed.

Lemma lower_char_fixed c : is_upper c = false -> lower_char c = c.
Proof. unfold lower_char. by intros ->. Qed.

Create Rewrite HintDb jsstring.
#[export] Hint Rewrite lower_char_idemp upper_char_idemp lower_upper_char
  upper_lower_char is_space_lower is_space_upper : jsstring.

(** ** [string_map] and the case conversions *)

Lemma string_map_length f s : js_length (string_map f s) = js_length s.
Proof. unfold js_length. induction s; simpl; congruence. Qed.

Lemma string_map_compose f g s :
  string_map f (string_map g s) = string_map (fun c => f (g c)) s.
Proof. induction s; simpl; congruence. Qed.

Lemma string_map_ext f g s :
  (forall c, f c = g c) -> string_map f s = string_map g s.
Proof. intros H. induction s; simpl; congruence. Qed.

Lemma code_units_string_map f s :
  code_units (string_map f s) = f <$> code_units s.
Proof.
  unfold code_units. induction s as [|c s IH]; [done|]. simpl. by rewrite IH.
Qed.

Lemma code_units_length s : length (code_units s) = js_length s.
Proof. unfold code_units, js_length. induction s; simpl; congruence. Qed.

Lemma code_units_inj s t : code_units s = code_units t -> s = t.
Proof.
  unfold code_units. intros H.
  rewrite <- (String.string_of_list_ascii_of_string s),
          <- (String.string_of_list_ascii_of_string t). by rewrite H.
Qed.

Lemma toLowerCase_length s : js_length (toLowerCase s) = js_length s.
Proof. apply string_map_length. Qed.

Lemma toUpperCase_length s : js_length (toUpperCase s) = js_length s.
Proof. apply string_map_length. Qed.

Lemma toLowerCase_idemp s : toLowerCase (toLowerCase s) = toLowerCase s.
Proof.
  unfold toLowerCase. rewrite string_map_compose.
  apply string_map_ext, lower_char_idemp.
Qed.

Lemma toLowerCase_toUpperCase s : toLowerCase (toUpperCase s) = toLowerCase s.
Proof.
  unfold toLowerCase, toUpperCase. rewrite string_map_compose.
  apply string_map_ext, lower_upper_char.
Qed.

Lemma same_letters_lower s : same_letters (toLowerCase s) s.
Proof. apply toLowerCase_idemp. Qed.

Lemma same_letters_upper s : same_letters (toUpperCase s) s.
Proof. apply toLowerCase_toUpperCase. Qed.

Lemma same_letters_length s t : same_letters s t -> js_length s = js_length t.
Proof.
  intros H. rewrite <- (toLowerCase_length s), <- (toLowerCase_length t).
  by rewrite H.
Qed.

(** ** Truthiness *)

Lemma truthy_spec s : truthy s = true <-> exists t, s = Some t /\ t <> EmptyString.
Proof.
  split.
  - destruct s as [[|c t]|]; simpl; try done. intros _. by eexists.
  - intros (t & -> & Ht). by destruct t.
Qed.

Lemma truthy_length s : truthy (Some s) = true <-> 0 < js_length s.
Proof. destruct s; simpl; split; (done || lia). Qed.

(** ** Title case *)

Lemma title_from_length b s : js_length (title_from b s) = js_length s.
Proof.
  unfold js_length. revert b. induction s as [|c s IH]; intros b; simpl; [done|].
  by rewrite IH.
Qed.

Lemma title_from_lower b s : toLowerCase (title_from b s) = toLowerCase s.
Proof.
  unfold toLowerCase. revert b. induction s as [|c s IH]; intros b; simpl; [done|].
  rewrite IH. destruct b; by autorewrite with jsstring.
Qed.

Lemma title_from_idemp b s : title_from b (title_from b s) = title_from b s.
Proof.
  revert b. induction s as [|c s IH]; intros b; simpl; [done|].
  destruct b; autorewrite with jsstring; by rewrite IH.
Qed.

Lemma title_from_same_letters b s t :
  same_letters s t -> title_from b s = title_from b t.
Proof.
  unfold same_letters, toLowerCase. revert b t.
  induction s as [|c s IH]; intros b [|d t]; simpl; try done.
  intros [= Hc Hs].
  assert (upper_char c = upper_char d) as Hu.
  { by rewrite <- (upper_lower_char c), <- (upper_lower_char d), Hc. }
  assert (is_space c = is_space d) as Hsp.
  { by rewrite <- (is_space_lower c), <- (is_space_lower d), Hc. }
  rewrite Hsp, (IH _ t Hs). by destruct b; rewrite ?Hu, ?Hc.
Qed.
