(* ===== verification/Levenshtein.v ===== *)
(** * Levenshtein distance

    The distance that [js-levenshtein] computes (the package is a dependency,
    not a source of the repository: modelled from the specification's
    "minimum single-character insertions/deletions/substitutions to
    transform one string into another").

    - [lev] is the textbook recurrence, the reference definition;
    - [edits s t n] says that some edit script of cost [n] turns [s] into
      [t]; [lev s t] is the least such cost ([lev_edits], [edits_lev]);
    - [levenshtein] is the executable dynamic program, one row of the table
      at a time, and equals [lev] ([levenshtein_lev]);
    - the metric laws and the bounds by the lengths follow from the edit
      scripts. *)

From S2P Require Import Prelude.
From Equations Require Import Equations.

Section Levenshtein.
Context {A : Type} `{EqDecision A}.
Implicit Types (a b c : A) (s t u : list A) (n m k : nat).

(** Cost of writing [b] where [a] stood. *)
Definition subst_cost a b : nat := if decide (a = b) then 0 else 1.

(** ** The reference recurrence *)

Equations? lev s t : nat by wf (length s + length t) lt :=
  lev [] t := length t;
  lev s [] := length s;
  lev (a :: s) (b :: t) :=
    min3 (S (lev s (b :: t))) (S (lev (a :: s) t)) (subst_cost a b + lev s t).
Proof. all: simpl; lia. Qed.

(** ** Edit scripts *)

Inductive edits : list A -> list A -> nat -> Prop :=
| edits_nil : edits [] [] 0
| edits_keep a s t n : edits s t n -> edits (a :: s) (a :: t) n
| edits_subst a b s t n : edits s t n -> edits (a :: s) (b :: t) (S n)
| edits_delete a s t n : edits s t n -> edits (a :: s) t (S n)
| edits_insert b s t n : edits s t n -> edits s (b :: t) (S n).

(** ** The dynamic program *)

(** [lev_row a t prev]: from the row [prev] of distances of [s] to every
    suffix of [t] (longest first), the row of [a :: s]. *)
Fixpoint lev_row a t (prev : list nat) : list nat :=
  match t, prev with
  | b :: t', p :: prev' =>
      let rest := lev_row a t' prev' in
      min3 (S p) (S (hd 0 rest)) (subst_cost a b + hd 0 prev') :: rest
  | _, p :: _ => [S p]
  | _, [] => []
  end.

(** The row of the empty string: the lengths of the suffixes of [t]. *)
Definition lev_row0 t : list nat := length <$> tails t.

(** All rows, from the last character of [s] to its first. *)
Definition lev_rows s t : list nat := foldr (fun a row => lev_row a t row) (lev_row0 t) s.

(** [levenshtein(s, t)] *)
Definition levenshtein s t : nat := hd 0 (lev_rows s t).

(** * Theorems *)

(** ** Equations of [lev] *)

Lemma lev_nil_r s : lev s [] = length s.
Proof. destruct s; by simp lev. Qed.

Lemma lev_cons_cons a b s t :
  lev (a :: s) (b :: t) =
  min3 (S (lev s (b :: t))) (S (lev (a :: s) t)) (subst_cost a b + lev s t).
Proof. by simp lev. Qed.

Lemma subst_cost_refl a : subst_cost a a = 0.
Proof. unfold subst_cost. by case_decide. Qed.

Lemma subst_cost_le a b : subst_cost a b <= 1.
Proof. unfold subst_cost. case_decide; lia. Qed.

Lemma subst_cost_sym a b : subst_cost a b = subst_cost b a.
Proof. unfold subst_cost. repeat case_decide; congruence. Qed.

Lemma lev_cons_l a s t : lev (a :: s) t <= S (lev s t).
Proof.
  destruct t as [|b t]; [by rewrite !lev_nil_r|].
  rewrite lev_cons_cons. apply min3_le_l.
Qed.

Lemma lev_cons_r b s t : lev s (b :: t) <= S (lev s t).
Proof.
  destruct s as [|a s]; [by simp lev|].
  rewrite lev_cons_cons. apply min3_le_m.
Qed.

Lemma lev_cons_both a b s t : lev (a :: s) (b :: t) <= subst_cost a b + lev s t.
Proof. rewrite lev_cons_cons. apply min3_le_r. Qed.

(** ** Edit scripts *)

Lemma edits_refl s : edits s s 0.
Proof. induction s; eauto using edits. Qed.

Lemma edits_from_nil t : edits [] t (length t).
Proof. induction t; simpl; eauto using edits. Qed.

Lemma edits_to_nil s : edits s [] (length s).
Proof. induction s; simpl; eauto using edits. Qed.

Lemma edits_sym s t n : edits s t n -> edits t s n.
Proof. induction 1; eauto using edits. Qed.

Lemma edits_change a b s t n :
  edits s t n -> edits (a :: s) (b :: t) (subst_cost a b + n).
Proof.
  intros H0. unfold subst_cost. case_decide as Hab; simpl.
  - subst. by apply edits_keep.
  - by apply edits_subst.
Qed.

Lemma edits_zero s t n : edits s t n -> n = 0 -> s = t.
Proof. induction 1; intros; try discriminate; f_equal; auto. Qed.

Lemma edits_length s t n :
  edits s t n -> length s <= length t + n /\ length t <= length s + n.
Proof. induction 1; simpl; lia. Qed.

(** The reference distance is the cost of a script... *)
Lemma lev_edits s t : edits s t (lev s t).
Proof.
  funelim (lev s t); simp lev.
  - apply edits_from_nil.
  - apply (edits_to_nil (_ :: _)).
  - destruct (min3_spec (S (lev s (b :: t))) (S (lev (a :: s) t))
                (subst_cost a b + lev s t)) as [(-> & _)|[(-> & _)|(-> & _)]].
    + by apply edits_delete.
    + by apply edits_insert.
    + by apply edits_change.
Qed.

(** ... and no script is cheaper. *)
Lemma edits_lev s t n : edits s t n -> lev s t <= n.
Proof.
  induction 1 as [|a s t n _ IH|a b s t n _ IH|a s t n _ IH|b s t n _ IH].
  - by simp lev.
  - pose proof (lev_cons_both a a s t). rewrite subst_cost_refl in *. lia.
  - pose proof (lev_cons_both a b s t). pose proof (subst_cost_le a b). lia.
  - pose proof (lev_cons_l a s t). lia.
  - pose proof (lev_cons_r b s t). lia.
Qed.

Lemma lev_least s t n : lev s t = n <-> edits s t n /\ forall m, edits s t m -> n <= m.
Proof.
  split.
  - intros <-. split; [apply lev_edits|]. apply edits_lev.
  - intros [H1 H2]. apply Nat.le_antisymm.
    + by apply edits_lev.
    + apply H2, lev_edits.
Qed.

(** Scripts that start from [b :: t] are built from the four steps on [b];
    the induction principle that the composition of scripts needs. *)
Lemma edits_cons_ind b t (P : list A -> nat -> Prop) :
  (forall u m, edits t u m -> P (b :: u) m) ->
  (forall c u m, edits t u m -> P (c :: u) (S m)) ->
  (forall u m, edits t u m -> P u (S m)) ->
  (forall c u m, P u m -> P (c :: u) (S m)) ->
  forall u m, edits (b :: t) u m -> P u m.
Proof.
  intros Hkeep Hsubst Hdel Hins u m Hed.
  remember (b :: t) as t0 eqn:Et0.
  induction Hed; try discriminate; try (injection Et0 as -> ->); subst; eauto.
Qed.

(** [composes s N]: whatever a script does after one of cost [N] into some
    list, a script from [s] does at no more than the sum of the costs. *)
Definition composes s N (u : list A) m : Prop := exists k, k <= N + m /\ edits s u k.

Lemma composes_insert s N c u m : composes s N u m -> composes s N (c :: u) (S m).
Proof. intros (k & Hk & Hed). exists (S k). split; [lia|]. by apply edits_insert. Qed.

Lemma edits_trans s t n : edits s t n -> forall u m, edits t u m -> composes s n u m.
Proof.
  induction 1 as [|a s t n _ IH|a b s t n _ IH|a s t n _ IH|b s t n _ IH].
  - intros u m Hed. exists m. split; [lia|done].
  - apply edits_cons_ind; [| | |apply composes_insert].
    + intros u m (k & ? & ?)%IH. exists k. eauto using edits.
    + intros c u m (k & ? & ?)%IH. exists (S k). split; [lia|]. eauto using edits.
    + intros u m (k & ? & ?)%IH. exists (S k). split; [lia|]. eauto using edits.
  - apply edits_cons_ind; [| | |apply composes_insert].
    + intros u m (k & ? & ?)%IH. exists (S k). split; [lia|]. eauto using edits.
    + intros c u m (k & ? & ?)%IH. exists (S k). split; [lia|]. eauto using edits.
    + intros u m (k & ? & ?)%IH. exists (S k). split; [lia|]. eauto using edits.
  - intros u m (k & ? & ?)%IH. exists (S k). split; [lia|]. eauto using edits.
  - apply edits_cons_ind; [| | |apply composes_insert].
    + intros u m (k & ? & ?)%IH. exists (S k). split; [lia|]. eauto using edits.
    + intros c u m (k & ? & ?)%IH. exists (S k). split; [lia|]. eauto using edits.
    + intros u m (k & ? & ?)%IH. exists k. split; [lia|done].
Qed.

(** ** [lev] is a metric *)

Lemma lev_refl s : lev s s = 0.
Proof. pose proof (edits_lev _ _ _ (edits_refl s)). lia. Qed.

Lemma lev_zero s t : lev s t = 0 -> s = t.
Proof. intros H0. apply (edits_zero s t (lev s t)); [apply lev_edits|done]. Qed.

Lemma lev_zero_iff s t : lev s t = 0 <-> s = t.
Proof. split; [apply lev_zero|intros ->; apply lev_refl]. Qed.

Lemma lev_sym s t : lev s t = lev t s.
Proof.
  apply Nat.le_antisymm; apply edits_lev, edits_sym, lev_edits.
Qed.

Lemma lev_triangle s t u : lev s u <= lev s t + lev t u.
Proof.
  destruct (edits_trans _ _ _ (lev_edits s t) _ _ (lev_edits t u)) as (k & Hk & Hed).
  apply edits_lev in Hed. lia.
Qed.

(** ** Bounds by the lengths *)

Lemma lev_lower s t : length s - length t <= lev s t /\ length t - length s <= lev s t.
Proof. pose proof (edits_length _ _ _ (lev_edits s t)). lia. Qed.

Lemma lev_upper s t : lev s t <= Nat.max (length s) (length t).
Proof.
  funelim (lev s t); simp lev; simpl; [lia..|].
  pose proof (min3_le_r (S (lev s (b :: t))) (S (lev (a :: s) t))
                (subst_cost a b + lev s t)).
  pose proof (subst_cost_le a b). lia.
Qed.

(** ** The dynamic program computes [lev] *)

Lemma lev_row_spec a s t :
  lev_row a t (lev s <$> tails t) = lev (a :: s) <$> tails t.
Proof.
  induction t as [|b t IH]; csimpl.
  - by rewrite !lev_nil_r.
  - rewrite IH. f_equal. rewrite lev_cons_cons. by destruct t.
Qed.

Lemma lev_row0_spec t : lev_row0 t = lev [] <$> tails t.
Proof. unfold lev_row0. apply list_fmap_ext. intros _ u _. by simp lev. Qed.

Lemma lev_rows_spec s t : lev_rows s t = lev s <$> tails t.
Proof.
  unfold lev_rows. induction s as [|a s IH]; csimpl.
  - apply lev_row0_spec.
  - rewrite IH. apply lev_row_spec.
Qed.

Lemma levenshtein_lev s t : levenshtein s t = lev s t.
Proof. unfold levenshtein. rewrite lev_rows_spec. by destruct t. Qed.

Lemma lev_rows_length s t : length (lev_rows s t) = S (length t).
Proof. by rewrite lev_rows_spec, length_fmap, tails_length. Qed.

End Levenshtein.

#[export] Hint Resolve edits_refl edits_from_nil edits_to_nil lev_edits : js.
