(* ===== verification/Promise.v ===== *)
(** * Promises

    The resolvers of [src/schema/schema.js] are promise chains:
    [User.findOne(...).then(...)], [axios(options).then(...).catch(...)].
    A chain is modelled as a tree: it has settled ([Resolved], [Rejected]) or
    it waits for a call to a collaborator and goes on with the answer
    ([Await]: the call, what to do when it is fulfilled, what to do when it
    is rejected).  [then_] and [catch_] are [.then(f)] and [.catch(h)].  A
    [throw] inside a callback is [Rejected].

    The file is generic in the calls ([Effects]).  [run] executes a chain
    against a world that answers the calls ([Responder]) and records the
    calls made, in order. *)

From S2P Require Import Prelude.

(** The calls a program makes, the type of answer each expects, and the
    values it throws. *)
Class Effects := {
  call : Type;
  answer : call -> Type;
  error : Type;
}.

Declare Scope promise_scope.
Delimit Scope promise_scope with promise.

Section Promise.
Context {E : Effects}.

Inductive promise (A : Type) : Type :=
| Resolved (a : A)
| Rejected (e : error)
| Await (c : call) (on_fulfilled : answer c -> promise A)
        (on_rejected : error -> promise A).
Global Arguments Resolved {A} a.
Global Arguments Rejected {A} e.
Global Arguments Await {A} c on_fulfilled on_rejected.

(** The promise a call returns: fulfilled with the answer or rejected. *)
Definition perform (c : call) : promise (answer c) := Await c Resolved Rejected.

(** [p.then(f)]: [f] runs on the value of [p]; a rejection of [p] skips it. *)
Fixpoint then_ {A B} (p : promise A) (f : A -> promise B) : promise B :=
  match p with
  | Resolved a => f a
  | Rejected e => Rejected e
  | Await c k h => Await c (fun x => then_ (k x) f) (fun e => then_ (h e) f)
  end.

(** [p.catch(h)]: [h] runs on the rejection of [p], whichever step of [p]
    rejected; a value of [p] skips it. *)
Fixpoint catch_ {A} (p : promise A) (h : error -> promise A) : promise A :=
  match p with
  | Resolved a => Resolved a
  | Rejected e => h e
  | Await c k g => Await c (fun x => catch_ (k x) h) (fun e => catch_ (g e) h)
  end.

(** Whether the chain has settled already, with no call left to make. *)
Definition settled {A} (p : promise A) : bool :=
  match p with
  | Await _ _ _ => false
  | _ => true
  end.

(** ** Equality of chains up to the extensional equality of callbacks *)

Inductive peq {A} : promise A -> promise A -> Prop :=
| peq_resolved a : peq (Resolved a) (Resolved a)
| peq_rejected e : peq (Rejected e) (Rejected e)
| peq_await c k k' h h' :
    (forall x, peq (k x) (k' x)) -> (forall e, peq (h e) (h' e)) ->
    peq (Await c k h) (Await c k' h').

(** ** Running a chain *)

(** What a run leaves: the calls made in order, the world, the outcome. *)
Record outcome (W A : Type) : Type := Outcome {
  trace : list call;
  final : W;
  value : result error A;
}.
Global Arguments Outcome {W A} trace final value.
Global Arguments trace {W A} o.
Global Arguments final {W A} o.
Global Arguments value {W A} o.

(** [after tr o]: the outcome [o] reached after the calls [tr]. *)
Definition after {W A} (tr : list call) (o : outcome W A) : outcome W A :=
  Outcome (tr ++ trace o) (final o) (value o).

(** [answer_with g o]: the outcome [o] with [g] applied to its value. *)
Definition answer_with {W A B} (g : A -> B) (o : outcome W A) : outcome W B :=
  Outcome (trace o) (final o) (result_map g (value o)).

(** A world answers every call, fulfilled or rejected, and moves on. *)
Class Responder (W : Type) :=
  respond : W -> forall c : call, W * result error (answer c).

Section Run.
Context {W : Type} `{!Responder W}.

Fixpoint run {A} (p : promise A) (w : W) : outcome W A :=
  match p with
  | Resolved a => Outcome [] w (Ok a)
  | Rejected e => Outcome [] w (Err e)
  | Await c k h =>
      after [c]
        match respond w c with
        | (w', Ok x) => run (k x) w'
        | (w', Err e) => run (h e) w'
        end
  end.

(** [continue o f]: go on from the outcome [o] with [f] on its value. *)
Definition continue {A B} (o : outcome W A) (f : A -> promise B) : outcome W B :=
  match value o with
  | Ok a => after (trace o) (run (f a) (final o))
  | Err e => Outcome (trace o) (final o) (Err e)
  end.

(** [recover o h]: go on from the outcome [o] with [h] on its rejection. *)
Definition recover {A} (o : outcome W A) (h : error -> promise A) : outcome W A :=
  match value o with
  | Ok a => o
  | Err e => after (trace o) (run (h e) (final o))
  end.

End Run.

(** * Theorems *)

(** ** [peq] is an equivalence that [then_], [catch_] and [run] respect *)

#[global] Instance peq_refl {A} : Reflexive (@peq A).
Proof. intros p. induction p; constructor; auto. Qed.

#[global] Instance peq_sym {A} : Symmetric (@peq A).
Proof. intros p q Hpq. induction Hpq; constructor; auto. Qed.

(** Inversion of [peq] by the shape of its left side (the callbacks of an
    [Await] depend on the call, which plain inversion cannot undo). *)
Lemma peq_inv {A} (p q : promise A) :
  peq p q ->
  match p with
  | Resolved a => q = Resolved a
  | Rejected e => q = Rejected e
  | Await c k h =>
      exists k' h', q = Await c k' h' /\
        (forall x, peq (k x) (k' x)) /\ (forall e, peq (h e) (h' e))
  end.
Proof. destruct 1; eauto. Qed.

#[global] Instance peq_trans {A} : Transitive (@peq A).
Proof.
  intros p q r Hpq. revert r.
  induction Hpq as [a|e|c k k' h h' _ IHk _ IHh]; intros r Hqr; [done..|].
  apply peq_inv in Hqr as (k'' & h'' & -> & Hk & Hh). constructor; auto.
Qed.

#[global] Instance peq_equivalence {A} : Equivalence (@peq A).
Proof. split; apply _. Qed.

#[global] Instance then_proper {A B} :
  Proper (peq ==> pointwise_relation A peq ==> peq) (@then_ A B).
Proof.
  intros p q Hpq f g Hfg.
  induction Hpq; simpl; [apply Hfg|constructor|constructor; auto].
Qed.

#[global] Instance catch_proper {A} :
  Proper (peq ==> pointwise_relation error peq ==> peq) (@catch_ A).
Proof.
  intros p q Hpq f g Hfg.
  induction Hpq; simpl; [constructor|apply Hfg|constructor; auto].
Qed.

Lemma peq_eq_settled {A} (p q : promise A) :
  peq p q -> settled p = true -> p = q.
Proof. by destruct 1. Qed.

(** ** Laws of [then_] and [catch_] *)

Lemma then_resolved {A B} (a : A) (f : A -> promise B) : then_ (Resolved a) f = f a.
Proof. done. Qed.

Lemma then_rejected {A B} e (f : A -> promise B) : then_ (Rejected e) f = Rejected e.
Proof. done. Qed.

Lemma catch_resolved {A} (a : A) h : catch_ (Resolved a) h = Resolved a.
Proof. done. Qed.

Lemma catch_rejected {A} e (h : error -> promise A) : catch_ (Rejected e) h = h e.
Proof. done. Qed.

Lemma then_perform {A} c (f : answer c -> promise A) :
  then_ (perform c) f = Await c f Rejected.
Proof. done. Qed.

Lemma then_id {A} (p : promise A) : peq (then_ p Resolved) p.
Proof. induction p; simpl; constructor; auto. Qed.

Lemma then_assoc {A B C} (p : promise A) (f : A -> promise B) (g : B -> promise C) :
  peq (then_ (then_ p f) g) (then_ p (fun a => then_ (f a) g)).
Proof. induction p; simpl; [reflexivity|constructor|constructor; auto]. Qed.

Lemma catch_id {A} (p : promise A) : peq (catch_ p Rejected) p.
Proof. induction p; simpl; constructor; auto. Qed.

Lemma catch_assoc {A} (p : promise A) h1 h2 :
  peq (catch_ (catch_ p h1) h2) (catch_ p (fun e => catch_ (h1 e) h2)).
Proof. induction p; simpl; [constructor|reflexivity|constructor; auto]. Qed.

(** ** [run] *)

Section RunFacts.
Context {W : Type} `{!Responder W}.
Implicit Types (w : W).

Lemma after_nil {A} (o : outcome W A) : after [] o = o.
Proof. by destruct o. Qed.

Lemma after_app {A} tr1 tr2 (o : outcome W A) :
  after tr1 (after tr2 o) = after (tr1 ++ tr2) o.
Proof. unfold after. simpl. by rewrite app_assoc. Qed.

Lemma after_value {A} tr (o : outcome W A) : value (after tr o) = value o.
Proof. done. Qed.

Lemma after_final {A} tr (o : outcome W A) : final (after tr o) = final o.
Proof. done. Qed.

Lemma after_trace {A} tr (o : outcome W A) : trace (after tr o) = tr ++ trace o.
Proof. done. Qed.

Lemma continue_ok {A B} tr w (a : A) (f : A -> promise B) :
  continue (Outcome tr w (Ok a)) f = after tr (run (f a) w).
Proof. done. Qed.

Lemma continue_err {A B} tr w e (f : A -> promise B) :
  continue (Outcome tr w (Err e)) f = Outcome tr w (Err e).
Proof. done. Qed.

Lemma recover_ok {A} tr w (a : A) h :
  recover (Outcome tr w (Ok a)) h = Outcome tr w (Ok a).
Proof. done. Qed.

Lemma recover_err {A} tr w e (h : error -> promise A) :
  recover (Outcome tr w (Err e)) h = after tr (run (h e) w).
Proof. done. Qed.

Lemma after_outcome {A} tr tr' w (r : result error A) :
  after tr (Outcome tr' w r) = Outcome (tr ++ tr') w r.
Proof. done. Qed.

Lemma run_resolved {A} (a : A) w : run (Resolved a) w = Outcome [] w (Ok a).
Proof. done. Qed.

Lemma run_rejected {A} e w : run (Rejected e : promise A) w = Outcome [] w (Err e).
Proof. done. Qed.

Lemma continue_after {A B} tr (o : outcome W A) (f : A -> promise B) :
  continue (after tr o) f = after tr (continue o f).
Proof.
  unfold continue. simpl. destruct (value o); [by rewrite after_app|].
  unfold after. done.
Qed.

Lemma recover_after {A} tr (o : outcome W A) h :
  recover (after tr o) h = after tr (recover o h).
Proof. unfold recover. simpl. destruct (value o); [done|by rewrite after_app]. Qed.

#[global] Instance run_proper {A} : Proper (peq ==> eq ==> eq) (@run W _ A).
Proof.
  intros p q Hpq w ? <-. revert w.
  induction Hpq as [a|e|c k k' h h' _ IHk _ IHh]; intros w; simpl; [done..|].
  destruct (respond w c) as [w' [x|e]]; by rewrite ?IHk, ?IHh.
Qed.

(** Running [p.then(f)] is running [p], then [f] on its value. *)
Lemma run_then {A B} (p : promise A) (f : A -> promise B) w :
  run (then_ p f) w = continue (run p w) f.
Proof.
  revert w. induction p as [a|e|c k IHk h IHh]; intros w; simpl.
  - unfold continue. simpl. by rewrite after_nil.
  - done.
  - rewrite continue_after. f_equal.
    destruct (respond w c) as [w' [x|e]]; auto.
Qed.

(** Running [p.catch(h)] is running [p], then [h] on its rejection. *)
Lemma run_catch {A} (p : promise A) h w :
  run (catch_ p h) w = recover (run p w) h.
Proof.
  revert w. induction p as [a|e|c k IHk g IHg]; intros w; simpl.
  - done.
  - unfold recover. simpl. by rewrite after_nil.
  - rewrite recover_after. f_equal.
    destruct (respond w c) as [w' [x|e]]; auto.
Qed.

Lemma continue_resolved {A B} (o : outcome W A) (g : A -> B) :
  continue o (fun a => Resolved (g a)) = answer_with g o.
Proof.
  destruct o as [tr w [a|e]]; unfold continue, answer_with, after; simpl; [|done].
  by rewrite app_nil_r.
Qed.

Lemma answer_with_ok {A B} (g : A -> B) (o : outcome W A) b :
  value (answer_with g o) = Ok b <-> exists a, value o = Ok a /\ b = g a.
Proof.
  unfold answer_with. simpl. destruct (value o) as [a|e]; simpl; split.
  - intros [= <-]. eauto.
  - by intros (a' & [= <-] & ->).
  - done.
  - by intros (a' & ? & _).
Qed.

Lemma run_perform c w :
  run (perform c) w = Outcome [c] (respond w c).1 (respond w c).2.
Proof. simpl. by destruct (respond w c) as [w' [x|e]]. Qed.

End RunFacts.

End Promise.

Notation "p '.then' f" := (then_ p f)
  (at level 50, left associativity, format "p  '.then'  f") : promise_scope.
Notation "p '.catch' h" := (catch_ p h)
  (at level 50, left associativity, format "p  '.catch'  h") : promise_scope.

Create Rewrite HintDb run.
#[export] Hint Rewrite @run_then @run_catch @run_perform @run_resolved @run_rejected
  @continue_ok @continue_err @recover_ok @recover_err @after_outcome
  @continue_after @recover_after @after_nil @after_app @after_value @after_final
  @after_trace : run.
