(* ===== verification/Scheduler.v ===== *)
(** * Requests in flight: chains that take turns

    A server handles several requests at once: each resolver runs until it
    awaits a call, and the calls of different requests are answered in
    whatever order they come.  A [pool] is the chains in flight and the world
    they share; a [step] lets one chain make its next call; [schedule]
    computes the pool after the chains named in a list took their turns.

    The file is generic in the calls, as [Promise] is.  It relates the steps
    to [run] (a run is the schedule that gives every turn to one chain, and
    it takes as many steps as the run has calls) and shows that a property of
    the world that no call breaks holds in every pool reached. *)

From S2P Require Import Prelude Promise.

Section Scheduler.
Context {E : Effects} {W : Type} `{!Responder W}.

(** A chain takes its turn: its next call is made and answered, and the
    chain goes on with the callback for the answer.  A settled chain stays. *)
Definition advance {A} (p : promise A) (w : W) : promise A * W :=
  match p with
  | Await c k h =>
      match respond w c with
      | (w', Ok x) => (k x, w')
      | (w', Err e) => (h e, w')
      end
  | _ => (p, w)
  end.

(** The call a chain waits to make. *)
Definition next_call {A} (p : promise A) : option call :=
  match p with
  | Await c _ _ => Some c
  | _ => None
  end.

(** [n] turns in a row. *)
Fixpoint advance_n {A} (n : nat) (p : promise A) (w : W) : promise A * W :=
  match n with
  | 0 => (p, w)
  | S n => advance_n n (advance p w).1 (advance p w).2
  end.

(** The settled chain of a result. *)
Definition of_result {A} (r : result error A) : promise A :=
  match r with
  | Ok a => Resolved a
  | Err e => Rejected e
  end.

(** The result of a settled chain. *)
Definition result_of {A} (p : promise A) : option (result error A) :=
  match p with
  | Resolved a => Some (Ok a)
  | Rejected e => Some (Err e)
  | Await _ _ _ => None
  end.

(** The chains in flight and the world they share. *)
Record pool (A : Type) : Type := Pool {
  tasks : list (promise A);
  world : W;
}.
Global Arguments Pool {A} tasks world.
Global Arguments tasks {A} p.
Global Arguments world {A} p.

(** The chain at position [i] takes its turn. *)
Definition turn {A} (i : nat) (c : pool A) : pool A :=
  match tasks c !! i with
  | Some p => Pool (<[i := (advance p (world c)).1]> (tasks c)) (advance p (world c)).2
  | None => c
  end.

(** The chains at the positions [turns] take their turns, in that order. *)
Definition schedule {A} (turns : list nat) (c : pool A) : pool A :=
  foldl (fun c i => turn i c) c turns.

(** One step of the pool: some chain that has not settled makes the call
    [e]. *)
Inductive step {A} : pool A -> call -> pool A -> Prop :=
| step_turn i c e :
    (tasks c !! i) ≫= next_call = Some e ->
    step c e (turn i c).

(** Steps in sequence, with the calls made. *)
Inductive steps {A} : pool A -> list call -> pool A -> Prop :=
| steps_done c : steps c [] c
| steps_next c1 e c2 tr c3 :
    step c1 e c2 -> steps c2 tr c3 -> steps c1 (e :: tr) c3.

(** [avoids P p]: the chain [p] makes no call that satisfies [P], whatever
    answers it gets. *)
Inductive avoids {A} (P : call -> bool) : promise A -> Prop :=
| avoids_resolved a : avoids P (Resolved a)
| avoids_rejected e : avoids P (Rejected e)
| avoids_await c k h :
    P c = false -> (forall x, avoids P (k x)) -> (forall e, avoids P (h e)) ->
    avoids P (Await c k h).

(** * Theorems *)

Lemma advance_settled {A} (p : promise A) w : settled p = true -> advance p w = (p, w).
Proof. by destruct p. Qed.

Lemma next_call_settled {A} (p : promise A) : next_call p = None <-> settled p = true.
Proof. by destruct p. Qed.

Lemma result_of_of_result {A} (r : result error A) : result_of (of_result r) = Some r.
Proof. by destruct r. Qed.

Lemma settled_of_result {A} (r : result error A) : settled (of_result r) = true.
Proof. by destruct r. Qed.

Lemma run_settled {A} (p : promise A) w r :
  result_of p = Some r -> run p w = Outcome [] w r.
Proof. destruct p; simpl; congruence. Qed.

(** The value of a run is the value of the run of what the first answer
    leaves. *)
Lemma value_run_await {A} c (k : answer c -> promise A) h w :
  value (run (Await c k h) w) =
  value (run (advance (Await c k h) w).1 (advance (Await c k h) w).2).
Proof. simpl. by destruct (respond w c) as [w' [x|e]]. Qed.

(** A run is the first turn followed by the run of what is left. *)
Lemma run_advance {A} (p : promise A) w c :
  next_call p = Some c ->
  run p w = after [c] (run (advance p w).1 (advance p w).2).
Proof.
  destruct p as [a|e|c' k h]; simpl; [done..|]. intros [= ->].
  by destruct (respond w c) as [w' [x|e]].
Qed.

Lemma advance_n_settled {A} n (p : promise A) w :
  settled p = true -> advance_n n p w = (p, w).
Proof.
  intros Hp. induction n as [|n IH]; simpl; [done|]. by rewrite advance_settled.
Qed.

Lemma advance_n_add {A} n m (p : promise A) w :
  advance_n (n + m) p w = advance_n m (advance_n n p w).1 (advance_n n p w).2.
Proof. revert p w. induction n as [|n IH]; intros p w; simpl; [done|apply IH]. Qed.

(** A chain settles after as many turns as its run has calls, with the
    result and in the world of the run. *)
Lemma advance_n_run {A} (p : promise A) w :
  advance_n (length (trace (run p w))) p w =
  (of_result (value (run p w)), final (run p w)).
Proof.
  revert w. induction p as [a|e|c k IHk h IHh]; intros w; simpl; [done..|].
  destruct (respond w c) as [w' [x|e]]; simpl; [apply IHk|apply IHh].
Qed.

(** More turns than that change nothing. *)
Lemma advance_n_run_le {A} n (p : promise A) w :
  length (trace (run p w)) <= n ->
  advance_n n p w = (of_result (value (run p w)), final (run p w)).
Proof.
  intros Hn. replace n with (length (trace (run p w)) + (n - length (trace (run p w))))
    by lia.
  rewrite advance_n_add, advance_n_run. simpl.
  apply advance_n_settled, settled_of_result.
Qed.

Lemma turn_world_settled {A} i (c : pool A) p :
  tasks c !! i = Some p -> settled p = true -> turn i c = c.
Proof.
  intros Hi Hp. unfold turn. rewrite Hi, advance_settled by done. simpl.
  destruct c as [ps w]. simpl in *. by rewrite list_insert_id.
Qed.

Lemma schedule_app {A} turns1 turns2 (c : pool A) :
  schedule (turns1 ++ turns2) c = schedule turns2 (schedule turns1 c).
Proof. apply foldl_app. Qed.

Lemma steps_app {A} (c1 c2 c3 : pool A) tr1 tr2 :
  steps c1 tr1 c2 -> steps c2 tr2 c3 -> steps c1 (tr1 ++ tr2) c3.
Proof. induction 1; simpl; [done|]. intros. econstructor; eauto. Qed.

(** The world after a step is the world the call leaves. *)
Lemma step_world {A} (c c' : pool A) e :
  step c e c' -> world c' = (respond (world c) e).1.
Proof.
  destruct 1 as [i c e Hi]. unfold turn.
  destruct (tasks c !! i) as [[a|e'|e' k h]|]; simpl in *; try done.
  injection Hi as ->. by destruct (respond (world c) e) as [w' [x|e']].
Qed.

(** The worlds a sequence of steps goes through are those of its calls,
    whichever chains made them. *)
Lemma steps_world {A} (c c' : pool A) tr :
  steps c tr c' -> world c' = foldl (fun w e => (respond w e).1) (world c) tr.
Proof.
  induction 1 as [|c1 e c2 tr c3 Hs _ IH]; simpl; [done|].
  by rewrite IH, (step_world _ _ _ Hs).
Qed.

(** A property of the world that no call breaks holds after every sequence
    of steps. *)
Lemma steps_preserved {A} (P : W -> Prop) (c c' : pool A) tr :
  (forall w e, P w -> P (respond w e).1) ->
  P (world c) -> steps c tr c' -> P (world c').
Proof.
  intros HP Hc. induction 1 as [|c1 e c2 tr c3 Hs _ IH]; [done|].
  apply IH. rewrite (step_world _ _ _ Hs). by apply HP.
Qed.

(** An invariant of the chains, each with its index [x] and the world: it
    holds after every sequence of steps when a chain keeps it at its own
    turn and no call of another chain breaks it. *)
Lemma step_chains {A X} (I : X -> W -> promise A -> Prop) xs (c c' : pool A) e :
  (forall x w p e', I x w p -> I x (respond w e').1 p) ->
  (forall x w p, I x w p -> I x (advance p w).2 (advance p w).1) ->
  Forall2 (fun x p => I x (world c) p) xs (tasks c) -> step c e c' ->
  Forall2 (fun x p => I x (world c') p) xs (tasks c').
Proof.
  intros Hothers Hown Hall Hstep. revert Hall. destruct Hstep as [i c e Hi]. intros Hall.
  pose proof (step_world _ _ _ (step_turn i c e Hi)) as Hw. revert Hw. unfold turn.
  destruct (tasks c !! i) as [p|] eqn:Hp; [|done]. simpl. intros Hw.
  destruct (Forall2_lookup_r _ _ _ _ _ Hall Hp) as (x & Hx & Hxp).
  rewrite <- (list_insert_id xs i x Hx). apply Forall2_insert; [|by apply Hown].
  eapply Forall2_impl; [exact Hall|]. intros x' p' Hp'. rewrite Hw. by apply Hothers.
Qed.

Lemma steps_chains {A X} (I : X -> W -> promise A -> Prop) xs (c c' : pool A) tr :
  (forall x w p e', I x w p -> I x (respond w e').1 p) ->
  (forall x w p, I x w p -> I x (advance p w).2 (advance p w).1) ->
  Forall2 (fun x p => I x (world c) p) xs (tasks c) -> steps c tr c' ->
  Forall2 (fun x p => I x (world c') p) xs (tasks c').
Proof.
  intros Hothers Hown Hall Hsteps.
  induction Hsteps as [|c1 e c2 tr c3 Hstep _ IH]; [done|].
  by eapply IH, step_chains.
Qed.

(** The run of one chain, as steps of a pool in which the others wait. *)
Lemma steps_run {A} i (ps : list (promise A)) p w :
  ps !! i = Some p ->
  steps (Pool ps w) (trace (run p w))
        (Pool (<[i := of_result (value (run p w))]> ps) (final (run p w))).
Proof.
  revert ps w. induction p as [a|e|c k IHk h IHh]; intros ps w Hi; simpl.
  - rewrite list_insert_id by done. constructor.
  - rewrite list_insert_id by done. constructor.
  - assert (step (Pool ps w) c (turn i (Pool ps w))) as Hstep.
    { constructor. simpl. by rewrite Hi. }
    unfold turn in Hstep. simpl in Hstep. rewrite Hi in Hstep. simpl in Hstep.
    assert (i < length ps) as Hlt by (by eapply lookup_lt_Some).
    destruct (respond w c) as [w' [x|e]]; simpl in *.
    + econstructor; [exact Hstep|].
      rewrite <- (list_insert_insert_eq ps i (of_result _) (k x)).
      apply IHk. by apply list_lookup_insert_eq.
    + econstructor; [exact Hstep|].
      rewrite <- (list_insert_insert_eq ps i (of_result _) (h e)).
      apply IHh. by apply list_lookup_insert_eq.
Qed.

(** A turn leaves the result and the world of the run as they are, and one
    call less to make. *)
Lemma run_after_advance {A} (p : promise A) w :
  value (run (advance p w).1 (advance p w).2) = value (run p w) /\
  final (run (advance p w).1 (advance p w).2) = final (run p w) /\
  length (trace (run (advance p w).1 (advance p w).2)) =
    pred (length (trace (run p w))).
Proof.
  destruct p as [a|e|c k h]; simpl; [done..|].
  by destruct (respond w c) as [w' [x|e]].
Qed.

(** The schedule that gives one chain all its turns is its run. *)
Lemma schedule_run {A} i (ps : list (promise A)) p w n :
  ps !! i = Some p -> length (trace (run p w)) <= n ->
  schedule (replicate n i) (Pool ps w) =
  Pool (<[i := of_result (value (run p w))]> ps) (final (run p w)).
Proof.
  revert ps p w. induction n as [|n IH]; intros ps p w Hi Hn.
  - destruct p as [a|e|c k h]; simpl in *.
    + by rewrite list_insert_id.
    + by rewrite list_insert_id.
    + destruct (respond w c) as [w' [x|e]]; simpl in Hn; lia.
  - assert (i < length ps) as Hlt by (by eapply lookup_lt_Some).
    destruct (run_after_advance p w) as (Hv & Hf & Hl).
    simpl. unfold turn at 1. simpl. rewrite Hi.
    rewrite (IH _ (advance p w).1); [|by apply list_lookup_insert_eq|lia].
    by rewrite list_insert_insert_eq, Hv, Hf.
Qed.

(** ** Chains that avoid a kind of call *)

Lemma avoids_perform P c : P c = false -> avoids P (perform c).
Proof. intros Hc. constructor; [done|constructor..]. Qed.

Lemma avoids_then {A B} P (p : promise A) (f : A -> promise B) :
  avoids P p -> (forall a, avoids P (f a)) -> avoids P (then_ p f).
Proof. intros Hp Hf. induction Hp; simpl; [done|constructor..]; auto. Qed.

Lemma avoids_catch {A} P (p : promise A) h :
  avoids P p -> (forall e, avoids P (h e)) -> avoids P (catch_ p h).
Proof. intros Hp Hh. induction Hp; simpl; [constructor|done|constructor]; auto. Qed.

Lemma avoids_advance {A} P (p : promise A) w : avoids P p -> avoids P (advance p w).1.
Proof.
  destruct 1 as [a|e|c k h Hc Hk Hh]; simpl; [constructor..|].
  destruct (respond w c) as [w' [x|e]]; simpl; auto.
Qed.

Lemma avoids_next_call {A} P (p : promise A) c :
  avoids P p -> next_call p = Some c -> P c = false.
Proof. destruct 1; simpl; congruence. Qed.

Lemma avoids_turn {A} P i (c : pool A) :
  Forall (avoids P) (tasks c) -> Forall (avoids P) (tasks (turn i c)).
Proof.
  intros Hc. unfold turn. destruct (tasks c !! i) as [p|] eqn:Hi; [|done]. simpl.
  apply Forall_insert; [done|]. apply avoids_advance.
  by eapply Forall_lookup_1.
Qed.

Lemma step_avoid {A} P (c c' : pool A) e :
  Forall (avoids P) (tasks c) -> step c e c' ->
  P e = false /\ Forall (avoids P) (tasks c').
Proof.
  intros Hc Hs. revert Hc. destruct Hs as [i c e Hi]. intros Hc.
  split; [|by apply avoids_turn].
  destruct (tasks c !! i) as [p|] eqn:Hp; [|done]. simpl in Hi.
  eapply avoids_next_call; [|done]. by eapply Forall_lookup_1.
Qed.

(** Chains that avoid a kind of call make no such call in any interleaving. *)
Lemma steps_avoid {A} P (c c' : pool A) tr :
  Forall (avoids P) (tasks c) -> steps c tr c' ->
  Forall (fun e => P e = false) tr /\ Forall (avoids P) (tasks c').
Proof.
  intros Hc Hs. induction Hs as [|c1 e c2 tr c3 Hstep _ IH]; [by split|].
  destruct (step_avoid P _ _ _ Hc Hstep) as [He Hc2].
  destruct (IH Hc2) as [Htr Hc3]. split; [by constructor|done].
Qed.

(** A property of the world that the calls outside [P] keep holds after
    every sequence of steps of chains that avoid [P]. *)
Lemma steps_avoid_preserved {A} P (Q : W -> Prop) (c c' : pool A) tr :
  (forall w e, P e = false -> Q w -> Q (respond w e).1) ->
  Forall (avoids P) (tasks c) -> Q (world c) -> steps c tr c' -> Q (world c').
Proof.
  intros HQ Hc Hw Hs. induction Hs as [|c1 e c2 tr c3 Hstep _ IH]; [done|].
  destruct (step_avoid P _ _ _ Hc Hstep) as [He Hc2]. apply IH; [done|].
  rewrite (step_world _ _ _ Hstep). by apply HQ.
Qed.

Lemma avoids_weaken {A} (P Q : call -> bool) (p : promise A) :
  (forall c, P c = false -> Q c = false) -> avoids P p -> avoids Q p.
Proof. intros HPQ. induction 1; constructor; auto. Qed.

(** A run makes the calls of its chain only. *)
Lemma run_avoid {A} P (p : promise A) w :
  avoids P p -> Forall (fun e => P e = false) (trace (run p w)).
Proof.
  intros Hp. revert w. induction Hp as [a|e|c k h Hc _ IHk _ IHh]; intros w; simpl;
    [constructor..|].
  constructor; [done|]. destruct (respond w c) as [w' [x|e]]; auto.
Qed.

End Scheduler.

(** The database [chain]: what a chain built from [perform], [then_] and
    [catch_] avoids. *)
Create HintDb chain.
#[export] Hint Constructors avoids : chain.
#[export] Hint Resolve avoids_perform avoids_then avoids_catch : chain.
