(* ===== verification/Progress.v ===== *)
(** * Progress of the requests in flight

    A chain is a finite tree, so it makes a bounded number of calls whatever
    answers it gets: [within n p] says that [p] makes [n] calls at most.
    From the bounds of its chains a pool gets a budget that every step
    spends, and so:

    - every interleaving is finite, and no longer than the budget
      ([steps_budget]); the pool is strongly normalising ([pool_sn], in the
      vocabulary of [stdpp.relations]);
    - a pool stops only when every chain has settled ([nf_quiescent]): there
      is no deadlock;
    - a chain that is given as many turns as its bound has settled,
      however its turns are interleaved with those of other chains
      ([schedule_fair]).

    A call can also stay without an answer for ever.  The interleavings in
    which the calls [hangs] are never answered are the sequences of steps
    that make none of them; a chain that waits for such a call is [parked].
    [stall hangs p w] is how far the chain [p] gets; when the chains keep
    the calls that change the world behind a call that hangs ([guarded]),
    the world stays as it is and every chain is on its way to where it
    stalls ([steps_stall]), which it reaches when the pool is [hung].

    The file is generic in the calls, as [Promise] and [Scheduler] are. *)

From S2P Require Import Prelude Promise Scheduler.
From stdpp Require Import relations.

Section Progress.
Context {E : Effects} {W : Type} `{!Responder W}.

(** [within n p]: the chain [p] makes [n] calls at most. *)
Inductive within {A} : nat -> promise A -> Prop :=
| within_resolved n a : within n (Resolved a)
| within_rejected n e : within n (Rejected e)
| within_await n c k h :
    (forall x, within n (k x)) -> (forall e, within n (h e)) ->
    within (S n) (Await c k h).

(** [budgeted bs c]: the chain at each position of the pool [c] is within
    the bound at that position of [bs]. *)
Definition budgeted {A} (bs : list nat) (c : pool (W := W) A) : Prop :=
  Forall2 within bs (tasks c).

(** One move of the pool: a step, whatever the call. *)
Definition moves {A} (c c' : pool (W := W) A) : Prop := exists e, step c e c'.

(** All chains have settled. *)
Definition quiescent {A} (c : pool (W := W) A) : Prop :=
  Forall (fun p => settled p = true) (tasks c).

(** The number of turns the schedule [turns] gives to the position [i]. *)
Definition turns_of (i : nat) (turns : list nat) : nat :=
  length (filter (fun j => j = i) turns).

(** A chain that has settled, or waits for a call that is never answered. *)
Definition parked {A} (hangs : call -> bool) (p : promise A) : bool :=
  match next_call p with
  | Some e => hangs e
  | None => true
  end.

(** No chain of the pool can make a call that is answered. *)
Definition hung {A} (hangs : call -> bool) (c : pool (W := W) A) : Prop :=
  Forall (fun p => parked hangs p = true) (tasks c).

(** How far a chain gets from the world [w] when the calls [hangs] are
    never answered: to its result, or to the first such call. *)
Fixpoint stall {A} (hangs : call -> bool) (p : promise A) (w : W) : promise A :=
  match p with
  | Await c k h =>
      if hangs c then p
      else match respond w c with
           | (w', Ok x) => stall hangs (k x) w'
           | (w', Err e) => stall hangs (h e) w'
           end
  | _ => p
  end.

(** [guarded hangs P p]: the chain [p] makes no call in [P] before a call
    in [hangs] has been answered. *)
Inductive guarded {A} (hangs P : call -> bool) : promise A -> Prop :=
| guarded_resolved a : guarded hangs P (Resolved a)
| guarded_rejected e : guarded hangs P (Rejected e)
| guarded_hangs c k h : hangs c = true -> guarded hangs P (Await c k h)
| guarded_await c k h :
    hangs c = false -> P c = false ->
    (forall x, guarded hangs P (k x)) -> (forall e, guarded hangs P (h e)) ->
    guarded hangs P (Await c k h).

(** * Theorems *)

(** ** Bounds of chains *)

Lemma within_le {A} n m (p : promise A) : n <= m -> within n p -> within m p.
Proof.
  intros Hnm Hp. revert m Hnm.
  induction Hp as [n a|n e|n c k h _ IHk _ IHh]; intros m Hnm; [constructor..|].
  destruct m as [|m]; [lia|]. constructor; intros; [apply IHk|apply IHh]; lia.
Qed.

Lemma within_settled {A} (p : promise A) : within 0 p <-> settled p = true.
Proof.
  split.
  - by inversion 1.
  - destruct p; [constructor..|done].
Qed.

Lemma within_perform c : within 1 (perform c).
Proof. constructor; constructor. Qed.

Lemma within_then {A B} n m (p : promise A) (f : A -> promise B) :
  within n p -> (forall a, within m (f a)) -> within (n + m) (then_ p f).
Proof.
  intros Hp Hf. induction Hp as [n a|n e|n c k h _ IHk _ IHh]; simpl.
  - apply (within_le m); [lia|done].
  - constructor.
  - constructor; auto.
Qed.

Lemma within_catch {A} n m (p : promise A) h :
  within n p -> (forall e, within m (h e)) -> within (n + m) (catch_ p h).
Proof.
  intros Hp Hh. induction Hp as [n a|n e|n c k g _ IHk _ IHg]; simpl.
  - constructor.
  - apply (within_le m); [lia|done].
  - constructor; auto.
Qed.

(** A turn spends one call of the bound. *)
Lemma within_advance {A} n (p : promise A) w :
  within (S n) p -> within n (advance p w).1.
Proof.
  inversion 1 as [| |n' c k h Hk Hh]; subst; simpl; [constructor..|].
  destruct (respond w c) as [w' [x|e]]; simpl; auto.
Qed.

Lemma within_advance_le {A} n (p : promise A) w :
  within n p -> within n (advance p w).1.
Proof.
  intros Hp. destruct n as [|n].
  - apply within_settled in Hp. by rewrite advance_settled, within_settled.
  - by apply (within_le n); [lia|apply within_advance].
Qed.

(** A run makes no more calls than the bound of its chain. *)
Lemma within_run {A} n (p : promise A) w :
  within n p -> length (trace (run p w)) <= n.
Proof.
  intros Hp. revert w. induction Hp as [n a|n e|n c k h _ IHk _ IHh]; intros w; simpl;
    [lia..|].
  destruct (respond w c) as [w' [x|e]]; [specialize (IHk x w')|specialize (IHh e w')]; lia.
Qed.

(** ** The budget of a pool *)

Lemma sum_list_insert (bs : list nat) i b b' :
  bs !! i = Some b -> sum_list (<[i := b']> bs) + b = sum_list bs + b'.
Proof.
  revert i. induction bs as [|x bs IH]; intros [|i]; simpl; try done.
  - intros [= ->]. lia.
  - intros Hi. specialize (IH i Hi). lia.
Qed.

Lemma budgeted_lookup {A} bs (c : pool (W := W) A) i p :
  budgeted bs c -> tasks c !! i = Some p -> exists b, bs !! i = Some b /\ within b p.
Proof. intros Hb Hi. by apply (Forall2_lookup_r _ _ _ _ _ Hb Hi). Qed.

(** Every step spends the budget. *)
Lemma step_budget {A} bs (c c' : pool (W := W) A) e :
  budgeted bs c -> step c e c' ->
  exists bs', budgeted bs' c' /\ sum_list bs' < sum_list bs.
Proof.
  intros Hb Hs. revert Hb. destruct Hs as [i c e Hi]. intros Hb.
  destruct (tasks c !! i) as [p|] eqn:Hp; [|done]. simpl in Hi.
  destruct (budgeted_lookup _ _ _ _ Hb Hp) as (b & Hbi & Hw).
  destruct b as [|b]; [apply within_settled, next_call_settled in Hw; congruence|].
  exists (<[i := b]> bs). split.
  - unfold budgeted, turn. rewrite Hp. simpl.
    apply Forall2_insert; [done|by apply within_advance].
  - pose proof (sum_list_insert bs i (S b) b Hbi). lia.
Qed.

(** Every interleaving is finite: it makes no more calls than the budget. *)
Lemma steps_budget {A} bs (c c' : pool (W := W) A) tr :
  budgeted bs c -> steps c tr c' ->
  exists bs', budgeted bs' c' /\ length tr + sum_list bs' <= sum_list bs.
Proof.
  intros Hb Hs. revert bs Hb. induction Hs as [|c1 e c2 tr c3 Hs _ IH]; intros bs Hb.
  - exists bs. split; [done|simpl; lia].
  - destruct (step_budget _ _ _ _ Hb Hs) as (bs2 & Hb2 & Hlt).
    destruct (IH bs2 Hb2) as (bs3 & Hb3 & Hle). exists bs3. split; [done|simpl; lia].
Qed.

(** The pool is strongly normalising: no infinite interleaving exists. *)
Lemma pool_sn {A} bs (c : pool (W := W) A) : budgeted bs c -> sn moves c.
Proof.
  remember (sum_list bs) as n eqn:Hn. revert bs c Hn.
  induction (lt_wf n) as [n _ IH]. intros bs c -> Hb.
  constructor. intros c' [e Hs]. simpl in Hs.
  destruct (step_budget _ _ _ _ Hb Hs) as (bs' & Hb' & Hlt).
  by apply (IH (sum_list bs') Hlt bs').
Qed.

(** ** No deadlock *)

Lemma red_unsettled {A} (c : pool (W := W) A) :
  red moves c <-> exists i p, tasks c !! i = Some p /\ settled p = false.
Proof.
  split.
  - intros (c' & e & Hs). destruct Hs as [i c e Hi].
    destruct (tasks c !! i) as [p|] eqn:Hp; [|done]. exists i, p. split; [done|].
    by destruct p.
  - intros (i & p & Hp & Hs). destruct p as [a|e|e k h]; [done..|].
    exists (turn i c), e. constructor. by rewrite Hp.
Qed.

(** A pool cannot move exactly when all its chains have settled. *)
Lemma nf_quiescent {A} (c : pool (W := W) A) : nf moves c <-> quiescent c.
Proof.
  unfold nf, quiescent. rewrite red_unsettled, Forall_lookup. split.
  - intros Hnf i p Hp. destruct (settled p) eqn:Hs; [done|].
    destruct Hnf. eauto.
  - intros Hq (i & p & Hp & Hs). specialize (Hq i p Hp). congruence.
Qed.

#[export] Instance quiescent_dec {A} (c : pool (W := W) A) : Decision (quiescent c).
Proof. unfold quiescent. apply _. Defined.

(** From every pool some interleaving leads to a pool where all chains have
    settled. *)
Lemma steps_to_quiescent {A} bs (c : pool (W := W) A) :
  budgeted bs c -> exists tr c', steps c tr c' /\ quiescent c'.
Proof.
  intros Hb. pose proof (pool_sn bs c Hb) as Hsn. revert bs Hb.
  induction Hsn as [c _ IH]. intros bs Hb.
  destruct (decide (quiescent c)) as [Hq|Hq].
  - exists [], c. split; [constructor|done].
  - assert (red moves c) as (c' & e & Hs).
    { apply red_unsettled. apply not_Forall_Exists in Hq; [|apply _].
      apply Exists_exists in Hq as (p & [i Hi]%list_elem_of_lookup & Hs).
      exists i, p. split; [done|]. by apply not_true_is_false. }
    destruct (step_budget _ _ _ _ Hb Hs) as (bs' & Hb' & _).
    destruct (IH c' (ex_intro _ e Hs) bs' Hb') as (tr & c'' & Htr & Hq'').
    exists (e :: tr), c''. split; [by econstructor|done].
Qed.

(** ** Fair schedules *)

Lemma turns_of_cons i j turns :
  turns_of i (j :: turns) = (if decide (j = i) then 1 else 0) + turns_of i turns.
Proof.
  unfold turns_of. destruct (decide (j = i)) as [Hji|Hji].
  - by rewrite filter_cons_True.
  - by rewrite filter_cons_False.
Qed.

Lemma turn_lookup_ne {A} i j (c : pool (W := W) A) :
  i <> j -> tasks (turn j c) !! i = tasks c !! i.
Proof.
  intros Hij. unfold turn. destruct (tasks c !! j); [|done]. simpl.
  by apply list_lookup_insert_ne.
Qed.

Lemma turn_lookup_eq {A} i (c : pool (W := W) A) p :
  tasks c !! i = Some p -> tasks (turn i c) !! i = Some (advance p (world c)).1.
Proof.
  intros Hi. unfold turn. rewrite Hi. simpl.
  apply list_lookup_insert_eq. by eapply lookup_lt_Some.
Qed.

(** A settled chain stays as it is, whoever takes a turn. *)
Lemma schedule_settled {A} turns i (c : pool (W := W) A) p :
  tasks c !! i = Some p -> settled p = true -> tasks (schedule turns c) !! i = Some p.
Proof.
  revert c. induction turns as [|j turns IH]; intros c Hi Hp; simpl; [done|].
  apply IH; [|done]. destruct (decide (j = i)) as [->|Hji].
  - by rewrite (turn_lookup_eq _ _ _ Hi), advance_settled.
  - by rewrite turn_lookup_ne.
Qed.

(** A chain keeps its bound while other chains take their turns, and spends
    one call of it at each turn of its own. *)
Lemma schedule_within {A} turns i (c : pool (W := W) A) p n :
  tasks c !! i = Some p -> within n p ->
  exists q, tasks (schedule turns c) !! i = Some q /\ within (n - turns_of i turns) q.
Proof.
  revert c p n. induction turns as [|j turns IH]; intros c p n Hi Hp; simpl.
  - exists p. split; [done|]. by rewrite Nat.sub_0_r.
  - rewrite turns_of_cons. destruct (decide (j = i)) as [->|Hji].
    + destruct (IH (turn i c) (advance p (world c)).1 (n - 1)) as (q & Hq & Hw).
      * by apply turn_lookup_eq.
      * destruct n as [|n]; [by apply within_advance_le|].
        rewrite Nat.sub_succ, Nat.sub_0_r. by apply within_advance.
      * exists q. split; [done|]. by rewrite Nat.sub_add_distr.
    + destruct (IH (turn j c) p n) as (q & Hq & Hw); [|done|by exists q].
      by rewrite turn_lookup_ne.
Qed.

(** Fairness is enough: a chain that is given as many turns as its bound
    has settled, however its turns are interleaved with those of the
    others. *)
Lemma schedule_fair {A} turns i (c : pool (W := W) A) p n :
  tasks c !! i = Some p -> within n p -> n <= turns_of i turns ->
  exists r, tasks (schedule turns c) !! i = Some (of_result r).
Proof.
  intros Hi Hp Hn.
  destruct (schedule_within turns i c p n Hi Hp) as (q & Hq & Hw).
  replace (n - turns_of i turns) with 0 in Hw by lia.
  apply within_settled in Hw. destruct q as [a|e|]; [| |done].
  - by exists (Ok a).
  - by exists (Err e).
Qed.

(** ** Calls that are never answered *)

Section Hangs.
Context (hangs P : call -> bool).

Lemma avoids_guarded {A} (p : promise A) : avoids P p -> guarded hangs P p.
Proof.
  induction 1 as [a|e|c k h Hc _ IHk _ IHh]; [constructor..|].
  destruct (hangs c) eqn:Hh; [by apply guarded_hangs|by apply guarded_await].
Qed.

Lemma guarded_then {A B} (p : promise A) (f : A -> promise B) :
  guarded hangs P p -> (forall a, guarded hangs P (f a)) -> guarded hangs P (then_ p f).
Proof.
  intros Hp Hf. induction Hp; simpl; [done|constructor|by apply guarded_hangs|].
  apply guarded_await; auto.
Qed.

Lemma guarded_catch {A} (p : promise A) g :
  guarded hangs P p -> (forall e, guarded hangs P (g e)) -> guarded hangs P (catch_ p g).
Proof.
  intros Hp Hg. induction Hp; simpl; [constructor|done|by apply guarded_hangs|].
  apply guarded_await; auto.
Qed.

Lemma guarded_advance {A} (p : promise A) w c :
  guarded hangs P p -> next_call p = Some c -> hangs c = false ->
  P c = false /\ guarded hangs P (advance p w).1.
Proof.
  destruct 1 as [a|e|c' k h Hc|c' k h Hc HP Hk Hh]; simpl; try done.
  - intros [= ->]. congruence.
  - intros [= ->] _. split; [done|]. destruct (respond w c) as [w' [x|e]]; simpl; auto.
Qed.

(** A step that is answered is not in [P], and leaves the chains guarded. *)
Lemma step_guarded {A} (c c' : pool (W := W) A) e :
  Forall (guarded hangs P) (tasks c) -> step c e c' -> hangs e = false ->
  P e = false /\ Forall (guarded hangs P) (tasks c').
Proof.
  intros Hc Hs He. revert Hc. destruct Hs as [i c e Hi]. intros Hc.
  destruct (tasks c !! i) as [p|] eqn:Hp; [|done]. simpl in Hi.
  destruct (guarded_advance p (world c) e (Forall_lookup_1 _ _ _ _ Hc Hp) Hi He) as [HP Hg].
  split; [done|]. unfold turn. rewrite Hp. simpl. by apply Forall_insert.
Qed.

(** A chain that is parked is where it stalls; a turn that is answered
    does not change where the chain stalls, when it leaves the world. *)
Lemma stall_parked {A} (p : promise A) w : parked hangs p = true -> stall hangs p w = p.
Proof. destruct p as [a|e|c k h]; unfold parked; simpl; [done..|]. by intros ->. Qed.

Lemma parked_stall {A} (p : promise A) w : parked hangs (stall hangs p w) = true.
Proof.
  revert w. induction p as [a|e|c k IHk h IHh]; intros w; simpl; [done..|].
  destruct (hangs c) eqn:Hc; [done|]. by destruct (respond w c) as [w' [x|e]].
Qed.

Lemma stall_advance {A} (p : promise A) w c :
  next_call p = Some c -> hangs c = false ->
  stall hangs (advance p w).1 (advance p w).2 = stall hangs p w.
Proof.
  destruct p as [a|e|c' k h]; simpl; [done..|]. intros [= ->] ->.
  by destruct (respond w c) as [w' [x|e]].
Qed.

(** Where a chain stalls, against its run: it gets to its result exactly
    when its run makes no call that hangs. *)
Lemma stall_run {A} (p : promise A) w :
  filter hangs (trace (run p w)) = [] -> stall hangs p w = of_result (value (run p w)).
Proof.
  revert w. induction p as [a|e|c k IHk h IHh]; intros w; simpl; [done..|].
  rewrite filter_cons. destruct (hangs c) eqn:Hc; simpl; [done|].
  destruct (respond w c) as [w' [x|e]]; [apply IHk|apply IHh].
Qed.

Lemma stall_result {A} (p : promise A) w r :
  result_of (stall hangs p w) = Some r ->
  filter hangs (trace (run p w)) = [] /\ r = value (run p w).
Proof.
  revert w. induction p as [a|e|c k IHk h IHh]; intros w; simpl.
  1,2: intros [= <-]; by split.
  rewrite filter_cons. destruct (hangs c) eqn:Hc; simpl; [done|].
  destruct (respond w c) as [w' [x|e]]; [apply IHk|apply IHh].
Qed.

Lemma result_of_stall {A} (p : promise A) w r :
  result_of p = Some r -> result_of (stall hangs p w) = Some r.
Proof. by destruct p. Qed.

Lemma step_stalls {A} (c c' : pool (W := W) A) e :
  step c e c' -> hangs e = false -> world c' = world c ->
  Forall2 (fun p q => stall hangs q (world c) = stall hangs p (world c))
          (tasks c) (tasks c').
Proof.
  intros Hs He. revert He. destruct Hs as [i c e Hi]. intros He. unfold turn.
  destruct (tasks c !! i) as [p|] eqn:Hp; [|done]. simpl in *. intros Hw.
  rewrite <- (list_insert_id (tasks c) i p Hp) at 1.
  apply Forall2_insert; [by apply Forall_Forall2_diag, Forall_true|].
  rewrite <- (stall_advance p (world c) e Hi He). by rewrite Hw.
Qed.

(** While the calls [hangs] are never answered, guarded chains make no
    call in [P]; when the other calls leave the world, the world stays as it
    is and every chain stalls where it did at first. *)
Lemma steps_stall {A} (c c' : pool (W := W) A) tr :
  (forall w e, P e = false -> (respond w e).1 = w) ->
  Forall (guarded hangs P) (tasks c) ->
  steps c tr c' -> Forall (fun e => hangs e = false) tr ->
  Forall (fun e => P e = false) tr /\ world c' = world c /\
  Forall2 (fun p q => stall hangs q (world c) = stall hangs p (world c))
          (tasks c) (tasks c').
Proof.
  intros HP Hg Hs. induction Hs as [c|c1 e c2 tr c3 Hstep _ IH].
  { intros _. split_and!; [done..|]. by apply Forall_Forall2_diag, Forall_true. }
  intros [He Htr]%Forall_cons.
  destruct (step_guarded _ _ _ Hg Hstep He) as [HPe Hg2].
  pose proof (step_world _ _ _ Hstep) as Hw. rewrite (HP _ _ HPe) in Hw.
  destruct (IH Hg2 Htr) as (HPtr & Hw3 & Hall). rewrite Hw in Hw3, Hall.
  split_and!; [by constructor|done|].
  eapply Forall2_trans; [|by eapply step_stalls|exact Hall].
  simpl. congruence.
Qed.

(** From every pool some interleaving that makes no call that hangs leads
    to a pool that is hung. *)
Lemma steps_to_hung {A} bs (c : pool (W := W) A) :
  budgeted bs c ->
  exists tr c', steps c tr c' /\ Forall (fun e => hangs e = false) tr /\ hung hangs c'.
Proof.
  remember (sum_list bs) as n eqn:Hn. revert bs c Hn.
  induction (lt_wf n) as [n _ IH]. intros bs c -> Hb.
  destruct (decide (hung hangs c)) as [Hh|Hh].
  { exists [], c. split_and!; [constructor|done..]. }
  apply not_Forall_Exists in Hh; [|apply _].
  apply Exists_exists in Hh as (p & [i Hi]%list_elem_of_lookup & Hp).
  unfold parked in Hp. destruct p as [a|e|e k h]; simpl in Hp; [done..|].
  apply not_true_is_false in Hp.
  assert (step c e (turn i c)) as Hs by (constructor; by rewrite Hi).
  destruct (step_budget _ _ _ _ Hb Hs) as (bs' & Hb' & Hlt).
  destruct (IH _ Hlt bs' (turn i c) eq_refl Hb') as (tr & c' & Htr & Hsp & Hc').
  exists (e :: tr), c'. split_and!; [by econstructor|by constructor|done].
Qed.

(** In a pool that is hung every chain is where it stalls. *)
Lemma hung_stall {A} (ps : list (promise A)) (c : pool (W := W) A) w :
  Forall2 (fun p q => stall hangs q w = stall hangs p w) ps (tasks c) ->
  hung hangs c -> tasks c = (fun p => stall hangs p w) <$> ps.
Proof.
  intros Hall Hh. apply list_eq. intros i. rewrite list_lookup_fmap.
  destruct (tasks c !! i) as [q|] eqn:Hq.
  - destruct (Forall2_lookup_r _ _ _ _ _ Hall Hq) as (p & -> & Hst). simpl.
    by rewrite <- Hst, stall_parked by (by eapply (Forall_lookup_1 _ _ _ _ Hh)).
  - apply lookup_ge_None in Hq. rewrite <- (Forall2_length _ _ _ Hall) in Hq.
    by apply lookup_ge_None in Hq as ->.
Qed.

End Hangs.

End Progress.
