(* ===== verification/Types.v ===== *)
(** * Data of the schema

    The values that cross the boundaries between the resolvers of
    [src/schema/schema.js] and their collaborators: the GraphQL object
    [UserType], the error names of [../utils/constant], the filters and
    values handed to the model layer, the request handed to [axios] and what
    it answers, the errors a resolver can see, and the calls themselves
    ([schema_call], the [Effects] of the program). *)

From S2P Require Import Prelude JsString Promise.
From stdpp Require Import strings.

(** ** Error names ([errorName] of [../utils/constant]) *)

Inductive errorName : Type :=
| ACCOUNT_NUMBER_LENGTH_ERROR
| USER_DOESNT_EXIST
| USER_ALREADY_EXISTS
| INVALID_BANK_DETAILS
| SERVER_ERROR.

#[export] Instance errorName_eq_dec : EqDecision errorName.
Proof. solve_decision. Defined.

(** ** The GraphQL object [User] and the rows of the table

    A row of the model ([user.dataValues]) carries the five fields of the
    GraphQL type, so one record serves for both.  [id_] is the field [id];
    the account number and the bank code of a stored row are strings, its
    name may be absent. *)

Record UserType : Type := mkUser {
  id_ : nat;
  user_account_number : string;
  user_bank_code : string;
  user_account_name : option string;
  is_verified : bool;
}.

#[export] Instance UserType_eq_dec : EqDecision UserType.
Proof. solve_decision. Defined.

(** ** The model layer *)

(** The [where] object of [User.findOne]: the query filters on the account
    number and the bank code (which may be [null]), the mutation on the
    account number alone. *)
Inductive where_clause : Type :=
| WhereNumberAndBank (number : string) (bank : option string)
| WhereNumber (number : string).

#[export] Instance where_clause_eq_dec : EqDecision where_clause.
Proof. solve_decision. Defined.

(** Whether a row passes the filter.  No stored row has a [null] bank code,
    so a [null] filter value matches none. *)
Definition where_matches (w : where_clause) (u : UserType) : bool :=
  match w with
  | WhereNumberAndBank n (Some b) =>
      bool_decide (user_account_number u = n) && bool_decide (user_bank_code u = b)
  | WhereNumberAndBank n None => false
  | WhereNumber n => bool_decide (user_account_number u = n)
  end.

(** The object handed to [User.create]. *)
Record create_values : Type := mkValues {
  new_account_number : string;
  new_bank_code : option string;
  new_account_name : string;
  new_is_verified : bool;
}.

#[export] Instance create_values_eq_dec : EqDecision create_values.
Proof. solve_decision. Defined.

(** Why the model layer rejects. *)
Inductive db_error : Type :=
| UniqueConstraintError
| NotNullViolation
| ConnectionError.

#[export] Instance db_error_eq_dec : EqDecision db_error.
Proof. solve_decision. Defined.

(** ** The HTTP client *)

(** [params] of the request. *)
Record resolve_params : Type := mkParams {
  account_number : option string;
  bank_code : option string;
}.

(** The [options] object handed to [axios]. *)
Record axios_options : Type := mkOptions {
  method : string;
  url : string;
  params : resolve_params;
  Authorization : string;
}.

#[export] Instance resolve_params_eq_dec : EqDecision resolve_params.
Proof. solve_decision. Defined.

#[export] Instance axios_options_eq_dec : EqDecision axios_options.
Proof. solve_decision. Defined.

(** A fulfilled request: [response.data.data.account_name], [None] when the
    payload has no such string. *)
Record axios_response : Type := mkResponse {
  account_name : option string;
}.

(** [error.response.data] of a rejected request: the body is absent ([null]
    or [undefined]), or it is a string or an object, as [axios] delivers it,
    with [status] when the body has that boolean. *)
Inductive response_data : Type :=
| NoData
| Data (data_status : option bool).

(** [error.response] of a rejected request: [status] and [data]. *)
Record error_response : Type := mkErrorResponse {
  status : nat;
  data : response_data;
}.

#[export] Instance response_data_eq_dec : EqDecision response_data.
Proof. solve_decision. Defined.

#[export] Instance axios_response_eq_dec : EqDecision axios_response.
Proof. solve_decision. Defined.

#[export] Instance error_response_eq_dec : EqDecision error_response.
Proof. solve_decision. Defined.

(** ** Thrown values *)

Inductive js_error : Type :=
| Error (name : errorName)                         (* new Error(errorName.X) *)
| TypeError                                        (* a method of null or undefined *)
| AxiosError (response : option error_response)    (* a rejected request *)
| SequelizeError (e : db_error).                   (* a rejected model call *)

#[export] Instance js_error_eq_dec : EqDecision js_error.
Proof. solve_decision. Defined.

(** ** The calls of the resolvers *)

Inductive schema_call : Type :=
| FindAll                                (* User.findAll() *)
| FindOne (w : where_clause)             (* User.findOne({ where }) *)
| Create (v : create_values)             (* User.create(values) *)
| Axios (o : axios_options)              (* axios(options) *)
| ConsoleError (e : js_error)            (* console.error(error) *)
| ConsoleLog.                            (* console.log() *)

#[export] Instance schema_call_eq_dec : EqDecision schema_call.
Proof. solve_decision. Defined.

Definition schema_answer (c : schema_call) : Type :=
  match c with
  | FindAll => list UserType
  | FindOne _ => option UserType
  | Create _ => UserType
  | Axios _ => axios_response
  | ConsoleError _ => unit
  | ConsoleLog => unit
  end.

#[export] Instance schema_effects : Effects := {|
  call := schema_call;
  answer := schema_answer;
  error := js_error;
|}.

(** ** Classification of calls *)

Definition is_axios (c : schema_call) : bool :=
  match c with Axios _ => true | _ => false end.

Definition is_create (c : schema_call) : bool :=
  match c with Create _ => true | _ => false end.

Definition is_find (c : schema_call) : bool :=
  match c with FindAll | FindOne _ => true | _ => false end.

Definition is_console (c : schema_call) : bool :=
  match c with ConsoleError _ | ConsoleLog => true | _ => false end.

(** The calls to the model layer: the others neither read nor change the
    table. *)
Definition is_store (c : schema_call) : bool := is_find c || is_create c.

(** The calls that can change the table. *)
Definition writes (tr : list schema_call) : list schema_call := filter is_create tr.

(** The requests sent to the bank-resolution service. *)
Definition requests (tr : list schema_call) : list schema_call := filter is_axios tr.

Lemma writes_cons c tr :
  writes (c :: tr) = if is_create c then c :: writes tr else writes tr.
Proof.
  unfold writes. destruct (is_create c) eqn:Hc.
  - by apply filter_cons_True, Is_true_true_2.
  - by apply filter_cons_False, Is_true_false_2.
Qed.

Lemma requests_cons c tr :
  requests (c :: tr) = if is_axios c then c :: requests tr else requests tr.
Proof.
  unfold requests. destruct (is_axios c) eqn:Hc.
  - by apply filter_cons_True, Is_true_true_2.
  - by apply filter_cons_False, Is_true_false_2.
Qed.

Lemma writes_nil tr : Forall (fun c => is_create c = false) tr -> writes tr = [].
Proof.
  induction 1 as [|c tr Hc _ IH]; [done|]. by rewrite writes_cons, Hc.
Qed.

Lemma requests_nil tr : requests tr = [] <-> Forall (fun c => is_axios c = false) tr.
Proof.
  induction tr as [|c tr IH]; [done|]. rewrite requests_cons, Forall_cons, <- IH.
  destruct (is_axios c); intuition congruence.
Qed.

Lemma writes_app tr1 tr2 : writes (tr1 ++ tr2) = writes tr1 ++ writes tr2.
Proof. apply filter_app. Qed.

Lemma requests_app tr1 tr2 : requests (tr1 ++ tr2) = requests tr1 ++ requests tr2.
Proof. apply filter_app. Qed.

Lemma where_matches_number w u :
  where_matches w u = true ->
  user_account_number u =
    match w with WhereNumberAndBank n _ | WhereNumber n => n end.
Proof.
  destruct w as [n [b|]|n]; simpl; try done.
  - by intros [?%bool_decide_eq_true _]%andb_prop.
  - by intros ?%bool_decide_eq_true.
Qed.

Lemma where_number_matches n u :
  where_matches (WhereNumber n) u = true <-> user_account_number u = n.
Proof. simpl. apply bool_decide_eq_true. Qed.

Lemma where_matches_self u :
  where_matches (WhereNumberAndBank (user_account_number u) (Some (user_bank_code u))) u
  = true.
Proof. simpl. by rewrite !bool_decide_eq_true_2. Qed.
