(* ===== verification/Matcher.v ===== *)
(** * The name matcher

    The comparison of the claimed name with the resolved name in the
    [addUser] resolver ([src/schema/schema.js], lines 179-185): both names
    are lower-cased, [ld] is their Levenshtein distance, and the account is
    verified automatically when [ld <= 2] ([isMatch]).

    The theorems say what the distance is (the least cost of an edit script
    on the lower-cased names), that it is a metric on names up to the case of
    their letters, how the lengths bound it, and what the fixed threshold
    means for short names. *)

From S2P Require Import Prelude JsString Levenshtein.
From stdpp Require Import strings.

(** [ld]: lines 180-183. *)
Definition ld (user_account_name resolvedAccountName : string) : nat :=
  let userAccountName := toLowerCase user_account_name in
  let resolvedAccountNameLower := toLowerCase resolvedAccountName in
  levenshtein (code_units userAccountName) (code_units resolvedAccountNameLower).

(** The test of line 185, [ld <= 2]. *)
Definition isMatch (user_account_name resolvedAccountName : string) : bool :=
  ld user_account_name resolvedAccountName <=? 2.

(** [name_edits a b n]: some sequence of [n] single-character insertions,
    deletions and substitutions turns the lower-cased [a] into the
    lower-cased [b]. *)
Definition name_edits (a b : string) (n : nat) : Prop :=
  edits (code_units (toLowerCase a)) (code_units (toLowerCase b)) n.

(** * Theorems *)

Lemma ld_lev a b :
  ld a b = lev (code_units (toLowerCase a)) (code_units (toLowerCase b)).
Proof. unfold ld. apply levenshtein_lev. Qed.

Lemma ld_lengths a : length (code_units (toLowerCase a)) = js_length a.
Proof. by rewrite code_units_length, toLowerCase_length. Qed.

Lemma ld_0 a b : ld a b = 0 <-> same_letters a b.
Proof.
  rewrite ld_lev, lev_zero_iff. unfold same_letters. split.
  - apply code_units_inj.
  - by intros ->.
Qed.

Lemma ld_comm a b : ld a b = ld b a.
Proof. rewrite !ld_lev. apply lev_sym. Qed.

Lemma ld_lower a b : js_length a - js_length b <= ld a b.
Proof.
  rewrite ld_lev, <- (ld_lengths a), <- (ld_lengths b).
  pose proof (lev_lower (code_units (toLowerCase a)) (code_units (toLowerCase b))). lia.
Qed.

Lemma ld_upper a b : ld a b <= Nat.max (js_length a) (js_length b).
Proof. rewrite ld_lev, <- (ld_lengths a), <- (ld_lengths b). apply lev_upper. Qed.

Lemma isMatch_spec a b : isMatch a b = true <-> ld a b <= 2.
Proof. unfold isMatch. apply Nat.leb_le. Qed.

(** [ld] and [isMatch] do not see the case of letters. *)
#[export] Instance ld_proper : Proper (same_letters ==> same_letters ==> eq) ld.
Proof. intros a a' Ha b b' Hb. rewrite !ld_lev. unfold same_letters in *. congruence. Qed.

#[export] Instance isMatch_proper : Proper (same_letters ==> same_letters ==> eq) isMatch.
Proof. intros a a' Ha b b' Hb. unfold isMatch. by rewrite Ha, Hb. Qed.

(** C8. [ld] is the least number of single-character edits between the
    lower-cased names: some edit script has that cost and none has less. *)
Theorem ld_least_edit_cost a b n :
  ld a b = n <-> name_edits a b n /\ forall m, name_edits a b m -> n <= m.
Proof. rewrite ld_lev. unfold name_edits. apply lev_least. Qed.

(** C37. [ld] is a metric on names up to the case of their letters: it is
    zero exactly for names that differ in case only, it is symmetric, and it
    obeys the triangle inequality. *)
Theorem ld_metric a b c :
  (ld a b = 0 <-> same_letters a b) /\
  ld a b = ld b a /\
  ld a c <= ld a b + ld b c.
Proof.
  split_and!.
  - apply ld_0.
  - apply ld_comm.
  - rewrite !ld_lev. apply lev_triangle.
Qed.

(** The distance lies between the difference of the lengths and the
    greater length. *)
Lemma ld_bounds a b :
  js_length a - js_length b <= ld a b /\
  js_length b - js_length a <= ld a b /\
  ld a b <= Nat.max (js_length a) (js_length b).
Proof.
  split_and!.
  - apply ld_lower.
  - rewrite ld_comm. apply ld_lower.
  - apply ld_upper.
Qed.

(** C40. Names that differ in case only match, and matching is symmetric. *)
Theorem isMatch_case_insensitive_symmetric a b :
  (same_letters a b -> isMatch a b = true) /\ isMatch a b = isMatch b a.
Proof.
  split.
  - intros Hab%ld_0. apply isMatch_spec. lia.
  - unfold isMatch. by rewrite ld_comm.
Qed.

(** C39. Names whose lengths differ by three or more never match. *)
Theorem isMatch_length_gap a b :
  js_length a + 3 <= js_length b \/ js_length b + 3 <= js_length a ->
  isMatch a b = false.
Proof.
  intros Hgap. apply not_true_is_false. rewrite isMatch_spec.
  pose proof (ld_lower a b). pose proof (ld_lower b a). rewrite (ld_comm b a) in *. lia.
Qed.

(** C38. The threshold is absolute: any two names of at most two characters
    match, whatever their letters. *)
Theorem isMatch_short_names a b :
  js_length a <= 2 -> js_length b <= 2 -> isMatch a b = true.
Proof.
  intros Ha Hb. apply isMatch_spec. pose proof (ld_upper a b). lia.
Qed.

(** Matching is not transitive: each of two steps is within the
    threshold and their composition is not. *)
Example isMatch_not_transitive :
  isMatch "abcd" "ab" = true /\ isMatch "ab" "" = true /\ isMatch "abcd" "" = false.
Proof. repeat split; vm_compute; reflexivity. Qed.

(** The examples of the specification. *)
Example isMatch_john_doe : isMatch "John Doe" "JOHN DOE" = true.
Proof. reflexivity. Qed.

Example isMatch_jon_doe : ld "Jon Doe" "John Doe" = 1 /\ isMatch "Jon Doe" "John Doe" = true.
Proof. split; reflexivity. Qed.

Example isMatch_alice_bob : isMatch "Alice Smith" "Bob Jones" = false.
Proof. reflexivity. Qed.

(** Witnesses. *)
Lemma ld_least_edit_cost_witness :
  name_edits "Jon Doe" "John Doe" 1 /\ forall m, name_edits "Jon Doe" "John Doe" m -> 1 <= m.
Proof. apply ld_least_edit_cost. vm_compute. reflexivity. Defined.

Lemma isMatch_length_gap_witness : isMatch "Al" "Alice" = false.
Proof. apply isMatch_length_gap. left. vm_compute. lia. Defined.

Lemma isMatch_short_names_witness : isMatch "Jo" "Al" = true.
Proof. apply isMatch_short_names; vm_compute; lia. Defined.
