(* ===== verification/Store.v ===== *)
(** * The model layer ([User] of [../models/userModel])

    The resolvers reach the table of accounts through [User.findAll],
    [User.findOne] and [User.create] only.  The model is not among the
    sources; it is modelled from the specification (section 4.2) in two
    layers:

    - [Store] is the interface the resolvers are verified against: the three
      operations, the rows a state holds, and [StoreLaws], what the
      operations promise (a lookup answers from the rows; a creation appends
      exactly one row with the values given and a fresh identifier, or
      rejects and leaves the rows alone);
    - [table] is an implementation: the rows in insertion order and the next
      identifier, with the constraints of the specification's data model
      (the bank code is required, the account number is unique).

    Any of the operations of a [Store] may reject; [table] rejects a
    creation only, and [down_store], the model layer without its database,
    rejects everything. *)

From S2P Require Import Prelude JsString Types.
From stdpp Require Import strings.

(** ** The interface *)

Class Store (T : Type) : Type := {
  rows : T -> list UserType;
  valid : T -> Prop;
  findAll : T -> result db_error (list UserType);
  findOne : T -> where_clause -> result db_error (option UserType);
  create : T -> create_values -> T * result db_error UserType;
}.

(** [stores v u]: the row [u] holds the values [v]. *)
Definition stores (v : create_values) (u : UserType) : Prop :=
  user_account_number u = new_account_number v /\
  new_bank_code v = Some (user_bank_code u) /\
  user_account_name u = Some (new_account_name v) /\
  is_verified u = new_is_verified v.

Class StoreLaws (T : Type) `{!Store T} : Prop := {
  findAll_rows s l :
    valid s -> findAll s = Ok l -> l = rows s;
  findOne_found s w u :
    valid s -> findOne s w = Ok (Some u) ->
    u ∈ rows s /\ where_matches w u = true;
  findOne_missing s w u :
    valid s -> findOne s w = Ok None -> u ∈ rows s -> where_matches w u = false;
  create_valid s v :
    valid s -> valid (create s v).1;
  create_ok s v u :
    valid s -> (create s v).2 = Ok u ->
    rows (create s v).1 = rows s ++ [u] /\ stores v u /\ id_ u ∉ (id_ <$> rows s);
  create_err s v e :
    valid s -> (create s v).2 = Err e -> rows (create s v).1 = rows s;
}.

(** The storage-level constraint: the store itself never accepts a creation
    under an account number it holds, whoever asks. *)
Class Constrained (T : Type) `{!Store T} : Prop :=
  create_unique s v u :
    valid s -> (create s v).2 = Ok u ->
    user_account_number u ∉ (user_account_number <$> rows s).

(** The rows hold each account number once. *)
Definition unique_numbers {T} `{!Store T} (s : T) : Prop :=
  unique_on user_account_number (rows s).

(** The rows hold each identifier once. *)
Definition unique_ids {T} `{!Store T} (s : T) : Prop :=
  unique_on id_ (rows s).

(** ** An implementation: the table *)

Record table : Type := mkTable {
  table_rows : list UserType;
  next_id : nat;
}.

Definition empty_table : table := mkTable [] 1.

(** The row a creation makes. *)
Definition new_row (i : nat) (v : create_values) (b : string) : UserType :=
  mkUser i (new_account_number v) b (Some (new_account_name v)) (new_is_verified v).

Definition has_number (n : string) (l : list UserType) : bool :=
  existsb (fun u => bool_decide (user_account_number u = n)) l.

Definition table_findAll (t : table) : result db_error (list UserType) :=
  Ok (table_rows t).

Definition table_findOne (t : table) (w : where_clause) : result db_error (option UserType) :=
  Ok (find (where_matches w) (table_rows t)).

Definition table_create (t : table) (v : create_values) : table * result db_error UserType :=
  match new_bank_code v with
  | None => (t, Err NotNullViolation)
  | Some b =>
      if has_number (new_account_number v) (table_rows t)
      then (t, Err UniqueConstraintError)
      else
        let u := new_row (next_id t) v b in
        (mkTable (table_rows t ++ [u]) (S (next_id t)), Ok u)
  end.

(** Every identifier in use is below the next one. *)
Definition table_valid (t : table) : Prop :=
  Forall (fun u => id_ u < next_id t) (table_rows t).

#[export] Instance table_store : Store table := {|
  rows := table_rows;
  valid := table_valid;
  findAll := table_findAll;
  findOne := table_findOne;
  create := table_create;
|}.

(** The table without its unique index: a creation is refused for a missing
    bank code only.  It obeys the laws of a store and is not [Constrained]. *)
Definition bag_create (t : table) (v : create_values) : table * result db_error UserType :=
  match new_bank_code v with
  | None => (t, Err NotNullViolation)
  | Some b =>
      let u := new_row (next_id t) v b in
      (mkTable (table_rows t ++ [u]) (S (next_id t)), Ok u)
  end.

Definition bag_store : Store table := {|
  rows := table_rows;
  valid := table_valid;
  findAll := table_findAll;
  findOne := table_findOne;
  create := bag_create;
|}.

(** The model layer without its database: every operation rejects, and the
    rows stay as they are. *)
Definition down_store : Store table := {|
  rows := table_rows;
  valid := table_valid;
  findAll := fun _ => Err ConnectionError;
  findOne := fun _ _ => Err ConnectionError;
  create := fun t _ => (t, Err ConnectionError);
|}.

(** The constraints the table keeps. *)
Definition table_constraints (t : table) : Prop :=
  table_valid t /\ unique_on id_ (table_rows t) /\
  unique_on user_account_number (table_rows t).

(** * Theorems *)

Lemma has_number_spec n l :
  has_number n l = true <-> exists u, u ∈ l /\ user_account_number u = n.
Proof.
  unfold has_number. rewrite existsb_exists. split.
  - intros (u & Hu%list_elem_of_In & Hn%bool_decide_eq_true). eauto.
  - intros (u & Hu%list_elem_of_In & Hn). exists u. by rewrite bool_decide_eq_true.
Qed.

Lemma has_number_false n l :
  has_number n l = false <-> forall u, u ∈ l -> user_account_number u <> n.
Proof.
  rewrite <- not_true_iff_false, has_number_spec. split.
  - intros Hno u Hu Hn. apply Hno. eauto.
  - intros Hno (u & Hu & Hn). by apply (Hno u).
Qed.

Lemma find_elem_of {A} (f : A -> bool) l x :
  find f l = Some x -> x ∈ l /\ f x = true.
Proof. intros [?%list_elem_of_In ?]%find_some. done. Qed.

Lemma find_none_elem_of {A} (f : A -> bool) l x :
  find f l = None -> x ∈ l -> f x = false.
Proof. intros Hnone ?%list_elem_of_In. by eapply find_none. Qed.

(** A creation of the table, case by case. *)
Lemma table_create_cases t v :
  (new_bank_code v = None /\ table_create t v = (t, Err NotNullViolation)) \/
  (exists b, new_bank_code v = Some b /\
     has_number (new_account_number v) (table_rows t) = true /\
     table_create t v = (t, Err UniqueConstraintError)) \/
  (exists b, new_bank_code v = Some b /\
     has_number (new_account_number v) (table_rows t) = false /\
     table_create t v =
       (mkTable (table_rows t ++ [new_row (next_id t) v b]) (S (next_id t)),
        Ok (new_row (next_id t) v b))).
Proof.
  unfold table_create. destruct (new_bank_code v) as [b|]; [|by left].
  right. destruct (has_number _ _) eqn:Hn; [left|right]; eauto.
Qed.

Lemma table_valid_fresh t : table_valid t -> next_id t ∉ (id_ <$> table_rows t).
Proof.
  unfold table_valid. rewrite Forall_forall.
  intros Hlt (u & Hid & Hu)%list_elem_of_fmap. apply Hlt in Hu. lia.
Qed.

Lemma table_create_valid t v : table_valid t -> table_valid (table_create t v).1.
Proof.
  intros Hv.
  destruct (table_create_cases t v) as [[_ ->]|[(b & _ & _ & ->)|(b & _ & _ & ->)]];
    [done..|].
  unfold table_valid in *. simpl. rewrite Forall_app, Forall_singleton. split.
  - eapply Forall_impl; [done|]. simpl. lia.
  - simpl. lia.
Qed.

#[export] Instance table_laws : StoreLaws table.
Proof.
  split; simpl.
  - intros t l _ [= <-]. done.
  - intros t w u _ [= Hf]. by apply find_elem_of.
  - intros t w u _ [= Hf]. by apply find_none_elem_of.
  - apply table_create_valid.
  - intros t v u Hv.
    destruct (table_create_cases t v) as [[_ ->]|[(b & _ & _ & ->)|(b & Hb & _ & ->)]];
      [done..|].
    simpl. intros [= <-]. split_and!; try done. by apply table_valid_fresh.
  - intros t v e Hv.
    by destruct (table_create_cases t v) as [[_ ->]|[(b & _ & _ & ->)|(b & _ & _ & ->)]].
Qed.

#[export] Instance table_constrained : Constrained table.
Proof.
  intros t v u _. simpl.
  destruct (table_create_cases t v) as [[_ ->]|[(b & _ & _ & ->)|(b & _ & Hn & ->)]];
    [done..|].
  simpl. intros [= <-] (u' & Hnum & Hu')%list_elem_of_fmap.
  by eapply has_number_false.
Qed.

Lemma bag_create_valid t v : table_valid t -> table_valid (bag_create t v).1.
Proof.
  intros Hv. unfold bag_create. destruct (new_bank_code v) as [b|]; [|done].
  unfold table_valid in *. simpl. rewrite Forall_app, Forall_singleton. split.
  - eapply Forall_impl; [done|]. simpl. lia.
  - simpl. lia.
Qed.

Lemma bag_laws : @StoreLaws table bag_store.
Proof.
  split; simpl.
  - intros t l _ [= <-]. done.
  - intros t w u _ [= Hf]. by apply find_elem_of.
  - intros t w u _ [= Hf]. by apply find_none_elem_of.
  - apply bag_create_valid.
  - intros t v u Hv. unfold bag_create. destruct (new_bank_code v) as [b|] eqn:Hb; [|done].
    simpl. intros [= <-]. split_and!; try done. by apply table_valid_fresh.
  - intros t v e Hv. unfold bag_create. by destruct (new_bank_code v).
Qed.

Lemma down_laws : @StoreLaws table down_store.
Proof. by split. Qed.

Lemma down_constrained : @Constrained table down_store.
Proof. by intros t v u. Qed.

(** The table keeps its constraints through every creation, accepted or not. *)
Lemma table_create_constraints t v :
  table_constraints t -> table_constraints (table_create t v).1.
Proof.
  intros (Hv & Hid & Hnum). split; [by apply table_create_valid|].
  destruct (table_create_cases t v) as [[_ ->]|[(b & _ & _ & ->)|(b & _ & Hn & ->)]];
    [done..|].
  simpl. rewrite !unique_on_snoc. split_and!; try done.
  - intros u Hu Heq. apply (table_valid_fresh t Hv).
    simpl in Heq. rewrite <- Heq. by apply list_elem_of_fmap_2.
  - intros u Hu. simpl. by eapply has_number_false.
Qed.

Lemma empty_table_constraints : table_constraints empty_table.
Proof. split_and!; [apply Forall_nil_2|apply unique_on_nil..]. Qed.

(** The table answers a lookup with the first row that passes the filter. *)
Lemma table_findOne_first t w u :
  table_findOne t w = Ok (Some u) ->
  exists l1 l2, table_rows t = l1 ++ u :: l2 /\
    Forall (fun u' => where_matches w u' = false) l1.
Proof.
  unfold table_findOne. intros [= Hf]. revert Hf.
  induction (table_rows t) as [|x l IH]; simpl; [done|].
  destruct (where_matches w x) eqn:Hx.
  - intros [= ->]. by exists [], l.
  - intros (l1 & l2 & -> & Hl1)%IH. exists (x :: l1), l2. split; [done|].
    by constructor.
Qed.
