(* ===== verification/Paystack.v ===== *)
(** * The bank-resolution service

    [axios(options)] sends an HTTPS GET to the resolution endpoint and
    settles with the response or with an error.  The service is outside the
    repository; the resolvers are verified against any [Bank], a function
    from the request to what [axios] settles with.  [paystack] is one such
    bank, modelled from section 6 of the specification: it checks the bearer
    token, wants both parameters, answers a known account with its holder's
    name and an unknown one with status 422 and [status: false]; [offline]
    never answers; [bodiless] rejects with status 422 and no body. *)

From S2P Require Import Prelude JsString Types.
From stdpp Require Import strings.

(** What [axios(options)] settles with: the response, or the rejection's
    [error.response] ([None] when no response came). *)
Class Bank : Type :=
  resolve : axios_options -> result (option error_response) axios_response.

(** An account the service knows. *)
Record account : Type := mkAccount {
  holder_number : string;
  holder_bank : string;
  holder_name : string;
}.

Definition is_account (n b : string) (a : account) : bool :=
  bool_decide (holder_number a = n) && bool_decide (holder_bank a = b).

Definition rejection (code : nat) : result (option error_response) axios_response :=
  Err (Some (mkErrorResponse code (Data (Some false)))).

Definition paystack (secret : string) (directory : list account) : Bank :=
  fun o =>
    if bool_decide (Authorization o = "Bearer " +:+ secret) then
      match account_number (params o), bank_code (params o) with
      | Some n, Some b =>
          match find (is_account n b) directory with
          | Some a => Ok (mkResponse (Some (holder_name a)))
          | None => rejection 422
          end
      | _, _ => rejection 400
      end
    else rejection 401.

Definition offline : Bank := fun _ => Err None.

(** A service that rejects every request with status 422 and the body
    [null]. *)
Definition bodiless : Bank := fun _ => Err (Some (mkErrorResponse 422 NoData)).

(** * Theorems *)

Lemma paystack_ok secret directory o r :
  paystack secret directory o = Ok r ->
  exists n b a, account_number (params o) = Some n /\ bank_code (params o) = Some b /\
    a ∈ directory /\ is_account n b a = true /\ r = mkResponse (Some (holder_name a)).
Proof.
  unfold paystack, rejection. intros Hr.
  repeat (case_match; try done). simplify_eq.
  match goal with Hf : find _ _ = Some _ |- _ => apply find_some in Hf as [?%list_elem_of_In ?] end.
  eauto 10.
Qed.

Lemma paystack_unknown secret directory o n b :
  Authorization o = "Bearer " +:+ secret ->
  account_number (params o) = Some n -> bank_code (params o) = Some b ->
  (forall a, a ∈ directory -> is_account n b a = false) ->
  paystack secret directory o = rejection 422.
Proof.
  unfold paystack. intros -> -> -> Hdir.
  rewrite bool_decide_eq_true_2 by done.
  destruct (find _ _) as [a|] eqn:Hf; [|done].
  apply find_some in Hf as [Ha%list_elem_of_In Hm]. by rewrite Hdir in Hm.
Qed.
