(* ===== verification/World.v ===== *)
(** * The world the resolvers run in

    A resolver's calls are answered by the model layer (a [Store]), by the
    bank-resolution service (a [Bank]) and by the console.  [schema_respond]
    is that world as a [Responder]: the state is the store's, [User.create]
    is the one call that can change it, a rejection of the store reaches the
    resolver as a [SequelizeError] and a rejection of the bank as an
    [AxiosError]; the console answers always. *)

From S2P Require Import Prelude JsString Promise Types Store Paystack.
From stdpp Require Import strings.

(** A rejection of the model layer, as the resolver catches it. *)
Definition from_store {A} (r : result db_error A) : result js_error A :=
  match r with
  | Ok a => Ok a
  | Err e => Err (SequelizeError e)
  end.

(** A rejection of [axios], as the resolver catches it. *)
Definition from_bank {A} (r : result (option error_response) A) : result js_error A :=
  match r with
  | Ok a => Ok a
  | Err response => Err (AxiosError response)
  end.

Section World.
Context {T : Type} `{!Store T} `{!Bank}.

Definition schema_respond (s : T) (c : schema_call)
  : T * result js_error (schema_answer c) :=
  match c with
  | FindAll => (s, from_store (findAll s))
  | FindOne w => (s, from_store (findOne s w))
  | Create v => ((create s v).1, from_store (create s v).2)
  | Axios o => (s, from_bank (resolve o))
  | ConsoleError _ => (s, Ok tt)
  | ConsoleLog => (s, Ok tt)
  end.

#[export] Instance schema_responder : Responder T := schema_respond.

(** [preserved P]: a property of the store's state that no call breaks. *)
Definition preserved (P : T -> Prop) : Prop :=
  forall s c, P s -> P (schema_respond s c).1.

(** [unchanged_by c]: the state after the call [c] is the state before. *)
Definition unchanged_by (c : schema_call) : Prop :=
  forall s, (schema_respond s c).1 = s.

(** * Theorems *)

Lemma from_store_ok {A} (r : result db_error A) a : from_store r = Ok a <-> r = Ok a.
Proof. destruct r; simpl; split; congruence. Qed.

Lemma from_store_err {A} (r : result db_error A) e :
  from_store r = Err e <-> exists d, r = Err d /\ e = SequelizeError d.
Proof.
  destruct r as [a|d]; simpl; split.
  - done.
  - by intros (d & ? & _).
  - intros [= <-]. eauto.
  - by intros (d' & [= <-] & ->).
Qed.

Lemma from_bank_ok {A} (r : result (option error_response) A) a :
  from_bank r = Ok a <-> r = Ok a.
Proof. destruct r; simpl; split; congruence. Qed.

(** The answers, call by call. *)
Lemma respond_FindAll s : respond s FindAll = (s, from_store (findAll s)).
Proof. done. Qed.

Lemma respond_FindOne s w : respond s (FindOne w) = (s, from_store (findOne s w)).
Proof. done. Qed.

Lemma respond_Create s v :
  respond s (Create v) = ((create s v).1, from_store (create s v).2).
Proof. done. Qed.

Lemma respond_Axios s o : respond s (Axios o) = (s, from_bank (resolve o)).
Proof. done. Qed.

Lemma respond_ConsoleError s e : respond s (ConsoleError e) = (s, Ok tt).
Proof. done. Qed.

Lemma respond_ConsoleLog s : respond s ConsoleLog = (s, Ok tt).
Proof. done. Qed.

(** Only [User.create] changes the state. *)
Lemma respond_unchanged c : is_create c = false -> unchanged_by c.
Proof. by destruct c. Qed.

(** A call that is not to the model layer leaves the state and is answered
    the same in every state. *)
Lemma respond_oblivious c s s' :
  is_store c = false -> schema_respond s c = (s, (schema_respond s' c).2).
Proof. by destruct c. Qed.

(** A run changes the state only at the creations it makes. *)
Lemma run_no_create {A} (p : promise A) s :
  writes (trace (run p s)) = [] -> final (run p s) = s.
Proof.
  revert s. induction p as [a|e|c k IHk h IHh]; intros s; simpl; [done..|].
  rewrite writes_cons. destruct (is_create c) eqn:Hc; [done|].
  pose proof (respond_unchanged c Hc s) as Hs. unfold schema_responder, respond.
  destruct (schema_respond s c) as [s' [x|e]]; simpl in *; subst s'; auto.
Qed.

(** An invariant of the store's state that no call breaks holds after every
    run. *)
Lemma run_preserved {A} (P : T -> Prop) (p : promise A) s :
  preserved P -> P s -> P (final (run p s)).
Proof.
  intros HP. revert s. induction p as [a|e|c k IHk h IHh]; intros s Hs; simpl; [done..|].
  specialize (HP s c Hs). unfold schema_responder, respond.
  destruct (schema_respond s c) as [s' [x|e]]; simpl in *; auto.
Qed.

Section Laws.
Context `{!StoreLaws T}.

Lemma valid_preserved : preserved valid.
Proof. intros s [] Hs; simpl; auto. by apply create_valid. Qed.

(** Every call leaves the rows or appends one row. *)
Lemma respond_rows s c :
  valid s ->
  rows (schema_respond s c).1 = rows s \/
  exists v u, c = Create v /\ (create s v).2 = Ok u /\
    rows (schema_respond s c).1 = rows s ++ [u] /\ stores v u.
Proof.
  intros Hs. destruct c as [|w|v|o|e|]; simpl; auto.
  destruct (create s v).2 as [u|e] eqn:Hc.
  - right. exists v, u. split_and!; [done..| |]; by apply create_ok in Hc as (? & ? & _).
  - left. by eapply create_err.
Qed.

End Laws.

End World.

#[export] Hint Rewrite @respond_FindAll @respond_FindOne @respond_Create
  @respond_Axios @respond_ConsoleError @respond_ConsoleLog : run.
