(* ===== verification/Schema.v ===== *)
(** * The resolvers of [src/schema/schema.js]

    One definition for each resolver and for each callback of its promise
    chain, in the order of the source.  A resolver is a [promise]: the calls
    it makes ([User.findOne], [axios], [User.create], [console.error],
    [console.log]) are [perform]ed, [.then] and [.catch] chain the callbacks,
    [throw] is [Rejected].

    An argument of a resolver is a nullable GraphQL string, hence an
    [option]; [is_verified] has the default [false] and is a [bool]: the
    value the resolver sees when the request gives one or leaves it out (a
    request that gives an explicit [null] for it is not modelled).
    [PAYSTACK_SECRET_KEY] is [process.env.PAYSTACK_SECRET_KEY]. *)

From S2P Require Import Prelude JsString Promise Types Matcher.
From stdpp Require Import strings.

Local Open Scope promise_scope.

(** ** Arguments *)

(** The arguments of the query [user] (lines 69-72). *)
Record user_args : Type := mkUserArgs {
  q_user_account_number : option string;
  q_user_bank_code : option string;
}.

(** The arguments of the mutation [addUser] (lines 137-142). *)
Record addUser_args : Type := mkAddUserArgs {
  m_user_account_number : option string;
  m_user_bank_code : option string;
  m_user_account_name : option string;
  m_is_verified : bool;
}.

Section Resolvers.
Context (PAYSTACK_SECRET_KEY : option string).

(** ** Pieces shared by the two resolvers *)

(** A template literal prints an absent value as [undefined]. *)
Definition interpolate (x : option string) : string := default "undefined" x.

(** The request to the resolution endpoint (lines 99-109 and 165-175). *)
Definition resolve_options (account_number bank_code : option string) : axios_options :=
  {| method := "GET";
     url := "https://api.paystack.co/bank/resolve";
     params := {| account_number := account_number; bank_code := bank_code |};
     Authorization := "Bearer " +:+ interpolate PAYSTACK_SECRET_KEY |}.

(** The check of the account number (lines 76-79 and 151-154):
    [.toString()] throws on [null] and [undefined], and a string whose
    length is not 10 is refused. *)
Definition check_account_number (user_account_number : option string) : promise string :=
  match user_account_number with
  | None => Rejected TypeError
  | Some n =>
      if bool_decide (js_length n <> 10)
      then Rejected (Error ACCOUNT_NUMBER_LENGTH_ERROR)
      else Resolved n
  end.

(** [console.error(error)] and [console.log()]: the chain goes on whatever
    the console does. *)
Definition console_error {A} (error : js_error) (next : promise A) : promise A :=
  Await (ConsoleError error) (fun _ => next) (fun _ => next).

Definition console_log {A} (next : promise A) : promise A :=
  Await ConsoleLog (fun _ => next) (fun _ => next).

(** ** Query [users] (lines 60-65) *)

Definition users_resolve : promise (list UserType) := perform FindAll.

(** ** Query [user] (lines 67-128) *)

(** [{ ...user.dataValues, user_account_name: name }] (lines 93-96, 116-119). *)
Definition with_name (user : UserType) (name : string) : UserType :=
  {| id_ := id_ user;
     user_account_number := user_account_number user;
     user_bank_code := user_bank_code user;
     user_account_name := Some name;
     is_verified := is_verified user |}.

(** The callback of the request (lines 112-120). *)
Definition user_on_response (user : UserType) (response : axios_response)
  : promise (option UserType) :=
  match account_name response with
  | None => Rejected TypeError
  | Some name =>
      let resolvedAccountName := toTitleCase name in
      Resolved (Some (with_name user resolvedAccountName))
  end.

(** The handler of its failure (lines 121-124). *)
Definition user_on_error (error : js_error) : promise (option UserType) :=
  console_error error (Resolved None).

(** The callback of the lookup (lines 86-126). *)
Definition user_found (user : option UserType) : promise (option UserType) :=
  match user with
  | None => Rejected (Error USER_DOESNT_EXIST)
  | Some user =>
      if truthy (user_account_name user) then
        Resolved (Some (with_name user
                    (toTitleCase (default "" (user_account_name user)))))
      else
        let options :=
          resolve_options (Some (user_account_number user))
                          (Some (user_bank_code user)) in
        perform (Axios options) .then user_on_response user .catch user_on_error
  end.

(** The resolver (lines 73-127). *)
Definition user_resolve (args : user_args) : promise (option UserType) :=
  let user_account_number := q_user_account_number args in
  let user_bank_code := q_user_bank_code args in
  check_account_number user_account_number .then (fun number =>
  perform (FindOne (WhereNumberAndBank number user_bank_code)) .then user_found).

(** ** Mutation [addUser] (lines 135-220) *)

(** The values handed to [User.create] (lines 186-190 and 195-199). *)
Definition addUser_values (args : addUser_args) (number name : string) (verified : bool)
  : create_values :=
  {| new_account_number := number;
     new_bank_code := m_user_bank_code args;
     new_account_name := name;
     new_is_verified := verified |}.

(** [{ ...user.dataValues, id: user.id }] (lines 192 and 201). *)
Definition addUser_created (user : UserType) : promise UserType :=
  Resolved {| id_ := id_ user;
              user_account_number := user_account_number user;
              user_bank_code := user_bank_code user;
              user_account_name := user_account_name user;
              is_verified := is_verified user |}.

(** The callback of the request (lines 178-204). *)
Definition addUser_on_response (args : addUser_args) (number : string)
    (response : axios_response) : promise UserType :=
  match account_name response, m_user_account_name args with
  | Some resolvedAccountName, Some user_account_name =>
      if ld user_account_name resolvedAccountName <=? 2 then
        perform (Create (addUser_values args number user_account_name true))
          .then addUser_created
      else
        perform (Create (addUser_values args number user_account_name
                           (m_is_verified args)))
          .then addUser_created
  | _, _ => Rejected TypeError
  end.

(** The test of lines 208-212, from left to right: [error.response] may be
    absent, and reading [status] of an absent body throws. *)
Definition is_invalid_bank_details (error : js_error) : result js_error bool :=
  match error with
  | AxiosError (Some response) =>
      if status response =? 422 then
        match data response with
        | NoData => Err TypeError
        | Data data_status => Ok (bool_decide (data_status = Some false))
        end
      else Ok false
  | _ => Ok false
  end.

(** The handler of the failures of the request and of its callback
    (lines 205-217). *)
Definition addUser_on_error (error : js_error) : promise UserType :=
  console_error error (console_log (
    match is_invalid_bank_details error with
    | Ok true => Rejected (Error INVALID_BANK_DETAILS)
    | Ok false => Rejected (Error SERVER_ERROR)
    | Err thrown => Rejected thrown
    end)).

(** The callback of the lookup (lines 160-218). *)
Definition addUser_lookup (args : addUser_args) (number : string)
    (existingUser : option UserType) : promise UserType :=
  match existingUser with
  | Some _ => Rejected (Error USER_ALREADY_EXISTS)
  | None =>
      let options := resolve_options (Some number) (m_user_bank_code args) in
      perform (Axios options) .then addUser_on_response args number
        .catch addUser_on_error
  end.

(** The resolver (lines 143-219). *)
Definition addUser_resolve (args : addUser_args) : promise UserType :=
  let user_account_number := m_user_account_number args in
  check_account_number user_account_number .then (fun number =>
  perform (FindOne (WhereNumber number)) .then addUser_lookup args number).

(** ** The schema (lines 57-59, 132-134, 224-227) *)

(** A field of the root query type. *)
Inductive RootQuery : Type :=
| Q_users
| Q_user (args : user_args).

(** A field of the mutation type. *)
Inductive mutation : Type :=
| M_addUser (args : addUser_args).

(** A request for one root field. *)
Inductive operation : Type :=
| Query (q : RootQuery)
| Mutation (m : mutation).

(** What a root field resolves to: a list of users, a user or [null]. *)
Inductive field_value : Type :=
| UserList (l : list UserType)
| UserOrNull (u : option UserType).

Definition schema (op : operation) : promise field_value :=
  match op with
  | Query Q_users => users_resolve .then (fun l => Resolved (UserList l))
  | Query (Q_user args) => user_resolve args .then (fun u => Resolved (UserOrNull u))
  | Mutation (M_addUser args) =>
      addUser_resolve args .then (fun u => Resolved (UserOrNull (Some u)))
  end.

End Resolvers.

(** The callbacks are unfolded by name, never by [simpl]. *)
Global Arguments check_account_number : simpl never.
Global Arguments console_error : simpl never.
Global Arguments console_log : simpl never.
Global Arguments user_on_response : simpl never.
Global Arguments user_on_error : simpl never.
Global Arguments user_found : simpl never.
Global Arguments user_resolve : simpl never.
Global Arguments addUser_created : simpl never.
Global Arguments addUser_on_response : simpl never.
Global Arguments addUser_on_error : simpl never.
Global Arguments addUser_lookup : simpl never.
Global Arguments addUser_resolve : simpl never.
