(* ===== verification/Exec.v ===== *)
(** * Running the resolvers: shared steps

    A resolver of [Schema] runs in the world of [World]: a store and a bank.
    This file holds what the runs of both resolvers share: the tactic [exec]
    that computes a run one call at a time, the run of the account-number
    check and of the console calls, and the example world (a table, the
    [paystack] bank and its directory) that the witnesses of the development
    evaluate. *)

From S2P Require Import Prelude JsString Promise Types Matcher Store Paystack World Schema.
From stdpp Require Import strings.

(** [exec]: compute a run by the rewrite rules of [run] (database [run]),
    the equations in the context and reduction; the callbacks of [Schema]
    stay folded. *)
Ltac exec_step :=
  first
    [ progress autorewrite with run
    | progress cbn
    | match goal with
      | H : ?x = _ |- context [?x] => rewrite H
      end ].
Ltac exec := repeat exec_step.

(** What the check of the account number yields. *)
Definition checked (number : option string) : result js_error string :=
  match number with
  | None => Err TypeError
  | Some n =>
      if bool_decide (js_length n <> 10)
      then Err (Error ACCOUNT_NUMBER_LENGTH_ERROR)
      else Ok n
  end.

(** ** The example world *)

Definition example_key : option string := Some "sk_test".

Definition example_directory : list account :=
  [mkAccount "0123456789" "058" "JOHN DOE";
   mkAccount "1111111111" "044" "Alice Smith";
   mkAccount "2222222222" "033" "MARY ANN OKORO";
   mkAccount "3333333333" "011" "Bo"].

Definition example_bank : Bank := paystack "sk_test" example_directory.

(** A table with one verified account and one account without a name. *)
Definition example_table : table :=
  mkTable [mkUser 1 "0123456789" "058" (Some "john doe") true;
           mkUser 2 "1111111111" "044" None false] 3.

(** Requests to [addUser]: an account the bank knows under a name one edit
    away from the claimed one, a number that is too short, a number the
    table holds, and an account the bank does not know. *)
Definition example_new : addUser_args :=
  mkAddUserArgs (Some "2222222222") (Some "033") (Some "Mary Anne Okoro") false.

Definition example_short : addUser_args :=
  mkAddUserArgs (Some "12345") (Some "033") (Some "Mary Anne Okoro") false.

Definition example_known : addUser_args :=
  mkAddUserArgs (Some "0123456789") (Some "058") (Some "John Doe") false.

Definition example_unknown : addUser_args :=
  mkAddUserArgs (Some "9999999999") (Some "058") (Some "Nobody") true.

(** The row the first of them creates in [example_table]. *)
Definition example_row : UserType :=
  mkUser 3 "2222222222" "033" (Some "Mary Anne Okoro") true.

(** Requests to [user]: a row with a stored name, a row without one, a
    number the table does not hold, and a number that is too short. *)
Definition example_named : user_args := mkUserArgs (Some "0123456789") (Some "058").

Definition example_unnamed : user_args := mkUserArgs (Some "1111111111") (Some "044").

Definition example_missing : user_args := mkUserArgs (Some "5555555555") (Some "058").

Definition example_digits : user_args := mkUserArgs (Some "123") None.

(** A session: requests served one after another from [example_table]. *)
Definition example_session : list operation :=
  [Mutation (M_addUser example_new); Query (Q_user example_named);
   Mutation (M_addUser example_known); Mutation (M_addUser example_unknown);
   Query Q_users].

(** Queries only. *)
Definition example_queries : list operation :=
  [Query (Q_user example_unnamed); Query Q_users; Query (Q_user example_named)].

(** * Theorems *)

Lemma checked_ok number n :
  number = Some n -> js_length n = 10 -> checked number = Ok n.
Proof. intros -> Hn. unfold checked. by rewrite bool_decide_eq_false_2 by (by intros ?). Qed.

Lemma checked_bad_length number n :
  number = Some n -> js_length n <> 10 ->
  checked number = Err (Error ACCOUNT_NUMBER_LENGTH_ERROR).
Proof. intros -> Hn. unfold checked. by rewrite bool_decide_eq_true_2. Qed.

Lemma checked_null : checked None = Err TypeError.
Proof. done. Qed.

Lemma checked_cases number :
  (number = None /\ checked number = Err TypeError) \/
  (exists n, number = Some n /\ js_length n <> 10 /\
     checked number = Err (Error ACCOUNT_NUMBER_LENGTH_ERROR)) \/
  (exists n, number = Some n /\ js_length n = 10 /\ checked number = Ok n).
Proof.
  destruct number as [n|]; [|by left]. right.
  destruct (decide (js_length n = 10)) as [Hn|Hn]; [right|left]; exists n.
  - by rewrite (checked_ok _ n).
  - by rewrite (checked_bad_length _ n).
Qed.

Lemma example_table_constraints : table_constraints example_table.
Proof.
  split_and!.
  - repeat constructor.
  - unfold unique_on. compute_done.
  - unfold unique_on. compute_done.
Qed.

Section Exec.
Context {T : Type} `{!Store T} `{!Bank}.
Implicit Types (s : T).

Lemma run_check_account_number number s :
  run (check_account_number number) s = Outcome [] s (checked number).
Proof.
  unfold check_account_number, checked.
  destruct number as [n|]; [|done]. by case_bool_decide.
Qed.

Lemma run_console_error {A} e (p : promise A) s :
  run (console_error e p) s = after [ConsoleError e] (run p s).
Proof. done. Qed.

Lemma run_console_log {A} (p : promise A) s :
  run (console_log p) s = after [ConsoleLog] (run p s).
Proof. done. Qed.

End Exec.

#[export] Hint Rewrite @run_check_account_number @run_console_error
  @run_console_log : run.
