(* ===== verification/AddUser.v ===== *)
(** * The mutation [addUser]

    [addUser args s] runs the resolver [addUser_resolve] of [Schema]
    ([src/schema/schema.js], lines 143-219) in a world whose store is in
    state [s].  [addUser_spec] lists the eight ways the run can go, each with
    the calls made, the state left and the value or error returned; the run
    is always one of them ([addUser_run]).  The properties of the mutation
    follow from the eight cases and the laws of the store: the table holds
    each account number once, a failed creation stores nothing, the record
    created is the one the request describes, verified when the names match. *)

From S2P Require Import Prelude JsString Promise Types Matcher Store Paystack World Schema Exec.
From stdpp Require Import strings sets.

(** [addUser_cases_of H]: the eight cases of [H : addUser_spec args s o],
    under the names the proofs use. *)
Ltac addUser_cases_of H :=
  destruct H as [Hn|n Hn Hl|n d Hn Hl Hf|n u' Hn Hl Hf|n resp Hn Hl Hf Hr
                |n r Hn Hl Hf Hr Hnull|n res nm d Hn Hl Hf Hr Hnm Hc
                |n res nm u' Hn Hl Hf Hr Hnm Hc].

#[local] Set Warnings "-clear-no-such-hyp".

(** [calls_solver]: which calls are members of the trace of a case. *)
Ltac calls_solver := split_and!; intros; split; set_unfold; naive_solver congruence.

Section AddUser.
Context {T : Type} {store : Store T} {bank : Bank} (key : option string).
Implicit Types (s : T) (args : addUser_args) (o : outcome T UserType).

(** The run of the resolver. *)
Definition addUser args s : outcome T UserType := run (addUser_resolve key args) s.

(** The error the [catch] of the resolver throws for the error it caught. *)
Definition addUser_error (e : js_error) : js_error :=
  match is_invalid_bank_details e with
  | Ok true => Error INVALID_BANK_DETAILS
  | Ok false => Error SERVER_ERROR
  | Err thrown => thrown
  end.

(** A run that ended in the [catch]: the error is logged, a line is printed,
    and the error is replaced. *)
Definition addUser_failed (tr : list schema_call) s (e : js_error) : outcome T UserType :=
  Outcome (tr ++ [ConsoleError e; ConsoleLog]) s (Err (addUser_error e)).

(** The lookup, the request and the values of a run on the number [n]. *)
Definition lookup (n : string) : schema_call := FindOne (WhereNumber n).

Definition request args (n : string) : axios_options :=
  {| method := "GET";
     url := "https://api.paystack.co/bank/resolve";
     params := {| account_number := Some n; bank_code := m_user_bank_code args |};
     Authorization := "Bearer " +:+ default "undefined" key |}.

Definition values args (n name resolved : string) : create_values :=
  {| new_account_number := n;
     new_bank_code := m_user_bank_code args;
     new_account_name := name;
     new_is_verified := isMatch name resolved || m_is_verified args |}.

(** The eight ways a run can go. *)
Inductive addUser_spec args s : outcome T UserType -> Prop :=
| AddUser_no_number :
    m_user_account_number args = None ->
    addUser_spec args s (Outcome [] s (Err TypeError))
| AddUser_bad_length n :
    m_user_account_number args = Some n -> js_length n <> 10 ->
    addUser_spec args s (Outcome [] s (Err (Error ACCOUNT_NUMBER_LENGTH_ERROR)))
| AddUser_lookup_rejected n d :
    m_user_account_number args = Some n -> js_length n = 10 ->
    findOne s (WhereNumber n) = Err d ->
    addUser_spec args s (Outcome [lookup n] s (Err (SequelizeError d)))
| AddUser_exists n u :
    m_user_account_number args = Some n -> js_length n = 10 ->
    findOne s (WhereNumber n) = Ok (Some u) ->
    addUser_spec args s (Outcome [lookup n] s (Err (Error USER_ALREADY_EXISTS)))
| AddUser_bank_rejected n response :
    m_user_account_number args = Some n -> js_length n = 10 ->
    findOne s (WhereNumber n) = Ok None ->
    resolve (request args n) = Err response ->
    addUser_spec args s
      (addUser_failed [lookup n; Axios (request args n)] s (AxiosError response))
| AddUser_no_name n r :
    m_user_account_number args = Some n -> js_length n = 10 ->
    findOne s (WhereNumber n) = Ok None ->
    resolve (request args n) = Ok r ->
    account_name r = None \/ m_user_account_name args = None ->
    addUser_spec args s
      (addUser_failed [lookup n; Axios (request args n)] s TypeError)
| AddUser_create_rejected n resolved name d :
    m_user_account_number args = Some n -> js_length n = 10 ->
    findOne s (WhereNumber n) = Ok None ->
    resolve (request args n) = Ok (mkResponse (Some resolved)) ->
    m_user_account_name args = Some name ->
    (create s (values args n name resolved)).2 = Err d ->
    addUser_spec args s
      (addUser_failed
         [lookup n; Axios (request args n); Create (values args n name resolved)]
         (create s (values args n name resolved)).1 (SequelizeError d))
| AddUser_created n resolved name u :
    m_user_account_number args = Some n -> js_length n = 10 ->
    findOne s (WhereNumber n) = Ok None ->
    resolve (request args n) = Ok (mkResponse (Some resolved)) ->
    m_user_account_name args = Some name ->
    (create s (values args n name resolved)).2 = Ok u ->
    addUser_spec args s
      (Outcome
         [lookup n; Axios (request args n); Create (values args n name resolved)]
         (create s (values args n name resolved)).1 (Ok u)).

(** The account number [n] is not in the table. *)
Definition number_free s (n : string) : Prop :=
  forall u, u ∈ rows s -> user_account_number u <> n.

(** The calls of a run without the console's. *)
Definition service_calls o : list schema_call :=
  filter (fun c => negb (is_console c)) (trace o).

(** * Theorems *)

(** ** The callbacks, one by one *)

(** What the [catch] throws for a rejected request: the test passes for one
    shape of rejection only, and throws by itself for a rejection with
    status 422 and no body. *)
Lemma invalid_bank_details_inv response :
  addUser_error (AxiosError response) = Error INVALID_BANK_DETAILS ->
  response = Some (mkErrorResponse 422 (Data (Some false))).
Proof.
  unfold addUser_error. destruct response as [[st body]|]; simpl; [|done].
  destruct (st =? 422) eqn:Hst; [|done]. apply Nat.eqb_eq in Hst as ->.
  by destruct body as [|[[]|]].
Qed.

Lemma null_body_inv response :
  addUser_error (AxiosError response) = TypeError ->
  response = Some (mkErrorResponse 422 NoData).
Proof.
  unfold addUser_error. destruct response as [[st body]|]; simpl; [|done].
  destruct (st =? 422) eqn:Hst; [|done]. apply Nat.eqb_eq in Hst as ->.
  by destruct body as [|[[]|]].
Qed.

(** One of three errors leaves the [catch]. *)
Lemma addUser_error_cases e :
  addUser_error e = Error INVALID_BANK_DETAILS \/ addUser_error e = Error SERVER_ERROR \/
  addUser_error e = TypeError.
Proof.
  unfold addUser_error. destruct e as [| |[[st [|[[]|]]]|]|]; simpl; auto;
    destruct (st =? 422); auto.
Qed.

Lemma resolve_options_request args n :
  resolve_options key (Some n) (m_user_bank_code args) = request args n.
Proof. done. Qed.

Lemma addUser_values_values args n name resolved :
  addUser_values args n name (isMatch name resolved || m_is_verified args) =
  values args n name resolved.
Proof. done. Qed.

Lemma run_addUser_on_error e s : run (addUser_on_error e) s = addUser_failed [] s e.
Proof.
  unfold addUser_on_error, addUser_failed, addUser_error. exec.
  by destruct (is_invalid_bank_details e) as [[]|].
Qed.

Lemma run_addUser_on_response args n resolved name s :
  m_user_account_name args = Some name ->
  run (addUser_on_response args n (mkResponse (Some resolved))) s =
  Outcome [Create (values args n name resolved)]
    (create s (values args n name resolved)).1
    (from_store (create s (values args n name resolved)).2).
Proof.
  intros Hname. rewrite <- addUser_values_values.
  unfold addUser_on_response, isMatch. simpl. rewrite Hname.
  destruct (ld name resolved <=? 2); simpl; by destruct (create s _).2 as [[]|d].
Qed.

Lemma run_addUser_on_response_null args n r s :
  account_name r = None \/ m_user_account_name args = None ->
  run (addUser_on_response args n r) s = Outcome [] s (Err TypeError).
Proof.
  unfold addUser_on_response. intros [->| ->]; [done|]. by destruct (account_name r).
Qed.

Lemma run_addUser_lookup_some args n u s :
  run (addUser_lookup key args n (Some u)) s =
  Outcome [] s (Err (Error USER_ALREADY_EXISTS)).
Proof. done. Qed.

Lemma run_addUser_lookup_none args n s :
  run (addUser_lookup key args n None) s =
  after [Axios (request args n)]
    match resolve (request args n) with
    | Ok r => recover (run (addUser_on_response args n r) s) addUser_on_error
    | Err response => addUser_failed [] s (AxiosError response)
    end.
Proof.
  unfold addUser_lookup. rewrite resolve_options_request. exec.
  destruct (resolve (request args n)); exec; [done|by rewrite run_addUser_on_error].
Qed.

Lemma after_addUser_failed tr tr' s e :
  after tr (addUser_failed tr' s e) = addUser_failed (tr ++ tr') s e.
Proof. unfold addUser_failed, after. simpl. by rewrite app_assoc. Qed.

(** ** The run is one of the eight cases *)

Lemma addUser_spec_sound args s o : addUser_spec args s o -> addUser args s = o.
Proof.
  unfold addUser, addUser_resolve, lookup.
  intros Hspec; addUser_cases_of Hspec;
    try pose proof (checked_ok _ _ Hn Hl) as Hck;
    try pose proof (checked_bad_length _ _ Hn Hl) as Hck;
    exec; try done.
  all: rewrite run_addUser_lookup_none, Hr.
  - by rewrite !after_addUser_failed.
  - rewrite run_addUser_on_response_null by done. exec.
    by rewrite run_addUser_on_error, !after_addUser_failed.
  - rewrite (run_addUser_on_response _ _ _ nm) by done. exec.
    by rewrite run_addUser_on_error, !after_addUser_failed.
  - rewrite (run_addUser_on_response _ _ _ nm) by done. by exec.
Qed.

(** After a lookup that found nothing, the run is one of the last four cases. *)
Lemma addUser_spec_request args s n :
  m_user_account_number args = Some n -> js_length n = 10 ->
  findOne s (WhereNumber n) = Ok None ->
  exists o, addUser_spec args s o.
Proof.
  intros Hn Hl Hf.
  destruct (resolve (request args n)) as [[[res|]]|resp] eqn:Hr;
    [|eauto using addUser_spec..].
  destruct (m_user_account_name args) as [nm|] eqn:Hnm;
    [|eauto using addUser_spec].
  destruct (create s (values args n nm res)).2 eqn:Hc; eauto using addUser_spec.
Qed.

Lemma addUser_spec_total args s : exists o, addUser_spec args s o.
Proof.
  destruct (checked_cases (m_user_account_number args))
    as [[Hn _]|[(n & Hn & Hl & _)|(n & Hn & Hl & _)]]; [eauto using addUser_spec..|].
  destruct (findOne s (WhereNumber n)) as [[u|]|d] eqn:Hf;
    eauto using addUser_spec, addUser_spec_request.
Qed.

Lemma addUser_cases args s : addUser_spec args s (addUser args s).
Proof.
  destruct (addUser_spec_total args s) as [o Ho].
  by rewrite (addUser_spec_sound _ _ _ Ho).
Qed.

(** A run that returns a row went through the lookup, the request and the
    creation, and the row is the one the creation answered. *)
Lemma addUser_ok_inv args s u :
  value (addUser args s) = Ok u ->
  exists n name resolved,
    m_user_account_number args = Some n /\ js_length n = 10 /\
    findOne s (WhereNumber n) = Ok None /\
    resolve (request args n) = Ok (mkResponse (Some resolved)) /\
    m_user_account_name args = Some name /\
    (create s (values args n name resolved)).2 = Ok u /\
    final (addUser args s) = (create s (values args n name resolved)).1.
Proof.
  addUser_cases_of (addUser_cases args s); simpl; try done.
  intros [= ->]. by exists n, nm, res.
Qed.

(** A run that fails either left the state alone or ended in a creation the
    store rejected. *)
Lemma addUser_err_inv args s e :
  value (addUser args s) = Err e ->
  final (addUser args s) = s \/
  exists v d, final (addUser args s) = (create s v).1 /\ (create s v).2 = Err d.
Proof.
  addUser_cases_of (addUser_cases args s); simpl; eauto.
  done.
Qed.

(** C1. Every run of [addUser] is one of the eight cases of [addUser_spec],
    and each case is a run: the calls made, the state left and the result
    are those of the case. *)
Theorem addUser_run args s o : addUser args s = o <-> addUser_spec args s o.
Proof.
  split; [|apply addUser_spec_sound].
  intros <-. apply addUser_cases.
Qed.

(** ** What the cases say without the laws of the store *)

(** A number whose length is not 10 is refused before any call is made:
    no lookup, no request, and the state is the one before. *)
Lemma addUser_bad_length args s n :
  m_user_account_number args = Some n -> js_length n <> 10 ->
  addUser args s = Outcome [] s (Err (Error ACCOUNT_NUMBER_LENGTH_ERROR)).
Proof. intros Hn Hl. apply addUser_spec_sound. by eapply AddUser_bad_length. Qed.

(** C20. The calls of a run come in one order, the lookup, then the request,
    then the creation, each once at most, and each waits for the answer of
    the one before: the request is sent exactly when the lookup answered
    that no record has the number, and the creation is called exactly when
    that request was answered with a name for a request that claims one. *)
Theorem addUser_call_order args s :
  (exists n v, service_calls (addUser args s) `prefix_of`
                 [lookup n; Axios (request args n); Create v]) /\
  (forall w, FindOne w ∈ trace (addUser args s) <->
     exists n, m_user_account_number args = Some n /\ js_length n = 10 /\
       w = WhereNumber n) /\
  (forall options, Axios options ∈ trace (addUser args s) <->
     exists n, m_user_account_number args = Some n /\ js_length n = 10 /\
       findOne s (WhereNumber n) = Ok None /\ options = request args n) /\
  (forall v, Create v ∈ trace (addUser args s) <->
     exists n name resolved,
       m_user_account_number args = Some n /\ js_length n = 10 /\
       findOne s (WhereNumber n) = Ok None /\
       resolve (request args n) = Ok (mkResponse (Some resolved)) /\
       m_user_account_name args = Some name /\ v = values args n name resolved).
Proof.
  addUser_cases_of (addUser_cases args s); unfold addUser_failed, lookup; simpl.
  6: destruct r as [name]; destruct Hnull as [Hnull|Hnull]; simpl in Hnull; subst.
  1,2: split; [exists "", (values args "" "" ""); by eexists|calls_solver].
  1-5: split; [exists n, (values args n "" ""); by eexists|calls_solver].
  all: split; [exists n, (values args n nm res); by eexists|calls_solver].
Qed.

(** C24. A run answers [INVALID_BANK_DETAILS] exactly when the number passed
    the check, the lookup found no record, and the bank rejected the request
    with status 422 and [status: false]; such a run stores nothing. *)
Theorem addUser_invalid_bank_details args s :
  (value (addUser args s) = Err (Error INVALID_BANK_DETAILS) <->
   exists n, m_user_account_number args = Some n /\ js_length n = 10 /\
     findOne s (WhereNumber n) = Ok None /\
     resolve (request args n) = Err (Some (mkErrorResponse 422 (Data (Some false))))) /\
  (value (addUser args s) = Err (Error INVALID_BANK_DETAILS) ->
   final (addUser args s) = s /\ writes (trace (addUser args s)) = []).
Proof.
  addUser_cases_of (addUser_cases args s); simpl.
  all: split; [split; [try done|intros (n' & ? & ? & ? & Hr'); simplify_eq;
                              try congruence]|try done].
  - intros [= Hinv]. exists n. split_and!; try done. rewrite Hr. do 2 f_equal.
    by apply invalid_bank_details_inv.
  - rewrite Hr in Hr'. by injection Hr' as ->.
Qed.

(** C23. An account the bank does not resolve is never stored: when the
    request is rejected, or answered without a name, the run makes no
    creation and leaves the state as it was. *)
Theorem addUser_unresolved_not_stored args s n :
  m_user_account_number args = Some n ->
  (forall resolved, resolve (request args n) <> Ok (mkResponse (Some resolved))) ->
  writes (trace (addUser args s)) = [] /\ final (addUser args s) = s /\
  is_ok (value (addUser args s)) = false.
Proof.
  intros Hn Hr.
  destruct (addUser_cases args s)
    as [Hn'|n' Hn' Hl|n' d Hn' Hl Hf|n' u Hn' Hl Hf|n' resp Hn' Hl Hf Hr'
       |n' r Hn' Hl Hf Hr' Hnull|n' res nm d Hn' Hl Hf Hr' Hnm Hc
       |n' res nm u Hn' Hl Hf Hr' Hnm Hc]; try done.
  all: assert (n' = n) as -> by congruence; by destruct (Hr res).
Qed.

(** C34. The errors of the mutation, each with the runs that raise it: a
    [TypeError] exactly when the number is absent or, after a lookup that
    found nothing, the bank rejected with status 422 and no body;
    [ACCOUNT_NUMBER_LENGTH_ERROR] exactly for a number of another length;
    [USER_ALREADY_EXISTS] exactly when the lookup found a record; a
    rejection of the model layer exactly when the lookup itself was
    rejected.  No other error leaves the mutation but
    [INVALID_BANK_DETAILS] and [SERVER_ERROR]. *)
Theorem addUser_errors args s :
  (value (addUser args s) = Err TypeError <->
     m_user_account_number args = None \/
     exists n, m_user_account_number args = Some n /\ js_length n = 10 /\
       findOne s (WhereNumber n) = Ok None /\
       resolve (request args n) = Err (Some (mkErrorResponse 422 NoData))) /\
  (value (addUser args s) = Err (Error ACCOUNT_NUMBER_LENGTH_ERROR) <->
     exists n, m_user_account_number args = Some n /\ js_length n <> 10) /\
  (value (addUser args s) = Err (Error USER_ALREADY_EXISTS) <->
     exists n u, m_user_account_number args = Some n /\ js_length n = 10 /\
       findOne s (WhereNumber n) = Ok (Some u)) /\
  (forall d, value (addUser args s) = Err (SequelizeError d) <->
     exists n, m_user_account_number args = Some n /\ js_length n = 10 /\
       findOne s (WhereNumber n) = Err d) /\
  (forall e, value (addUser args s) = Err e ->
     e = TypeError \/ (exists d, e = SequelizeError d) \/
     e ∈ Error <$> [ACCOUNT_NUMBER_LENGTH_ERROR; USER_ALREADY_EXISTS;
                    INVALID_BANK_DETAILS; SERVER_ERROR]).
Proof.
  addUser_cases_of (addUser_cases args s); unfold addUser_failed; simpl.
  5: destruct (addUser_error_cases (AxiosError resp)) as [He|[He|He]];
       [assert (resp <> Some (mkErrorResponse 422 NoData))
          by (intros ->; cbv in He; discriminate)..
       |pose proof (null_body_inv _ He) as ->]; rewrite He.
  all: split_and!; intros; (split || idtac); set_unfold; naive_solver congruence.
Qed.

(** C33. The [catch] can throw by itself: when the bank rejects the request
    with status 422 and the body [null], the test of line 211 reads
    [status] of [null]; the run has logged the error and fails with that
    [TypeError], neither [INVALID_BANK_DETAILS] nor [SERVER_ERROR]. *)
Theorem addUser_null_body args s n :
  m_user_account_number args = Some n -> js_length n = 10 ->
  findOne s (WhereNumber n) = Ok None ->
  resolve (request args n) = Err (Some (mkErrorResponse 422 NoData)) ->
  addUser args s =
  Outcome [lookup n; Axios (request args n);
           ConsoleError (AxiosError (Some (mkErrorResponse 422 NoData))); ConsoleLog]
          s (Err TypeError).
Proof.
  intros Hn Hl Hf Hr.
  by rewrite (addUser_spec_sound _ _ _ (AddUser_bank_rejected _ _ n _ Hn Hl Hf Hr)).
Qed.

(** ** What the cases say with the laws of the store *)

Section Laws.
Context {laws : StoreLaws T}.

Lemma lookup_none_free s n :
  valid s -> findOne s (WhereNumber n) = Ok None -> number_free s n.
Proof.
  intros Hs Hf u Hu Hn.
  pose proof (findOne_missing s _ u Hs Hf Hu) as Hm.
  apply where_number_matches in Hn. congruence.
Qed.

Lemma lookup_some_taken s n u :
  valid s -> findOne s (WhereNumber n) = Ok (Some u) ->
  u ∈ rows s /\ user_account_number u = n.
Proof.
  intros Hs Hf. apply findOne_found in Hf as [Hu Hm]; [|done].
  by apply where_number_matches in Hm.
Qed.

(** The rows after a run that returned [u]: one row more, under a number and
    an identifier no row had. *)
Lemma addUser_ok_rows args s u :
  valid s -> value (addUser args s) = Ok u ->
  rows (final (addUser args s)) = rows s ++ [u] /\
  (user_account_number u ∉ (user_account_number <$> rows s)) /\
  id_ u ∉ (id_ <$> rows s).
Proof.
  intros Hs (n & nm & res & _ & _ & Hf & _ & _ & Hc & ->)%addUser_ok_inv.
  apply create_ok in Hc as (Hrows & (Hnum & _) & Hid); [|done].
  split_and!; [done| |done]. rewrite Hnum. simpl.
  intros (u' & Hu' & Hin)%list_elem_of_fmap.
  by apply (lookup_none_free s n Hs Hf u').
Qed.

(** The rows after a run that failed. *)
Lemma addUser_err_rows args s e :
  valid s -> value (addUser args s) = Err e -> rows (final (addUser args s)) = rows s.
Proof.
  intros Hs [->|(v & d & -> & Hc)]%addUser_err_inv; [done|]. by eapply create_err.
Qed.

(** C7. A run leaves the rows as they were, or with one row more when it
    returns that row: a failed creation stores nothing. *)
Theorem addUser_atomic args s :
  valid s ->
  rows (final (addUser args s)) =
  rows s ++ match value (addUser args s) with Ok u => [u] | Err _ => [] end.
Proof.
  intros Hs. destruct (value (addUser args s)) as [u|e] eqn:Hv.
  - by apply addUser_ok_rows.
  - rewrite app_nil_r. by eapply addUser_err_rows.
Qed.

(** C9. The row a run returns is the one the request describes: the number
    and the bank code of the request, the claimed name (not the resolved
    one), verified when the names match or the request said so, under an
    identifier no row had; and its number was free. *)
Theorem addUser_created_row args s u :
  valid s -> value (addUser args s) = Ok u ->
  exists n name resolved,
    m_user_account_number args = Some n /\ js_length n = 10 /\
    m_user_account_name args = Some name /\
    resolve (request args n) = Ok (mkResponse (Some resolved)) /\
    number_free s n /\
    user_account_number u = n /\
    m_user_bank_code args = Some (user_bank_code u) /\
    user_account_name u = Some name /\
    is_verified u = isMatch name resolved || m_is_verified args /\
    id_ u ∉ (id_ <$> rows s).
Proof.
  intros Hs (n & nm & res & Hn & Hl & Hf & Hr & Hnm & Hc & _)%addUser_ok_inv.
  exists n, nm, res.
  apply create_ok in Hc as (_ & (Hun & Hub & Hua & Huv) & Hid); [|done].
  split_and!; try done. by apply lookup_none_free.
Qed.

(** A table that holds each account number once, and each identifier
    once, still does after a run, and stays valid. *)
Lemma addUser_unique_numbers args s :
  valid s -> unique_numbers s -> unique_ids s ->
  valid (final (addUser args s)) /\ unique_numbers (final (addUser args s)) /\
  unique_ids (final (addUser args s)).
Proof.
  intros Hs Hu Hi. split.
  { apply (run_preserved valid); [apply valid_preserved|done]. }
  unfold unique_numbers, unique_ids.
  destruct (value (addUser args s)) as [u|e] eqn:Hv;
    [|by rewrite (addUser_err_rows _ _ e)].
  destruct (addUser_ok_rows _ _ _ Hs Hv) as (-> & Hfree & Hid).
  split; by apply unique_on_fresh.
Qed.

(** C10. A number that the table holds is refused with [USER_ALREADY_EXISTS]
    when the lookup answers, whatever the other arguments; nothing is
    requested and nothing stored. *)
Theorem addUser_duplicate args s n u :
  valid s -> m_user_account_number args = Some n -> js_length n = 10 ->
  u ∈ rows s -> user_account_number u = n ->
  is_ok (findOne s (WhereNumber n)) = true ->
  addUser args s = Outcome [lookup n] s (Err (Error USER_ALREADY_EXISTS)).
Proof.
  intros Hs Hn Hl Hu Hnum Hok. apply addUser_spec_sound.
  destruct (findOne s (WhereNumber n)) as [[u'|]|d] eqn:Hf; [| |done].
  - by eapply AddUser_exists.
  - by destruct (lookup_none_free s n Hs Hf u Hu).
Qed.

End Laws.

End AddUser.

(** * The theorems at work in the example world *)

Lemma addUser_bad_length_witness :
  addUser (bank := example_bank) example_key example_short example_table =
  Outcome [] example_table (Err (Error ACCOUNT_NUMBER_LENGTH_ERROR)).
Proof. apply (addUser_bad_length _ _ _ "12345"); [reflexivity|vm_compute; lia]. Defined.

Lemma addUser_null_body_witness :
  addUser (bank := bodiless) example_key example_new example_table =
  Outcome [lookup "2222222222"; Axios (request example_key example_new "2222222222");
           ConsoleError (AxiosError (Some (mkErrorResponse 422 NoData))); ConsoleLog]
          example_table (Err TypeError).
Proof.
  apply (addUser_null_body (bank := bodiless) example_key example_new example_table
           "2222222222"); reflexivity.
Defined.

Lemma addUser_unresolved_not_stored_witness :
  writes (trace (addUser (bank := example_bank) example_key example_unknown example_table)) = [] /\
  final (addUser (bank := example_bank) example_key example_unknown example_table) = example_table /\
  is_ok (value (addUser (bank := example_bank) example_key example_unknown example_table)) = false.
Proof.
  apply (addUser_unresolved_not_stored _ _ _ "9999999999"); [reflexivity|].
  intros resolved. vm_compute. discriminate.
Defined.

Lemma addUser_atomic_witness :
  rows (final (addUser (bank := example_bank) example_key example_new example_table)) =
  rows example_table ++ [example_row].
Proof.
  exact (addUser_atomic (bank := example_bank) example_key example_new example_table
           (proj1 example_table_constraints)).
Defined.

Lemma addUser_created_row_witness :
  exists n name resolved,
    m_user_account_number example_new = Some n /\ js_length n = 10 /\
    m_user_account_name example_new = Some name /\
    resolve (Bank := example_bank) (request example_key example_new n) =
      Ok (mkResponse (Some resolved)) /\
    number_free example_table n /\
    user_account_number example_row = n /\
    m_user_bank_code example_new = Some (user_bank_code example_row) /\
    user_account_name example_row = Some name /\
    is_verified example_row = isMatch name resolved || m_is_verified example_new /\
    id_ example_row ∉ (id_ <$> rows example_table).
Proof.
  apply (addUser_created_row (bank := example_bank) example_key).
  - apply example_table_constraints.
  - vm_compute. reflexivity.
Defined.

Lemma addUser_unique_numbers_witness :
  valid (final (addUser (bank := example_bank) example_key example_new example_table)) /\
  unique_numbers (final (addUser (bank := example_bank) example_key example_new example_table)) /\
  unique_ids (final (addUser (bank := example_bank) example_key example_new example_table)).
Proof.
  apply (addUser_unique_numbers (bank := example_bank) example_key example_new
           example_table); apply example_table_constraints.
Defined.

Lemma addUser_duplicate_witness :
  addUser (bank := example_bank) example_key example_known example_table =
  Outcome [lookup "0123456789"] example_table (Err (Error USER_ALREADY_EXISTS)).
Proof.
  apply (addUser_duplicate _ _ _ _
           (mkUser 1 "0123456789" "058" (Some "john doe") true)).
  - apply example_table_constraints.
  - reflexivity.
  - reflexivity.
  - apply list_elem_of_here.
  - reflexivity.
  - reflexivity.
Defined.
