(* ===== verification/UserQuery.v ===== *)
(** * The queries [users] and [user]

    [user args s] runs the resolver [user_resolve] of [Schema]
    ([src/schema/schema.js], lines 73-127) in a world whose store is in state
    [s]; [users s] runs [users_resolve] (lines 62-64).  [user_spec] lists the
    eight ways a run of [user] can go; the run is always one of them
    ([user_run]).  The properties of the query follow: it never changes the
    table, it sends one request at most and none when the stored name is
    there, it answers with a row of the table under a title-cased name, and a
    failure of the bank is logged and answered with [null]. *)

From S2P Require Import Prelude JsString Promise Types Matcher Store Paystack World Schema Exec.
From stdpp Require Import strings sets.

#[local] Set Warnings "-clear-no-such-hyp".

(** [user_cases_of H]: the eight cases of [H : user_spec args s o], under the
    names the proofs use. *)
Ltac user_cases_of H :=
  destruct H as [Hn|n Hn Hl|n d Hn Hl Hf|n Hn Hl Hf|n u Hn Hl Hf Hname
                |n u res Hn Hl Hf Hname Hr|n u resp Hn Hl Hf Hname Hr
                |n u Hn Hl Hf Hname Hr].

Section UserQuery.
Context {T : Type} {store : Store T} {bank : Bank} (key : option string).
Implicit Types (s : T) (args : user_args) (o : outcome T (option UserType)).

(** The runs of the resolvers. *)
Definition user args s : outcome T (option UserType) := run (user_resolve key args) s.

Definition users s : outcome T (list UserType) := run users_resolve s.

(** The filter of the lookup and the request of a run. *)
Definition user_where args (n : string) : where_clause :=
  WhereNumberAndBank n (q_user_bank_code args).

Definition user_request (u : UserType) : axios_options :=
  {| method := "GET";
     url := "https://api.paystack.co/bank/resolve";
     params := {| account_number := Some (user_account_number u);
                  bank_code := Some (user_bank_code u) |};
     Authorization := "Bearer " +:+ default "undefined" key |}.

(** The row [u] under the name [name] in title case. *)
Definition named (u : UserType) (name : string) : UserType :=
  mkUser (id_ u) (user_account_number u) (user_bank_code u)
         (Some (toTitleCase name)) (is_verified u).

(** The row [u] under its stored name, and under the name the bank resolved. *)
Definition stored_view (u : UserType) : UserType :=
  named u (default "" (user_account_name u)).

Definition resolved_view (u : UserType) (resolved : string) : UserType :=
  named u resolved.

(** A run whose request failed: the error is logged and the answer is [null]. *)
Definition user_unresolved args (n : string) (u : UserType) s (e : js_error)
  : outcome T (option UserType) :=
  Outcome [FindOne (user_where args n); Axios (user_request u); ConsoleError e] s (Ok None).

(** The eight ways a run can go. *)
Inductive user_spec args s : outcome T (option UserType) -> Prop :=
| User_no_number :
    q_user_account_number args = None ->
    user_spec args s (Outcome [] s (Err TypeError))
| User_bad_length n :
    q_user_account_number args = Some n -> js_length n <> 10 ->
    user_spec args s (Outcome [] s (Err (Error ACCOUNT_NUMBER_LENGTH_ERROR)))
| User_lookup_rejected n d :
    q_user_account_number args = Some n -> js_length n = 10 ->
    findOne s (user_where args n) = Err d ->
    user_spec args s (Outcome [FindOne (user_where args n)] s (Err (SequelizeError d)))
| User_missing n :
    q_user_account_number args = Some n -> js_length n = 10 ->
    findOne s (user_where args n) = Ok None ->
    user_spec args s
      (Outcome [FindOne (user_where args n)] s (Err (Error USER_DOESNT_EXIST)))
| User_named n u :
    q_user_account_number args = Some n -> js_length n = 10 ->
    findOne s (user_where args n) = Ok (Some u) ->
    truthy (user_account_name u) = true ->
    user_spec args s
      (Outcome [FindOne (user_where args n)] s (Ok (Some (stored_view u))))
| User_resolved n u resolved :
    q_user_account_number args = Some n -> js_length n = 10 ->
    findOne s (user_where args n) = Ok (Some u) ->
    truthy (user_account_name u) = false ->
    resolve (user_request u) = Ok (mkResponse (Some resolved)) ->
    user_spec args s
      (Outcome [FindOne (user_where args n); Axios (user_request u)] s
         (Ok (Some (resolved_view u resolved))))
| User_bank_rejected n u response :
    q_user_account_number args = Some n -> js_length n = 10 ->
    findOne s (user_where args n) = Ok (Some u) ->
    truthy (user_account_name u) = false ->
    resolve (user_request u) = Err response ->
    user_spec args s (user_unresolved args n u s (AxiosError response))
| User_no_name n u :
    q_user_account_number args = Some n -> js_length n = 10 ->
    findOne s (user_where args n) = Ok (Some u) ->
    truthy (user_account_name u) = false ->
    resolve (user_request u) = Ok (mkResponse None) ->
    user_spec args s (user_unresolved args n u s TypeError).

(** [title_cased x]: [x] is its own title-cased form. *)
Definition title_cased (x : option string) : Prop :=
  exists name, x = Some name /\ toTitleCase name = name.

(** * Theorems *)

(** ** The callbacks, one by one *)

Lemma resolve_options_user_request u :
  resolve_options key (Some (user_account_number u)) (Some (user_bank_code u)) =
  user_request u.
Proof. done. Qed.

Lemma with_name_named u name : with_name u (toTitleCase name) = named u name.
Proof. done. Qed.

Lemma run_user_on_error e s :
  run (user_on_error e) s = Outcome [ConsoleError e] s (Ok None).
Proof. unfold user_on_error. by exec. Qed.

Lemma run_user_on_response u r s :
  run (user_on_response u r) s =
  Outcome [] s
    match account_name r with
    | Some resolved => Ok (Some (resolved_view u resolved))
    | None => Err TypeError
    end.
Proof. unfold user_on_response. by destruct (account_name r). Qed.

Lemma run_user_found_none s :
  run (user_found key None) s = Outcome [] s (Err (Error USER_DOESNT_EXIST)).
Proof. done. Qed.

Lemma run_user_found_named u s :
  truthy (user_account_name u) = true ->
  run (user_found key (Some u)) s = Outcome [] s (Ok (Some (stored_view u))).
Proof. intros Hname. unfold user_found. by rewrite Hname. Qed.

Lemma run_user_found_unnamed u s :
  truthy (user_account_name u) = false ->
  run (user_found key (Some u)) s =
  after [Axios (user_request u)]
    match resolve (user_request u) with
    | Ok (mkResponse (Some resolved)) => Outcome [] s (Ok (Some (resolved_view u resolved)))
    | Ok (mkResponse None) => Outcome [ConsoleError TypeError] s (Ok None)
    | Err response => Outcome [ConsoleError (AxiosError response)] s (Ok None)
    end.
Proof.
  intros Hname. unfold user_found. rewrite Hname, resolve_options_user_request. exec.
  destruct (resolve (user_request u)) as [[[resolved|]]|response]; exec;
    rewrite ?run_user_on_response, ?run_user_on_error; by exec.
Qed.

(** ** The run is one of the eight cases *)

Lemma user_spec_sound args s o : user_spec args s o -> user args s = o.
Proof.
  unfold user, user_resolve, user_unresolved.
  intros Hspec; user_cases_of Hspec;
    try pose proof (checked_ok _ _ Hn Hl) as Hck;
    try pose proof (checked_bad_length _ _ Hn Hl) as Hck;
    unfold user_where in *; exec; try done.
  - by rewrite run_user_found_named.
  - rewrite run_user_found_unnamed, Hr by done. by exec.
  - rewrite run_user_found_unnamed, Hr by done. by exec.
  - rewrite run_user_found_unnamed, Hr by done. by exec.
Qed.

Lemma user_spec_total args s : exists o, user_spec args s o.
Proof.
  destruct (checked_cases (q_user_account_number args))
    as [[Hn _]|[(n & Hn & Hl & _)|(n & Hn & Hl & _)]]; [eauto using user_spec..|].
  destruct (findOne s (user_where args n)) as [[u|]|d] eqn:Hf;
    [|eauto using user_spec..].
  destruct (truthy (user_account_name u)) eqn:Hname; [eauto using user_spec|].
  destruct (resolve (user_request u)) as [[[res|]]|resp] eqn:Hr; eauto using user_spec.
Qed.

Lemma user_cases args s : user_spec args s (user args s).
Proof.
  destruct (user_spec_total args s) as [o Ho].
  by rewrite (user_spec_sound _ _ _ Ho).
Qed.

(** A run that answers a row found it by the lookup, and answers it under
    its stored name or under the name the bank resolved. *)
Lemma user_ok_inv args s r :
  value (user args s) = Ok (Some r) ->
  exists n u,
    q_user_account_number args = Some n /\ js_length n = 10 /\
    findOne s (user_where args n) = Ok (Some u) /\
    ((truthy (user_account_name u) = true /\ r = stored_view u) \/
     (truthy (user_account_name u) = false /\
      exists resolved, resolve (user_request u) = Ok (mkResponse (Some resolved)) /\
        r = resolved_view u resolved)).
Proof.
  user_cases_of (user_cases args s); simpl; try done.
  all: intros [= <-]; exists n, u; eauto 10.
Qed.

(** The run of [users]: one call, answered as the store answers. *)
Lemma users_run s : users s = Outcome [FindAll] s (from_store (findAll s)).
Proof. unfold users, users_resolve. exec. by destruct (findAll s). Qed.

(** A run calls no creation. *)
Lemma user_writes args s : writes (trace (user args s)) = [].
Proof.
  user_cases_of (user_cases args s); done.
Qed.

(** C3. Every run of [user] is one of the eight cases of [user_spec], and
    each case is a run: the calls made, the state left and the result are
    those of the case. *)
Theorem user_run args s o : user args s = o <-> user_spec args s o.
Proof.
  split; [|apply user_spec_sound].
  intros <-. apply user_cases.
Qed.

(** C36. The query reads only: the state after a run is the state before, no
    creation is called, and one request at most is sent to the bank. *)
Theorem user_read_only args s :
  final (user args s) = s /\ writes (trace (user args s)) = [] /\
  length (requests (trace (user args s))) <= 1.
Proof.
  user_cases_of (user_cases args s); simpl; split_and!; try done; cbn; lia.
Qed.

(** A number whose length is not 10 is refused before any call is made. *)
Lemma user_bad_length args s n :
  q_user_account_number args = Some n -> js_length n <> 10 ->
  user args s = Outcome [] s (Err (Error ACCOUNT_NUMBER_LENGTH_ERROR)).
Proof. intros Hn Hl. apply user_spec_sound. by eapply User_bad_length. Qed.

(** C28. A row with a stored name is answered from the table: the bank is not
    asked, and the name is the stored one in title case. *)
Theorem user_stored_name args s n u name :
  q_user_account_number args = Some n -> js_length n = 10 ->
  findOne s (user_where args n) = Ok (Some u) ->
  user_account_name u = Some name -> name <> "" ->
  user args s =
  Outcome [FindOne (user_where args n)] s (Ok (Some (named u name))).
Proof.
  intros Hn Hl Hf Hname Hne. apply user_spec_sound.
  replace (named u name) with (stored_view u)
    by (unfold stored_view; by rewrite Hname).
  eapply User_named; try done. rewrite Hname. apply truthy_spec. eauto.
Qed.

(** C25. A row without a stored name is resolved by the bank: exactly one
    request is sent, for the number and the bank code of the row, and the
    row is answered under the resolved name in title case. *)
Theorem user_resolved_name args s n u resolved :
  q_user_account_number args = Some n -> js_length n = 10 ->
  findOne s (user_where args n) = Ok (Some u) ->
  truthy (user_account_name u) = false ->
  resolve (user_request u) = Ok (mkResponse (Some resolved)) ->
  user args s =
  Outcome [FindOne (user_where args n); Axios (user_request u)] s
    (Ok (Some (named u resolved))) /\
  requests (trace (user args s)) = [Axios (user_request u)].
Proof.
  intros Hn Hl Hf Hname Hr.
  assert (user args s =
          Outcome [FindOne (user_where args n); Axios (user_request u)] s
            (Ok (Some (named u resolved)))) as ->; [|done].
  apply user_spec_sound. by eapply User_resolved.
Qed.

(** C26. A failure of the bank is swallowed: when the row has no stored name
    and the request is rejected, the error is logged and the query answers
    [null], not an error. *)
Theorem user_bank_failure_null args s n u response :
  q_user_account_number args = Some n -> js_length n = 10 ->
  findOne s (user_where args n) = Ok (Some u) ->
  truthy (user_account_name u) = false ->
  resolve (user_request u) = Err response ->
  user args s =
  Outcome [FindOne (user_where args n); Axios (user_request u);
           ConsoleError (AxiosError response)] s (Ok None).
Proof. intros Hn Hl Hf Hname Hr. apply user_spec_sound. by eapply User_bank_rejected. Qed.

(** C35. The errors of the query, each with the runs that raise it:
    [USER_DOESNT_EXIST] exactly when the number passed the check and the
    lookup answered that no row passes the filter;
    [ACCOUNT_NUMBER_LENGTH_ERROR] exactly for a number of another length; a
    [TypeError] exactly when the number is absent; a rejection of the model
    layer exactly when the lookup itself was rejected.  No other error
    leaves the query: a failure of the bank is not one. *)
Theorem user_errors args s :
  (value (user args s) = Err (Error USER_DOESNT_EXIST) <->
     exists n, q_user_account_number args = Some n /\ js_length n = 10 /\
       findOne s (user_where args n) = Ok None) /\
  (value (user args s) = Err (Error ACCOUNT_NUMBER_LENGTH_ERROR) <->
     exists n, q_user_account_number args = Some n /\ js_length n <> 10) /\
  (value (user args s) = Err TypeError <-> q_user_account_number args = None) /\
  (forall d, value (user args s) = Err (SequelizeError d) <->
     exists n, q_user_account_number args = Some n /\ js_length n = 10 /\
       findOne s (user_where args n) = Err d) /\
  (forall e, value (user args s) = Err e ->
     e = TypeError \/ (exists d, e = SequelizeError d) \/
     e ∈ Error <$> [ACCOUNT_NUMBER_LENGTH_ERROR; USER_DOESNT_EXIST]).
Proof.
  user_cases_of (user_cases args s); unfold user_unresolved; simpl.
  all: split_and!; intros; (split || idtac); set_unfold; naive_solver congruence.
Qed.

Section Laws.
Context {laws : StoreLaws T}.

(** C27. The row the query answers is a row of the table with the number and
    the bank code asked for: its identifier, number, bank code and flag are
    the stored ones, and its name is in title case. *)
Theorem user_answers_stored_row args s r :
  valid s -> value (user args s) = Ok (Some r) ->
  exists u, u ∈ rows s /\
    q_user_account_number args = Some (user_account_number u) /\
    q_user_bank_code args = Some (user_bank_code u) /\
    id_ r = id_ u /\ user_account_number r = user_account_number u /\
    user_bank_code r = user_bank_code u /\ is_verified r = is_verified u /\
    title_cased (user_account_name r).
Proof.
  intros Hs (n & u & Hn & _ & Hf & Hr)%user_ok_inv. exists u.
  apply findOne_found in Hf as [Hu Hm]; [|done].
  unfold user_where in Hm. simpl in Hm.
  destruct (q_user_bank_code args) as [b|]; [|done].
  apply andb_prop in Hm as [<-%bool_decide_eq_true <-%bool_decide_eq_true].
  assert (title_cased (user_account_name r)) as Ht.
  { destruct Hr as [[_ ->]|[_ (res & _ & ->)]]; eexists; (split; [done|]);
      apply title_from_idemp. }
  by destruct Hr as [[_ ->]|[_ (res & _ & ->)]].
Qed.

(** C29. A number no row of the table has is answered [USER_DOESNT_EXIST]
    when the lookup answers, without a request to the bank. *)
Theorem user_not_found args s n :
  valid s -> q_user_account_number args = Some n -> js_length n = 10 ->
  (forall u, u ∈ rows s -> user_account_number u <> n) ->
  is_ok (findOne s (user_where args n)) = true ->
  user args s = Outcome [FindOne (user_where args n)] s (Err (Error USER_DOESNT_EXIST)).
Proof.
  intros Hs Hn Hl Hfree Hok. apply user_spec_sound.
  destruct (findOne s (user_where args n)) as [[u|]|d] eqn:Hf; [| |done].
  - apply findOne_found in Hf as [Hu Hm%where_matches_number]; [|done].
    by destruct (Hfree u Hu).
  - by eapply User_missing.
Qed.

(** [users] answers the rows of the table, in their order, when the
    lookup answers, and leaves the table as it was. *)
Lemma users_all_rows s :
  valid s -> is_ok (findAll s) = true ->
  users s = Outcome [FindAll] s (Ok (rows s)).
Proof.
  intros Hs Hok. rewrite users_run.
  destruct (findAll s) as [l|d] eqn:Hf; [|done].
  by rewrite (findAll_rows s l Hs Hf).
Qed.

End Laws.

End UserQuery.

(** * The theorems at work in the example world *)

Lemma user_bad_length_witness :
  user (bank := example_bank) example_key example_digits example_table =
  Outcome [] example_table (Err (Error ACCOUNT_NUMBER_LENGTH_ERROR)).
Proof. apply (user_bad_length _ _ _ "123"); [reflexivity|vm_compute; lia]. Defined.

Lemma user_stored_name_witness :
  user (bank := example_bank) example_key example_named example_table =
  Outcome [FindOne (user_where example_named "0123456789")] example_table
    (Ok (Some (mkUser 1 "0123456789" "058" (Some "John Doe") true))).
Proof.
  apply (user_stored_name (bank := example_bank) example_key example_named example_table
           "0123456789" (mkUser 1 "0123456789" "058" (Some "john doe") true) "john doe");
    [reflexivity..|discriminate].
Defined.

Lemma user_resolved_name_witness :
  user (bank := example_bank) example_key example_unnamed example_table =
  Outcome [FindOne (user_where example_unnamed "1111111111");
           Axios (user_request example_key (mkUser 2 "1111111111" "044" None false))]
    example_table (Ok (Some (mkUser 2 "1111111111" "044" (Some "Alice Smith") false))) /\
  requests (trace (user (bank := example_bank) example_key example_unnamed example_table)) =
  [Axios (user_request example_key (mkUser 2 "1111111111" "044" None false))].
Proof.
  apply (user_resolved_name (bank := example_bank) example_key example_unnamed
           example_table "1111111111" (mkUser 2 "1111111111" "044" None false)
           "Alice Smith"); reflexivity.
Defined.

Lemma user_bank_failure_null_witness :
  user (bank := offline) example_key example_unnamed example_table =
  Outcome [FindOne (user_where example_unnamed "1111111111");
           Axios (user_request example_key (mkUser 2 "1111111111" "044" None false));
           ConsoleError (AxiosError None)] example_table (Ok None).
Proof. apply (user_bank_failure_null (bank := offline)); reflexivity. Defined.

Lemma user_answers_stored_row_witness :
  exists u, u ∈ rows example_table /\
    q_user_account_number example_unnamed = Some (user_account_number u) /\
    q_user_bank_code example_unnamed = Some (user_bank_code u) /\
    id_ (mkUser 2 "1111111111" "044" (Some "Alice Smith") false) = id_ u /\
    "1111111111" = user_account_number u /\ "044" = user_bank_code u /\
    false = is_verified u /\ title_cased (Some "Alice Smith").
Proof.
  apply (user_answers_stored_row (bank := example_bank) example_key example_unnamed
           example_table (mkUser 2 "1111111111" "044" (Some "Alice Smith") false)).
  - apply example_table_constraints.
  - vm_compute. reflexivity.
Defined.

Lemma user_not_found_witness :
  user (bank := example_bank) example_key example_missing example_table =
  Outcome [FindOne (user_where example_missing "5555555555")] example_table
    (Err (Error USER_DOESNT_EXIST)).
Proof.
  apply (user_not_found (bank := example_bank) example_key (laws := table_laws));
    [apply example_table_constraints|reflexivity..| |reflexivity].
  intros u Hu. repeat (apply elem_of_cons in Hu as [->|Hu]; [discriminate|]).
  by apply elem_of_nil in Hu.
Defined.

Lemma users_all_rows_witness :
  users (bank := example_bank) example_table =
  Outcome [FindAll] example_table (Ok (rows example_table)).
Proof.
  apply (users_all_rows (laws := table_laws));
    [apply example_table_constraints|reflexivity].
Defined.
