(* ===== verification/Service.v ===== *)
(** * The service: requests served one after another

    [serve op s] runs the resolver the schema of [src/schema/schema.js]
    (lines 224-227) gives the root field [op], in a world whose store is in
    state [s].  The states the service goes through are those [reachable]
    from the first by serving requests in sequence; [serve_all] computes
    them.  The theorems here are about every such state: the table keeps
    each account number and each identifier once, rows are appended and
    never changed or removed, queries change nothing, and an account that
    [addUser] created is the one [user] answers afterwards. *)

From S2P Require Import Prelude JsString Promise Types Matcher Store Paystack World Schema Exec.
From S2P Require Import AddUser UserQuery.
From stdpp Require Import strings.

Section Service.
Context {T : Type} {store : Store T} {bank : Bank} (key : option string).
Implicit Types (s : T) (op : operation).

(** One request. *)
Definition serve op s : outcome T field_value := run (schema key op) s.

(** The state after the requests [ops], served in order. *)
Fixpoint serve_all (ops : list operation) s : T :=
  match ops with
  | [] => s
  | op :: ops => serve_all ops (final (serve op s))
  end.

(** The states the service reaches from [s0]. *)
Inductive reachable (s0 : T) : T -> Prop :=
| reachable_start : reachable s0 s0
| reachable_serve s op : reachable s0 s -> reachable s0 (final (serve op s)).

(** What the table keeps: its own validity, and each account number and
    each identifier once. *)
Definition invariant s : Prop := valid s /\ unique_numbers s /\ unique_ids s.

(** The account number a request carries. *)
Definition number_of op : option string :=
  match op with
  | Query Q_users => None
  | Query (Q_user args) => q_user_account_number args
  | Mutation (M_addUser args) => m_user_account_number args
  end.

(** The query that reads back the row [u]. *)
Definition read_back (u : UserType) : user_args :=
  mkUserArgs (Some (user_account_number u)) (Some (user_bank_code u)).

(** * Theorems *)

(** ** A request is a run of its resolver *)

Lemma serve_users s : serve (Query Q_users) s = answer_with UserList (users s).
Proof. unfold serve, users, schema. by rewrite run_then, continue_resolved. Qed.

Lemma serve_user args s :
  serve (Query (Q_user args)) s = answer_with UserOrNull (user key args s).
Proof. unfold serve, user, schema. by rewrite run_then, continue_resolved. Qed.

Lemma serve_addUser args s :
  serve (Mutation (M_addUser args)) s =
  answer_with (fun u => UserOrNull (Some u)) (addUser key args s).
Proof.
  unfold serve, addUser, schema.
  by rewrite run_then, (continue_resolved _ (fun u => UserOrNull (Some u))).
Qed.

Lemma serve_query_writes q s : writes (trace (serve (Query q) s)) = [].
Proof.
  destruct q as [|args].
  - by rewrite serve_users, users_run.
  - rewrite serve_user. apply user_writes.
Qed.

Lemma reachable_trans s0 s1 s2 : reachable s0 s1 -> reachable s1 s2 -> reachable s0 s2.
Proof. intros H1 H2. induction H2; [done|by constructor]. Qed.

Lemma serve_all_app ops1 ops2 s :
  serve_all (ops1 ++ ops2) s = serve_all ops2 (serve_all ops1 s).
Proof. revert s. induction ops1 as [|op ops1 IH]; intros s; simpl; [done|apply IH]. Qed.

Lemma serve_all_reachable ops s : reachable s (serve_all ops s).
Proof.
  revert s. induction ops as [|op ops IH]; intros s; simpl; [constructor|].
  eapply reachable_trans; [|apply IH]. repeat constructor.
Qed.

(** C18. Queries read only: whatever the query and whatever the store and
    the bank answer, the state after it is the state before. *)
Theorem serve_query_read_only q s : final (serve (Query q) s) = s.
Proof. unfold serve. apply run_no_create, serve_query_writes. Qed.

(** The states reached are the states computed: [s] is reachable from
    [s0] exactly when some sequence of requests, served in order from [s0],
    ends in [s]. *)
Theorem reachable_serve_all s0 s :
  reachable s0 s <-> exists ops, serve_all ops s0 = s.
Proof.
  split.
  - induction 1 as [|s op _ [ops <-]]; [by exists []|].
    exists (ops ++ [op]). by rewrite serve_all_app.
  - intros [ops <-]. apply serve_all_reachable.
Qed.

(** C32. A request whose account number has a length other than 10, query or
    mutation, fails with [ACCOUNT_NUMBER_LENGTH_ERROR] before any call is
    made: nothing is looked up, nothing is requested from the bank, and the
    state is the one before. *)
Theorem serve_bad_length op s n :
  number_of op = Some n -> js_length n <> 10 ->
  serve op s = Outcome [] s (Err (Error ACCOUNT_NUMBER_LENGTH_ERROR)).
Proof.
  intros Hn Hl. destruct op as [[|args]|[args]]; simpl in Hn; [done| |].
  - by rewrite serve_user, (user_bad_length _ _ _ n).
  - by rewrite serve_addUser, (addUser_bad_length _ _ _ n).
Qed.

(** A request that passes the check of its number and reaches a model layer
    that rejects its lookup fails with that rejection itself, after the
    lookup alone: neither resolver catches it. *)
Lemma serve_lookup_rejected op s d :
  findAll s = Err d -> (forall w, findOne s w = Err d) ->
  (op = Query Q_users \/ exists n, number_of op = Some n /\ js_length n = 10) ->
  value (serve op s) = Err (SequelizeError d) /\ final (serve op s) = s /\
  length (trace (serve op s)) = 1.
Proof.
  intros Hall Hone [->|(n & Hn & Hl)].
  - by rewrite serve_users, users_run, Hall.
  - destruct op as [[|args]|[args]]; simpl in Hn; [done| |].
    + rewrite serve_user.
      by rewrite (user_spec_sound key args s _
                    (User_lookup_rejected key args s n d Hn Hl (Hone _))).
    + rewrite serve_addUser.
      by rewrite (addUser_spec_sound key args s _
                    (AddUser_lookup_rejected key args s n d Hn Hl (Hone _))).
Qed.

Section Laws.
Context {laws : StoreLaws T}.

Lemma serve_valid op s : valid s -> valid (final (serve op s)).
Proof. intros Hs. apply (run_preserved valid); [apply valid_preserved|done]. Qed.

(** A request leaves the rows as they were or appends one row, under a
    number and an identifier no row had. *)
Lemma serve_rows op s :
  valid s ->
  rows (final (serve op s)) = rows s \/
  exists u, rows (final (serve op s)) = rows s ++ [u] /\
    (user_account_number u ∉ (user_account_number <$> rows s)) /\
    id_ u ∉ (id_ <$> rows s).
Proof.
  intros Hs. destruct op as [q|[args]].
  - left. unfold serve. by rewrite run_no_create by apply serve_query_writes.
  - rewrite serve_addUser. simpl.
    destruct (value (addUser key args s)) as [u|e] eqn:Hv.
    + right. exists u. by apply addUser_ok_rows.
    + left. by eapply addUser_err_rows.
Qed.

Lemma serve_invariant op s : invariant s -> invariant (final (serve op s)).
Proof.
  intros (Hs & Hn & Hi). split; [by apply serve_valid|].
  unfold unique_numbers, unique_ids.
  destruct (serve_rows op s Hs) as [->|(u & -> & Hnum & Hid)]; [done|].
  split; by apply unique_on_fresh.
Qed.

(** C2. Every state the service reaches from a table that is valid and
    holds each account number and each identifier once is such a table:
    no sequence of requests stores an account number twice. *)
Theorem reachable_invariant s0 s :
  invariant s0 -> reachable s0 s -> invariant s.
Proof.
  intros H0 Hr. induction Hr as [|s op _ IH]; [done|]. by apply serve_invariant.
Qed.

(** Rows are appended only: the rows of the first state are the first
    rows of every state reached from it, unchanged and in their order. *)
Lemma reachable_rows_prefix s0 s :
  valid s0 -> reachable s0 s -> valid s /\ rows s0 `prefix_of` rows s.
Proof.
  intros H0 Hr. induction Hr as [|s op _ [Hs IH]]; [done|].
  split; [by apply serve_valid|].
  destruct (serve_rows op s Hs) as [->|(u & -> & _)]; [done|].
  by apply prefix_app_r.
Qed.

(** C17. What [addUser] created, [user] answers: after a run of [addUser]
    that returned the row [u] for a claimed name that is not empty, the
    query for [u]'s number and bank code answers [u] under the claimed name
    in title case, from the table and without a request to the bank. *)
Theorem addUser_then_user args s u name :
  invariant s -> value (addUser key args s) = Ok u ->
  m_user_account_name args = Some name -> name <> "" ->
  let s' := final (addUser key args s) in
  is_ok (findOne s' (user_where (read_back u) (user_account_number u))) = true ->
  user key (read_back u) s' =
  Outcome [FindOne (user_where (read_back u) (user_account_number u))] s'
    (Ok (Some (named u name))).
Proof.
  intros Hinv Hv Hname Hne s' Hok.
  pose proof (serve_invariant (Mutation (M_addUser args)) s Hinv) as (Hs' & Hnum' & _).
  rewrite serve_addUser in Hs', Hnum'. simpl in Hs', Hnum'. fold s' in Hs', Hnum'.
  destruct Hinv as (Hs & _ & _).
  destruct (addUser_ok_rows key _ _ _ Hs Hv) as (Hrows & _ & _). fold s' in Hrows.
  apply addUser_ok_inv in Hv as (n & nm & res & Hn & Hl & _ & _ & Hnm & Hc & _).
  apply create_ok in Hc as (_ & (Hun & _ & Huname & _) & _); [|done].
  simpl in Hun, Huname.
  assert (u ∈ rows s') as Hu by (rewrite Hrows, elem_of_app, list_elem_of_singleton; by right).
  apply user_spec_sound.
  replace (named u name) with (stored_view u)
    by (unfold stored_view; rewrite Huname; simpl; congruence).
  destruct (findOne s' _) as [[u'|]|d] eqn:Hf; [| |done].
  - destruct (findOne_found s' _ u' Hs' Hf) as [Hu' Hm%where_matches_number].
    assert (u' = u) as -> by (by eapply (unique_on_lookup user_account_number)).
    eapply User_named; [done|simpl; congruence|done|].
    rewrite Huname. apply truthy_spec. exists nm. split; congruence.
  - pose proof (findOne_missing s' _ u Hs' Hf Hu) as Hm.
    pose proof (where_matches_self u) as Hself.
    unfold user_where, read_back in Hm. simpl in Hm, Hself. congruence.
Qed.

End Laws.

End Service.

(** * The theorems at work in the example world *)

Lemma serve_bad_length_witness :
  serve (bank := example_bank) example_key (Mutation (M_addUser example_short))
    example_table =
  Outcome [] example_table (Err (Error ACCOUNT_NUMBER_LENGTH_ERROR)).
Proof. apply (serve_bad_length _ _ _ "12345"); [reflexivity|vm_compute; lia]. Defined.

Lemma reachable_invariant_witness :
  invariant (serve_all (bank := example_bank) example_key example_session example_table).
Proof.
  apply (reachable_invariant (bank := example_bank) example_key example_table).
  - split_and!; apply example_table_constraints.
  - apply serve_all_reachable.
Defined.

Lemma reachable_rows_prefix_witness :
  valid (serve_all (bank := example_bank) example_key example_session example_table) /\
  rows example_table `prefix_of`
    rows (serve_all (bank := example_bank) example_key example_session example_table).
Proof.
  apply (reachable_rows_prefix (bank := example_bank) example_key example_table).
  - apply example_table_constraints.
  - apply serve_all_reachable.
Defined.

Lemma addUser_then_user_witness :
  user (bank := example_bank) example_key (read_back example_row)
    (final (addUser (bank := example_bank) example_key example_new example_table)) =
  Outcome [FindOne (user_where (read_back example_row) "2222222222")]
    (final (addUser (bank := example_bank) example_key example_new example_table))
    (Ok (Some example_row)).
Proof.
  apply (addUser_then_user (bank := example_bank) example_key example_new example_table
           example_row "Mary Anne Okoro").
  - split_and!; apply example_table_constraints.
  - vm_compute. reflexivity.
  - reflexivity.
  - discriminate.
  - vm_compute. reflexivity.
Defined.

(** Without its database the model layer rejects every lookup, and every
    request that passes the check fails with [ConnectionError]. *)
Example serve_store_down :
  Forall (fun op =>
            value (serve (store := down_store) (bank := example_bank) example_key op
                     example_table)
            = Err (SequelizeError ConnectionError))
    [Query Q_users; Query (Q_user example_named); Mutation (M_addUser example_new)].
Proof.
  apply Forall_forall. intros op Hop.
  apply (serve_lookup_rejected (store := down_store) (bank := example_bank)); [done..|].
  repeat (apply elem_of_cons in Hop as [->|Hop]); [by left|right..|by apply elem_of_nil in Hop].
  - by exists "0123456789".
  - by exists "2222222222".
Qed.
