(* ===== verification/Concurrent.v ===== *)
(** * Requests served at once

    The resolvers of [src/schema/schema.js] hold no lock and open no
    transaction: between the lookup of [addUser] (line 156) and its creation
    (lines 186 and 195) other requests make their calls.  Here the requests
    are chains in one [pool] of [Scheduler] and take turns in any order.

    The theorem: queries change nothing in any interleaving.  The lemmas
    and examples the later files use: serving requests one after another is
    one of the interleavings; rows are only appended; the table keeps each
    account number once in every interleaving because the store refuses
    duplicates itself ([Constrained]) -- on a store that obeys the laws
    without that constraint, two requests for one number both pass the
    lookup and both rows are stored ([race_without_constraint]). *)

From S2P Require Import Prelude JsString Promise Scheduler Types Matcher Store Paystack.
From S2P Require Import World Schema Exec AddUser UserQuery Service.
From stdpp Require Import strings.

Section Concurrent.
Context {T : Type} {store : Store T} {bank : Bank} (key : option string).
Implicit Types (s : T) (op : operation) (c : pool (W := T) field_value).

(** The requests [ops], all in flight in the state [s]. *)
Definition arrive (ops : list operation) s : pool (W := T) field_value :=
  Pool (schema key <$> ops) s.

(** The answers of the requests, [None] for one that has not settled. *)
Definition answers c : list (option (result js_error field_value)) :=
  result_of <$> tasks c.

(** The outcomes of the requests served one after another. *)
Fixpoint serve_each (ops : list operation) s : list (outcome T field_value) :=
  match ops with
  | [] => []
  | op :: ops => serve key op s :: serve_each ops (final (serve key op s))
  end.

Definition is_query op : bool :=
  match op with
  | Query _ => true
  | Mutation _ => false
  end.

End Concurrent.

(** Two requests to create the same account, and the schedule in which both
    look the number up before either creates it. *)
Definition race_requests : list operation :=
  [Mutation (M_addUser example_new); Mutation (M_addUser example_new)].

Definition race_turns : list nat := [0; 1; 0; 1; 0; 1; 1; 1].

(** The example bank with the table without its unique index, and with the
    table. *)
Definition bag_world : Responder table := @schema_responder table bag_store example_bank.

Definition table_world : Responder table := @schema_responder table table_store example_bank.

Definition race_start : pool (W := table) field_value :=
  arrive example_key race_requests example_table.

(** * Theorems *)

Section ConcurrentFacts.
Context {T : Type} {store : Store T} {bank : Bank} (key : option string).
Implicit Types (s : T) (op : operation) (c : pool (W := T) field_value).

(** ** The chains of the queries call no creation *)

Lemma check_account_number_avoids P number : avoids P (check_account_number number).
Proof.
  unfold check_account_number. destruct number as [n|]; [|constructor].
  case_bool_decide; constructor.
Qed.

(** The callback of the lookup of [user] makes no call to the model layer. *)
Lemma user_found_avoids P u :
  (forall x, is_store x = false -> P x = false) -> avoids P (user_found key u).
Proof.
  intros HP. unfold user_found, user_on_response, user_on_error, console_error.
  destruct u as [u|]; [|constructor]. destruct (truthy _); [constructor|].
  apply avoids_catch; [apply avoids_then|]; intros; [auto with chain| |auto with chain].
  destruct (account_name _); constructor.
Qed.

Lemma user_resolve_avoids args : avoids is_create (user_resolve key args).
Proof.
  unfold user_resolve. apply avoids_then; [apply check_account_number_avoids|].
  intros n. apply avoids_then; [auto with chain|].
  intros u. apply user_found_avoids. by intros [].
Qed.

(** The handler of the failures of [addUser] calls the console only. *)
Lemma addUser_on_error_avoids P e :
  (forall x, is_console x = true -> P x = false) -> avoids P (addUser_on_error e).
Proof.
  intros HP. unfold addUser_on_error, console_error, console_log.
  do 2 (constructor; [by apply HP| |]); intros;
    destruct (is_invalid_bank_details e) as [[]|]; constructor.
Qed.

Lemma schema_query_avoids op : is_query op = true -> avoids is_create (schema key op).
Proof.
  destruct op as [[|args]|m]; [| |done]; intros _; unfold schema.
  - apply avoids_then; [by apply (avoids_perform (E := schema_effects) is_create FindAll)|].
    auto with chain.
  - eauto using user_resolve_avoids with chain.
Qed.

(** ** Steps and the world *)

Lemma steps_no_create c c' tr :
  steps c tr c' -> Forall (fun e => is_create e = false) tr -> world c' = world c.
Proof.
  induction 1 as [|c1 e c2 tr c3 Hs _ IH]; [done|].
  intros [He Htr]%Forall_cons. rewrite IH by done.
  rewrite (step_world _ _ _ Hs). by apply (respond_unchanged e).
Qed.

Lemma serve_each_length ops s : length (serve_each key ops s) = length ops.
Proof. revert s. induction ops as [|op ops IH]; intros s; simpl; [done|by rewrite IH]. Qed.

(** Serving the requests that wait behind [done] settled ones. *)
Lemma steps_serve_each (done : list (promise field_value)) ops s :
  steps (Pool (done ++ (schema key <$> ops)) s)
        (concat (trace <$> serve_each key ops s))
        (Pool (done ++ ((fun o => of_result (value o)) <$> serve_each key ops s))
              (serve_all key ops s)).
Proof.
  revert done s. induction ops as [|op ops IH]; intros done s; csimpl; [constructor|].
  eapply (steps_app (E := schema_effects)).
  - apply (steps_run (length done)). by rewrite lookup_app_r, Nat.sub_diag.
  - rewrite insert_app_r_alt, Nat.sub_diag by done. simpl.
    rewrite !(cons_middle _ done), !app_assoc. apply IH.
Qed.

(** Every sequence of turns is a sequence of steps. *)
Lemma turn_steps i c : exists tr, steps c tr (turn i c).
Proof.
  destruct (tasks c !! i ≫= next_call) as [e|] eqn:He.
  - exists [e]. econstructor; [by constructor|constructor].
  - exists []. replace (turn i c) with c; [constructor|].
    destruct (tasks c !! i) as [p|] eqn:Hp; simpl in He.
    + symmetry. eapply turn_world_settled; [done|]. by apply next_call_settled.
    + unfold turn. by rewrite Hp.
Qed.

Lemma schedule_steps turns c : exists tr, steps c tr (schedule turns c).
Proof.
  revert c. induction turns as [|i turns IH]; intros c; simpl.
  - exists []. constructor.
  - destruct (turn_steps i c) as [tr1 H1]. destruct (IH (turn i c)) as [tr2 H2].
    exists (tr1 ++ tr2). by eapply steps_app.
Qed.

(** A request makes five calls at most. *)
Lemma serve_calls op s : length (trace (serve key op s)) <= 5.
Proof.
  destruct op as [[|args]|[args]].
  - rewrite serve_users, users_run. simpl. lia.
  - rewrite serve_user. simpl. user_cases_of (user_cases key args s); simpl; lia.
  - rewrite serve_addUser. simpl. addUser_cases_of (addUser_cases key args s); simpl; lia.
Qed.

(** Every request settles: a request that is given five turns, or more,
    has made all its calls and has settled with the answer of its
    sequential run, whatever the store and the bank answer; the other
    requests in flight are where they were. *)
Lemma request_settles ops s i op n :
  ops !! i = Some op -> 5 <= n ->
  schedule (replicate n i) (arrive key ops s) =
  Pool (<[i := of_result (value (serve key op s))]> (tasks (arrive key ops s)))
       (final (serve key op s)).
Proof.
  intros Hi Hn. apply schedule_run.
  - simpl. by rewrite list_lookup_fmap, Hi.
  - pose proof (serve_calls op s). unfold serve in *. lia.
Qed.

(** C30. Queries change nothing in any interleaving: when every request in
    flight is a query, no step calls a creation and the state stays the
    one the requests arrived in. *)
Theorem queries_interleaved_read_only ops s tr c' :
  forallb is_query ops = true -> steps (arrive key ops s) tr c' ->
  world c' = s /\ writes tr = [].
Proof.
  intros Hq Hs.
  assert (Forall (avoids is_create) (tasks (arrive key ops s))) as Hav.
  { simpl. apply Forall_fmap, Forall_forall. intros op Hop. simpl.
    apply schema_query_avoids.
    rewrite forallb_forall in Hq. by apply Hq, list_elem_of_In. }
  destruct (steps_avoid (E := schema_effects) is_create _ _ _ Hav Hs) as [Htr _]. split.
  - by rewrite (steps_no_create _ _ _ Hs Htr).
  - by apply writes_nil.
Qed.

Section Laws.
Context {laws : StoreLaws T}.

(** Rows are appended only, in every interleaving: whatever requests are
    in flight and however their calls interleave, the rows of the first
    state are the first rows of the state reached. *)
Lemma interleaved_rows_prefix ops s tr c' :
  valid s -> steps (arrive key ops s) tr c' ->
  valid (world c') /\ rows s `prefix_of` rows (world c').
Proof.
  intros Hs Hst.
  apply (steps_preserved (fun s' => valid s' /\ rows s `prefix_of` rows s') _ _ _)
    in Hst; [done| |done].
  intros w e [Hw Hpre]. change (respond w e) with (schema_respond w e).
  split; [by apply valid_preserved|].
  destruct (respond_rows w e Hw) as [Hr|(v & u & _ & _ & Hr & _)];
    simpl in *; rewrite Hr; [done|by apply prefix_app_r].
Qed.

Context {constrained : Constrained T}.

Lemma respond_invariant s e : invariant s -> invariant (schema_respond s e).1.
Proof.
  intros (Hs & Hn & Hi). split; [by apply valid_preserved|].
  unfold unique_numbers, unique_ids.
  destruct (respond_rows s e Hs) as [->|(v & u & -> & Hc & -> & _)]; [done|].
  split; apply unique_on_fresh; try done.
  - by eapply create_unique.
  - by apply create_ok in Hc as (_ & _ & Hid).
Qed.

(** With the storage-level constraint, the table holds each account number
    and each identifier once in every interleaving, whatever the chains
    in flight do: the constraint, not the resolvers, keeps the numbers
    unique when requests interleave. *)
Lemma interleaved_invariant ops s tr c' :
  invariant s -> steps (arrive key ops s) tr c' -> invariant (world c').
Proof.
  intros Hs Hst.
  by apply (steps_preserved (E := schema_effects) invariant _ _ _ respond_invariant) in Hst.
Qed.

End Laws.

End ConcurrentFacts.

(** ** The race of two creations *)

(** The lookup before the creation does not keep the account numbers
    unique when requests interleave: on a store that obeys the laws of a
    store but has no unique index, the two requests both pass the lookup,
    both succeed, and the table ends with the number stored twice. *)
Example race_without_constraint :
  exists tr c,
    @steps schema_effects table bag_world field_value race_start tr c /\
    answers c =
      [Some (Ok (UserOrNull (Some example_row)));
       Some (Ok (UserOrNull
         (Some (mkUser 4 "2222222222" "033" (Some "Mary Anne Okoro") true))))] /\
    ~ @unique_numbers table bag_store (world c).
Proof.
  destruct (@schedule_steps table bag_store example_bank race_turns race_start)
    as [tr Htr].
  eexists tr, _. split; [exact Htr|]. split; [vm_compute; reflexivity|].
  unfold unique_numbers, unique_on. vm_compute. intros Hnd.
  apply NoDup_ListNoDup in Hnd.
  do 2 (apply List.NoDup_cons_iff in Hnd as [_ Hnd]).
  apply List.NoDup_cons_iff in Hnd as [Hin _]. apply Hin. simpl. auto.
Qed.

(** On the table with its unique index the same schedule stores one row:
    the creation of the second request is refused by the table, and that
    request fails with [SERVER_ERROR], not with [USER_ALREADY_EXISTS]. *)
Example race_with_constraint :
  answers (@schedule schema_effects table table_world field_value race_turns race_start) =
    [Some (Ok (UserOrNull (Some example_row))); Some (Err (Error SERVER_ERROR))] /\
  rows (world (@schedule schema_effects table table_world field_value race_turns race_start)) =
    rows example_table ++ [example_row].
Proof. split; vm_compute; reflexivity. Qed.

(** * The theorems at work in the example world *)

Lemma request_settles_witness :
  schedule (Responder0 := table_world) (replicate 5 1) race_start =
  Pool (<[1 := of_result (value (serve (bank := example_bank) example_key
                                   (Mutation (M_addUser example_new)) example_table))]>
          (tasks race_start))
       (final (serve (bank := example_bank) example_key
                 (Mutation (M_addUser example_new)) example_table)).
Proof.
  apply (request_settles (bank := example_bank) example_key race_requests example_table
           1 (Mutation (M_addUser example_new)) 5); [reflexivity|lia].
Defined.

Lemma queries_interleaved_read_only_witness :
  serve_all (bank := example_bank) example_key example_queries example_table =
    example_table /\
  writes (concat (trace <$>
    serve_each (bank := example_bank) example_key example_queries example_table)) = [].
Proof.
  apply (queries_interleaved_read_only (bank := example_bank) example_key
           example_queries example_table _
           (Pool ((fun o => of_result (value o)) <$>
                    serve_each (bank := example_bank) example_key example_queries
                      example_table)
                 (serve_all (bank := example_bank) example_key example_queries
                    example_table))).
  - reflexivity.
  - apply (steps_serve_each example_key []).
Defined.

Lemma interleaved_rows_prefix_witness :
  valid (world (@schedule schema_effects table table_world field_value race_turns race_start)) /\
  rows example_table `prefix_of`
    rows (world (@schedule schema_effects table table_world field_value race_turns race_start)).
Proof.
  destruct (@schedule_steps table table_store example_bank race_turns race_start)
    as [tr Htr].
  apply (interleaved_rows_prefix (bank := example_bank) example_key race_requests
           example_table tr _).
  - apply example_table_constraints.
  - exact Htr.
Defined.
