(* ===== verification/Liveness.v ===== *)
(** * Every request is answered

    The resolvers of [src/schema/schema.js] wait for their collaborators and
    for nothing else: a chain never waits for another chain.  So a request
    is answered as soon as its own calls have been answered, whatever other
    requests are in flight and however the calls interleave.

    [calls_bound] counts the calls on the longest path of each resolver:
    [users] makes its lookup; [user] the lookup, the request to the bank and
    [console.error] when the request fails; [addUser] the lookup, the
    request, the creation and, when the creation is refused,
    [console.error] and [console.log].  With these bounds the results of
    [Progress] give: every interleaving of the requests [ops] makes
    [budget ops] calls at most; from wherever an interleaving stands it can
    go on, and every way of going on ends with all requests answered; a
    request that gets as many turns as its bound is answered and keeps its
    answer.

    No timeout is set for the request to the bank (lines 111 and 177): a
    bank that hangs never answers.  The interleavings in which the bank
    hangs are those that make no request to it.  Both resolvers keep the
    creation behind the request ([schema_guarded]), so in these
    interleavings nothing is stored, the requests that need the bank wait
    for ever, and the others are answered as if they were alone
    ([bank_hangs], [bank_hangs_for_its_requests_only]). *)

From S2P Require Import Prelude JsString Promise Scheduler Progress Types Matcher Store.
From S2P Require Import Paystack World Schema Exec AddUser UserQuery Service Concurrent.
From stdpp Require Import strings relations.

Local Open Scope promise_scope.

(** The calls a request makes at most. *)
Definition calls_bound (op : operation) : nat :=
  match op with
  | Query Q_users => 1
  | Query (Q_user _) => 3
  | Mutation (M_addUser _) => 5
  end.

(** The calls the requests [ops] make at most, all together. *)
Definition budget (ops : list operation) : nat := sum_list (calls_bound <$> ops).

(** All requests of the pool have their answer. *)
Definition answered {T} (c : pool (W := T) field_value) : Prop :=
  Forall is_Some (answers c).

(** What a request is answered when the bank hangs: the answer of its run
    alone when that run asks the bank nothing, and nothing otherwise. *)
Definition unless_bank {T} {store : Store T} {bank : Bank} (key : option string)
    (op : operation) (s : T) : option (result js_error field_value) :=
  if decide (requests (trace (serve key op s)) = [])
  then Some (value (serve key op s)) else None.

(** * Theorems *)

Section Liveness.
Context {T : Type} {store : Store T} {bank : Bank} (key : option string).
Implicit Types (s : T) (op : operation) (c : pool (W := T) field_value).

(** ** The bounds of the resolvers *)

Lemma check_account_number_within number : within 0 (check_account_number number).
Proof.
  unfold check_account_number. destruct number as [n|]; [|constructor].
  case_bool_decide; constructor.
Qed.

Lemma console_error_within {A} n e (next : promise A) :
  within n next -> within (S n) (console_error e next).
Proof. intros Hn. by constructor. Qed.

Lemma console_log_within {A} n (next : promise A) :
  within n next -> within (S n) (console_log next).
Proof. intros Hn. by constructor. Qed.

Lemma user_found_within u : within 2 (user_found key u).
Proof.
  unfold user_found. destruct u as [u|]; [|constructor].
  destruct (truthy _); [constructor|].
  apply (within_catch 1 1).
  - apply (within_then 1 0); [apply within_perform|].
    intros r. unfold user_on_response. destruct (account_name r); constructor.
  - intros e. apply console_error_within. constructor.
Qed.

Lemma user_resolve_within args : within 3 (user_resolve key args).
Proof.
  unfold user_resolve. apply (within_then 0 3); [apply check_account_number_within|].
  intros n. apply (within_then 1 2); [apply within_perform|apply user_found_within].
Qed.

Lemma addUser_on_response_within args n r : within 1 (addUser_on_response args n r).
Proof.
  unfold addUser_on_response.
  destruct (account_name r), (m_user_account_name args); try constructor.
  destruct (_ <=? _); apply (within_then 1 0); try apply within_perform;
    intros u; constructor.
Qed.

Lemma addUser_on_error_within e : within 2 (addUser_on_error e).
Proof.
  unfold addUser_on_error. apply console_error_within, console_log_within.
  destruct (is_invalid_bank_details e) as [[]|]; constructor.
Qed.

Lemma addUser_lookup_within args n u : within 4 (addUser_lookup key args n u).
Proof.
  unfold addUser_lookup. destruct u as [u|]; [constructor|].
  apply (within_catch 2 2); [|apply addUser_on_error_within].
  apply (within_then 1 1); [apply within_perform|apply addUser_on_response_within].
Qed.

Lemma addUser_resolve_within args : within 5 (addUser_resolve key args).
Proof.
  unfold addUser_resolve. apply (within_then 0 5); [apply check_account_number_within|].
  intros n. apply (within_then 1 4); [apply within_perform|apply addUser_lookup_within].
Qed.

Lemma schema_within op : within (calls_bound op) (schema key op).
Proof.
  destruct op as [[|args]|[args]]; unfold schema.
  - apply (within_then 1 0); [apply (within_perform (E := schema_effects) FindAll)|constructor].
  - apply (within_then 3 0); [apply user_resolve_within|constructor].
  - apply (within_then 5 0); [apply addUser_resolve_within|constructor].
Qed.

Lemma arrive_budgeted ops s : budgeted (calls_bound <$> ops) (arrive key ops s).
Proof.
  unfold budgeted, arrive. simpl. apply Forall2_fmap, Forall_Forall2_diag, Forall_forall.
  intros op _. apply schema_within.
Qed.

Lemma quiescent_answered c : quiescent c <-> answered c.
Proof.
  unfold quiescent, answered, answers. rewrite Forall_fmap. apply Forall_proper; [|done].
  intros p. simpl. destruct p; simpl; split; (done || by intros [? ?] || eauto).
Qed.

(** C31. Every interleaving ends: however the calls of the requests [ops]
    interleave, whatever the store and the bank answer, they are
    [budget ops] calls at most -- one for a query of all users, three for
    a query of one, five for a mutation. *)
Theorem interleavings_end ops s tr c' :
  steps (arrive key ops s) tr c' -> length tr <= budget ops.
Proof.
  intros Hs.
  destruct (steps_budget _ _ _ _ (arrive_budgeted ops s) Hs) as (bs' & _ & Hle).
  unfold budget. lia.
Qed.

(** No pool waits for ever when every call is answered: from wherever an
    interleaving of the requests stands some continuation answers them
    all, and a pool in which no request can make a call has answered every
    request. *)
Lemma requests_answered_eventually ops s tr c :
  steps (arrive key ops s) tr c ->
  (exists tr' c', steps c tr' c' /\ answered c') /\
  ((forall e c', ~ step c e c') -> answered c).
Proof.
  intros Hs.
  destruct (steps_budget _ _ _ _ (arrive_budgeted ops s) Hs) as (bs' & Hb & _). split.
  - destruct (steps_to_quiescent _ _ Hb) as (tr' & c' & Htr' & Hq).
    exists tr', c'. by rewrite <- quiescent_answered.
  - intros Hstuck. apply quiescent_answered, nf_quiescent.
    intros (c' & e & Hstep). by eapply Hstuck.
Qed.

(** C11. Fairness is enough: in a schedule that gives the request at position
    [i] as many turns as its bound, in any order among the turns of the
    other requests, that request is answered, and the turns that follow
    leave its answer as it is. *)
Theorem fair_schedule_answers ops s turns i op :
  ops !! i = Some op -> calls_bound op <= turns_of i turns ->
  exists r, forall more,
    answers (schedule (turns ++ more) (arrive key ops s)) !! i = Some (Some r).
Proof.
  intros Hi Hn.
  destruct (schedule_fair turns i (arrive key ops s) (schema key op) (calls_bound op))
    as [r Hr]; [by simpl; rewrite list_lookup_fmap, Hi|apply schema_within|done|].
  exists r. intros more. rewrite schedule_app. unfold answers.
  rewrite list_lookup_fmap, (schedule_settled more i _ _ Hr (settled_of_result r)).
  simpl. by rewrite result_of_of_result.
Qed.

(** ** The bank hangs *)

Lemma addUser_resolve_guarded args : guarded is_axios is_create (addUser_resolve key args).
Proof.
  unfold addUser_resolve.
  apply guarded_then; [apply avoids_guarded, check_account_number_avoids|].
  intros n. apply guarded_then; [by apply avoids_guarded, avoids_perform|].
  intros [u|]; [constructor|]. by apply guarded_hangs.
Qed.

(** Both resolvers keep the creation behind the request to the bank. *)
Lemma schema_guarded op : guarded is_axios is_create (schema key op).
Proof.
  destruct op as [q|[args]].
  - by apply avoids_guarded, (schema_query_avoids key (Query q)).
  - apply guarded_then; [apply addUser_resolve_guarded|constructor].
Qed.

(** The invariant of the interleavings in which the bank hangs. *)
Lemma steps_bank_hangs ops s tr pl :
  steps (arrive key ops s) tr pl -> requests tr = [] ->
  writes tr = [] /\ world pl = s /\
  Forall2 (fun op q => stall is_axios q s = stall is_axios (schema key op) s) ops (tasks pl).
Proof.
  intros Hs Hr%requests_nil.
  assert (Forall (guarded is_axios is_create) (tasks (arrive key ops s))) as Hg.
  { apply Forall_fmap, Forall_true, schema_guarded. }
  destruct (steps_stall (E := schema_effects) is_axios is_create _ _ _
              (fun w e He => respond_unchanged e He w) Hg Hs Hr) as (Hw & Hpl & Hall).
  split_and!; [by apply writes_nil|done|]. by apply Forall2_fmap_l in Hall.
Qed.

Lemma stall_unless_bank op s :
  result_of (stall is_axios (schema key op) s) = unless_bank key op s.
Proof.
  unfold unless_bank, serve, requests. case_decide as Hr.
  - by rewrite (stall_run (E := schema_effects) is_axios _ _ Hr), result_of_of_result.
  - destruct (result_of _) as [r|] eqn:Hres; [|done].
    by apply stall_result in Hres as [? _].
Qed.

(** C15. A bank that hangs stores nothing and answers for no one: in every
    interleaving in which no request to the bank is answered, no creation
    is called and the table stays as it was; a request whose run asks the
    bank is never answered; and a request that is answered has the answer
    of its run alone, a run that asked the bank nothing. *)
Theorem bank_hangs ops s tr pl i op :
  steps (arrive key ops s) tr pl -> requests tr = [] -> ops !! i = Some op ->
  writes tr = [] /\ world pl = s /\
  (requests (trace (serve key op s)) <> [] -> answers pl !! i = Some None) /\
  (forall r, answers pl !! i = Some (Some r) ->
     r = value (serve key op s) /\ requests (trace (serve key op s)) = []).
Proof.
  intros Hs Hr Hi. destruct (steps_bank_hangs _ _ _ _ Hs Hr) as (Hw & Hpl & Hall).
  destruct (Forall2_lookup_l _ _ _ _ _ Hall Hi) as (q & Hq & Hst).
  assert (forall r, result_of q = Some r ->
            r = value (serve key op s) /\ requests (trace (serve key op s)) = []) as Hans.
  { intros r Hres. apply (result_of_stall (E := schema_effects) is_axios _ s) in Hres.
    rewrite Hst in Hres. by apply stall_result in Hres as [? ?]. }
  unfold answers. rewrite list_lookup_fmap, Hq. simpl. split_and!; [done|done| |].
  - intros Hreq. destruct (result_of q) as [r|] eqn:Hres; [|done].
    by destruct (Hans r eq_refl).
  - intros r. rewrite list_lookup_fmap, Hq. intros [= Hres]. by apply Hans.
Qed.

(** C19. A bank that hangs blocks its own requests only: from wherever such
    an interleaving stands, the requests go on without the bank until each
    of them has settled or waits for the bank; and then the requests whose
    run alone asks the bank nothing are all answered, with the answers of
    those runs, and the others are not. *)
Theorem bank_hangs_for_its_requests_only ops s tr pl :
  steps (arrive key ops s) tr pl -> requests tr = [] ->
  (exists tr' pl', steps pl tr' pl' /\ requests tr' = [] /\ hung is_axios pl') /\
  (hung is_axios pl -> answers pl = (fun op => unless_bank key op s) <$> ops).
Proof.
  intros Hs Hr. split.
  - destruct (steps_budget _ _ _ _ (arrive_budgeted ops s) Hs) as (bs' & Hb & _).
    destruct (steps_to_hung (E := schema_effects) is_axios _ _ Hb) as (tr' & pl' & Hs' & Hr' & Hh).
    exists tr', pl'. by rewrite requests_nil.
  - intros Hh. destruct (steps_bank_hangs _ _ _ _ Hs Hr) as (_ & _ & Hall).
    unfold answers.
    rewrite (hung_stall (E := schema_effects) is_axios (schema key <$> ops) pl s); [|by apply Forall2_fmap_l|done].
    rewrite <- !list_fmap_compose. apply list_fmap_ext. intros _ op _. simpl.
    apply stall_unless_bank.
Qed.

End Liveness.

(** * The theorems at work in the example world *)

(** The bound of a mutation is reached: in the race of two creations the
    request that loses has made four calls (the lookup, the request to the
    bank, the creation, [console.error]) and is not answered yet. *)
Example calls_bound_reached :
  turns_of 1 [0; 1; 0; 1; 0; 1; 1] = 4 /\
  answers (schedule (Responder0 := table_world) [0; 1; 0; 1; 0; 1; 1] race_start) !! 1
  = Some None.
Proof. split; vm_compute; reflexivity. Qed.

Lemma interleavings_end_witness :
  length (concat (trace <$>
    serve_each (bank := example_bank) example_key race_requests example_table))
  <= budget race_requests.
Proof.
  apply (interleavings_end (bank := example_bank) example_key race_requests example_table
           _ _ (steps_serve_each example_key [] race_requests example_table)).
Defined.

Lemma fair_schedule_answers_witness :
  exists r, forall more,
    answers (schedule (Responder0 := table_world) (race_turns ++ more) race_start) !! 1
    = Some (Some r).
Proof.
  apply (fair_schedule_answers (bank := example_bank) example_key race_requests
           example_table race_turns 1 (Mutation (M_addUser example_new)));
    [reflexivity|vm_compute; lia].
Defined.

Lemma bank_hangs_witness :
  writes [FindOne (WhereNumber "2222222222"); FindOne (WhereNumber "2222222222")] = [] /\
  world (schedule (Responder0 := table_world) [0; 1] race_start) = example_table /\
  (requests (trace (serve (bank := example_bank) example_key
                      (Mutation (M_addUser example_new)) example_table)) <> [] ->
   answers (schedule (Responder0 := table_world) [0; 1] race_start) !! 1 = Some None) /\
  (forall r,
     answers (schedule (Responder0 := table_world) [0; 1] race_start) !! 1 = Some (Some r) ->
     r = value (serve (bank := example_bank) example_key
                  (Mutation (M_addUser example_new)) example_table) /\
     requests (trace (serve (bank := example_bank) example_key
                        (Mutation (M_addUser example_new)) example_table)) = []).
Proof.
  apply (bank_hangs (bank := example_bank) example_key race_requests example_table
           [FindOne (WhereNumber "2222222222"); FindOne (WhereNumber "2222222222")]
           (schedule (Responder0 := table_world) [0; 1] race_start) 1
           (Mutation (M_addUser example_new))); [|reflexivity..].
  apply (steps_next (E := schema_effects) (Responder0 := table_world) race_start
           (FindOne (WhereNumber "2222222222"))
           (turn (Responder0 := table_world) 0 race_start) _ _
           (step_turn (E := schema_effects) (Responder0 := table_world) 0 race_start _
              eq_refl)).
  apply (steps_next (E := schema_effects) (Responder0 := table_world) _
           (FindOne (WhereNumber "2222222222")) _ _ _
           (step_turn (E := schema_effects) (Responder0 := table_world) 1
              (turn (Responder0 := table_world) 0 race_start) _ eq_refl)).
  exact (steps_done (E := schema_effects) (Responder0 := table_world) _).
Defined.

Lemma bank_hangs_for_its_requests_only_witness :
  (exists tr' pl',
     steps (Responder0 := table_world) race_start tr' pl' /\ requests tr' = [] /\
     hung is_axios pl') /\
  (hung is_axios race_start ->
   answers race_start =
   (fun op => unless_bank (bank := example_bank) example_key op example_table)
     <$> race_requests).
Proof.
  apply (bank_hangs_for_its_requests_only (bank := example_bank) example_key race_requests
           example_table [] race_start); [constructor|reflexivity].
Defined.

(** While the bank hangs, the session of the examples answers the query of
    a row with a stored name, the creation of a number the table holds and
    the query of all rows; the two creations that need the bank wait. *)
Example bank_hangs_session :
  (fun op => unless_bank (bank := example_bank) example_key op example_table)
    <$> example_session =
  [None;
   Some (Ok (UserOrNull (Some (mkUser 1 "0123456789" "058" (Some "John Doe") true))));
   Some (Err (Error USER_ALREADY_EXISTS));
   None;
   Some (Ok (UserList (rows example_table)))].
Proof. vm_compute. reflexivity. Qed.
