(* ===== verification/WellFormed.v ===== *)
(** * Well-formed records and typed answers

    The data model wants an account number of ten characters in every
    record, and [addUser] stores the name the user claimed.  Nothing in the
    model layer checks either: it is the resolvers of
    [src/schema/schema.js] that call [User.create] with checked values
    only.  [well_formed] is that typing of a record; the theorems show that
    every record the service adds is well formed, in sequential service and
    in every interleaving of requests, and that every answer has the type
    the schema declares for its field, with well-formed records in the
    answers that carry one account. *)

From S2P Require Import Prelude JsString Promise Scheduler Types Matcher Store Paystack.
From S2P Require Import World Schema Exec AddUser UserQuery Service Concurrent.
From stdpp Require Import strings.

(** A record as the data model has it: an account number of ten characters,
    and a name. *)
Definition well_formed (u : UserType) : Prop :=
  js_length (user_account_number u) = 10 /\ is_Some (user_account_name u).

(** A creation the data model does not allow. *)
Definition ill_formed (c : schema_call) : bool :=
  match c with
  | Create v => bool_decide (js_length (new_account_number v) <> 10)
  | _ => false
  end.

(** The output types of the root fields: [new GraphQLList(UserType)] of
    [users] (line 61), [UserType] of [user] (line 68) and of [addUser]
    (line 136). *)
Inductive output_type : Type :=
| GraphQLList_UserType
| Nullable_UserType.

Definition field_type (op : operation) : output_type :=
  match op with
  | Query Q_users => GraphQLList_UserType
  | Query (Q_user _) => Nullable_UserType
  | Mutation (M_addUser _) => Nullable_UserType
  end.

(** A value of an output type. *)
Definition has_type (v : field_value) (t : output_type) : Prop :=
  match t, v with
  | GraphQLList_UserType, UserList _ => True
  | Nullable_UserType, UserOrNull _ => True
  | _, _ => False
  end.

(** The account an answer carries, when it is the answer for one account. *)
Definition account_of (v : field_value) : option UserType :=
  match v with
  | UserList _ => None
  | UserOrNull u => u
  end.

(** [extends s s']: the state [s'] holds the rows of [s] and, after them,
    well-formed records only. *)
Definition extends {T} `{!Store T} (s s' : T) : Prop :=
  valid s' /\ exists l, rows s' = rows s ++ l /\ Forall well_formed l.

(** * Theorems *)

#[export] Instance well_formed_dec u : Decision (well_formed u).
Proof. unfold well_formed. apply _. Defined.

#[export] Instance has_type_dec v t : Decision (has_type v t).
Proof. destruct t, v; simpl; apply _. Defined.

Lemma stores_well_formed v u :
  stores v u -> ill_formed (Create v) = false -> well_formed u.
Proof.
  intros (Hn & _ & Hname & _) Hv%bool_decide_eq_false. split.
  - rewrite Hn. by destruct (decide (js_length (new_account_number v) = 10)).
  - by rewrite Hname.
Qed.

Section WellFormed.
Context {T : Type} {store : Store T} {bank : Bank} (key : option string).
Implicit Types (s : T) (op : operation).

(** ** The resolvers create well-formed records only *)

Lemma addUser_on_response_avoids args n r :
  js_length n = 10 -> avoids ill_formed (addUser_on_response args n r).
Proof.
  intros Hn. unfold addUser_on_response.
  destruct (account_name r), (m_user_account_name args); try constructor.
  destruct (_ <=? _); (apply avoids_then; [|intros u; constructor]);
    apply avoids_perform; simpl; by rewrite bool_decide_eq_false_2 by (by intros ?).
Qed.

Lemma addUser_resolve_avoids args : avoids ill_formed (addUser_resolve key args).
Proof.
  unfold addUser_resolve, check_account_number.
  destruct (m_user_account_number args) as [n|]; [|constructor].
  case_bool_decide as Hn; [constructor|]. simpl.
  constructor; [done| |constructor]. intros u. unfold addUser_lookup.
  destruct u as [u|]; [constructor|].
  apply avoids_catch; [|by intros e; apply addUser_on_error_avoids; intros []].
  apply avoids_then; [by apply avoids_perform|].
  intros r. by apply addUser_on_response_avoids.
Qed.

Lemma is_create_ill_formed c : is_create c = false -> ill_formed c = false.
Proof. by destruct c. Qed.

Lemma schema_avoids op : avoids ill_formed (schema key op).
Proof.
  destruct op as [q|[args]].
  - apply (avoids_weaken (E := schema_effects) is_create);
      [apply is_create_ill_formed|by apply schema_query_avoids].
  - unfold schema. apply avoids_then; [apply addUser_resolve_avoids|constructor].
Qed.

Section Laws.
Context {laws : StoreLaws T}.

Lemma extends_refl s : valid s -> extends s s.
Proof. intros Hs. split; [done|]. exists []. by rewrite app_nil_r. Qed.

(** A call that is not an ill-formed creation extends the state. *)
Lemma respond_extends s0 s e :
  ill_formed e = false -> extends s0 s -> extends s0 (schema_respond s e).1.
Proof.
  intros He (Hs & l & Hl & Hwf). split; [by apply valid_preserved|].
  destruct (respond_rows s e Hs) as [->|(v & u & -> & _ & -> & Hst)]; [by exists l|].
  exists (l ++ [u]). rewrite Hl, app_assoc. split; [done|].
  apply Forall_app. split; [done|]. apply Forall_singleton. by eapply stores_well_formed.
Qed.

(** C12. The records are well typed in every interleaving: whatever requests
    are in flight and however their calls interleave, the state reached
    holds the rows of the first state and, after them, only records whose
    account number has ten characters and that carry a name. *)
Theorem interleaved_well_formed ops s tr c' :
  valid s -> steps (arrive key ops s) tr c' -> extends s (world c').
Proof.
  intros Hs Hst.
  apply (steps_avoid_preserved (E := schema_effects) ill_formed (extends s)
           (arrive key ops s) c' tr);
    [apply respond_extends| |by apply extends_refl|done].
  simpl. apply Forall_fmap, Forall_forall. intros op _. apply schema_avoids.
Qed.

(** C21. Every answer has the type the schema declares for its field: a list
    for [users], a user or [null] for [user] and [addUser].  The answer of
    [addUser] is never [null]; and an account in the answer of [user] or of
    [addUser] is well formed, whatever the rows of the table are. *)
Theorem answers_typed op s v :
  valid s -> value (serve key op s) = Ok v ->
  has_type v (field_type op) /\
  (is_query op = false -> is_Some (account_of v)) /\
  (forall u, account_of v = Some u -> well_formed u).
Proof.
  intros Hs. destruct op as [[|args]|[args]].
  - rewrite serve_users. by intros (l & _ & ->)%answer_with_ok.
  - rewrite serve_user. intros (r & Hv & ->)%answer_with_ok.
    split_and!; [done..|]. simpl. intros u ->.
    apply user_ok_inv in Hv as (n & u' & _ & Hn & Hf & Hr).
    apply findOne_found in Hf as [_ Hm%where_matches_number]; [|done].
    unfold user_where in Hm. simpl in Hm.
    by destruct Hr as [[_ ->]|[_ (res & _ & ->)]]; (split; [simpl; congruence|eauto]).
  - rewrite serve_addUser. intros (r & Hv & ->)%answer_with_ok.
    split_and!; [done|eauto|]. simpl. intros u [= <-].
    apply addUser_ok_inv in Hv as (n & nm & res & _ & Hn & _ & _ & _ & Hc & _).
    apply create_ok in Hc as (_ & Hst & _); [|done].
    apply (stores_well_formed _ _ Hst). simpl.
    by rewrite bool_decide_eq_false_2 by (by intros ?).
Qed.

End Laws.

End WellFormed.

(** * The theorems at work in the example world *)

Lemma interleaved_well_formed_witness :
  extends example_table
    (world (@schedule schema_effects table table_world field_value race_turns race_start)).
Proof.
  destruct (@schedule_steps table table_store example_bank race_turns race_start)
    as [tr Htr].
  apply (interleaved_well_formed (bank := example_bank) example_key race_requests
           example_table tr _).
  - apply example_table_constraints.
  - exact Htr.
Defined.

Lemma answers_typed_witness :
  has_type (UserOrNull (Some example_row)) Nullable_UserType /\
  (is_query (Mutation (M_addUser example_new)) = false ->
   is_Some (account_of (UserOrNull (Some example_row)))) /\
  (forall u, account_of (UserOrNull (Some example_row)) = Some u -> well_formed u).
Proof.
  apply (answers_typed (bank := example_bank) example_key
           (Mutation (M_addUser example_new)) example_table).
  - apply example_table_constraints.
  - vm_compute. reflexivity.
Defined.
