(* ===== verification/Serial.v ===== *)
(** * Interleavings are serialisable in what they store

    The resolvers of [src/schema/schema.js] look a number up (line 156) and
    create the record later (lines 186 and 195), with calls of other
    requests in between.  On the table with its unique index this is
    harmless for the table: whatever the interleaving, the table it leaves
    is the table that serving the same requests one after another leaves,
    in the order in which their creations were accepted.

    The proof follows each chain with the invariant [serial]: in every table
    that has grown from the one the chain started in, the next call of the
    chain leaves the table alone or does to it what the whole request does
    when it is served there, and a chain that has settled belongs to a
    request that serving again would store nothing for ([idle]).

    The answers are not serialisable: the request that loses a race is
    answered [SERVER_ERROR], which no sequential service answers
    ([race_answer_not_serial]). *)

From S2P Require Import Prelude JsString Promise Scheduler Progress Types Matcher Store.
From S2P Require Import Paystack World Schema Exec AddUser UserQuery Service Concurrent.
From S2P Require Import Liveness.
From stdpp Require Import strings.

Local Open Scope promise_scope.

(** [grows t t']: the table [t'] holds the rows of [t], and then others,
    and has given out the identifiers of [t], and then others. *)
Definition grows (t t' : table) : Prop :=
  table_rows t `prefix_of` table_rows t' /\ next_id t <= next_id t'.

(** The requests among [ops] whose chains, at the same positions of [ps],
    have settled. *)
Fixpoint settled_ops (ops : list operation) (ps : list (promise field_value))
  : list operation :=
  match ops, ps with
  | op :: ops, p :: ps =>
      if settled p then op :: settled_ops ops ps else settled_ops ops ps
  | _, _ => []
  end.

Section Serial.
Context {bank : Bank} (key : option string).
Implicit Types (t : table) (op : operation) (p : promise field_value).
Implicit Types (pl : pool (W := table) field_value).

(** What [addUser] needs to store an account, the table apart: a number of
    length 10, a name that the bank resolves the account to, a claimed name
    and a bank code. *)
Definition addable (args : addUser_args) : Prop :=
  exists n name resolved b,
    m_user_account_number args = Some n /\ js_length n = 10 /\
    resolve (request key args n) = Ok (mkResponse (Some resolved)) /\
    m_user_account_name args = Some name /\ m_user_bank_code args = Some b.

(** [idle op t]: serving [op] in the table [t] stores nothing, because [op]
    is a query, or cannot store an account in any table, or its number is
    in [t]. *)
Definition idle op t : Prop :=
  match op with
  | Query _ => True
  | Mutation (M_addUser args) =>
      ~ addable args \/
      exists n, m_user_account_number args = Some n /\
        has_number n (table_rows t) = true
  end.

(** [commits op t t' p]: a call of the request [op] that took the table
    from [t] to [t'] and left the chain [p] has changed nothing, or has done
    what serving [op] in [t] does and has settled the chain. *)
Definition commits op t t' p : Prop :=
  t' = t \/ (t' = final (serve key op t) /\ settled p = true).

(** [serial op t p]: the chain [p] of the request [op], in a table that has
    grown from [t]. *)
#[warnings="-register-all"]
Inductive serial op : table -> promise field_value -> Prop :=
| serial_settled t p : settled p = true -> idle op t -> serial op t p
| serial_await t c k h :
    (forall t1 t2 x, grows t t1 -> respond t1 c = (t2, Ok x) ->
       serial op t2 (k x) /\ commits op t1 t2 (k x)) ->
    (forall t1 t2 e, grows t t1 -> respond t1 c = (t2, Err e) ->
       serial op t2 (h e) /\ commits op t1 t2 (h e)) ->
    serial op t (Await c k h).

(** [serialised ops t0 c done]: the pool [pl] of the requests [ops], started
    in the table [t0], holds the table that serving [done] in [t0] leaves;
    [done] are requests that have settled. *)
Definition serialised (ops : list operation) t0 pl (done : list operation) : Prop :=
  Forall2 (fun op p => serial op (world pl) p) ops (tasks pl) /\
  done ⊆+ settled_ops ops (tasks pl) /\
  world pl = serve_all key done t0.

(** What the field [addUser] makes of the row its resolver returns. *)
Definition as_field (u : UserType) : promise field_value :=
  Resolved (UserOrNull (Some u)).

End Serial.

(** [not_addable]: the request is idle because the context contradicts
    what [addable] needs. *)
Ltac not_addable :=
  left; intros (? & ? & ? & ? & ? & ? & ? & ? & ?); cbn in *; congruence.

(** * Theorems *)

#[export] Instance grows_preorder : PreOrder grows.
Proof.
  split; [intros t|intros t1 t2 t3]; unfold grows; [done|].
  intros [H12 ?] [H23 ?]. split; [by etrans|lia].
Qed.

Lemma find_existsb {A} (f : A -> bool) l : find f l = None <-> existsb f l = false.
Proof. induction l as [|x l IH]; simpl; [done|]. by destruct (f x). Qed.

Lemma has_number_grows t t' n :
  grows t t' -> has_number n (table_rows t) = true ->
  has_number n (table_rows t') = true.
Proof.
  rewrite !has_number_spec. intros [Hg _] (u & Hu & Hn). exists u. split; [|done].
  by eapply elem_of_prefix.
Qed.

Lemma table_lookup_none t n :
  findOne t (WhereNumber n) = Ok None <-> has_number n (table_rows t) = false.
Proof.
  simpl. unfold table_findOne, has_number. split.
  - intros [= Hf]. by apply find_existsb in Hf.
  - intros Hh. apply (find_existsb (where_matches (WhereNumber n))) in Hh.
    by f_equal.
Qed.

Lemma table_lookup_some t n u :
  findOne t (WhereNumber n) = Ok (Some u) -> has_number n (table_rows t) = true.
Proof.
  simpl. unfold table_findOne. intros [= [Hu Hn]%find_elem_of].
  apply has_number_spec. exists u. split; [done|]. by apply where_number_matches.
Qed.

Lemma settled_ops_submseteq ops ps : settled_ops ops ps ⊆+ ops.
Proof.
  revert ps. induction ops as [|op ops IH]; intros [|p ps]; simpl;
    try apply submseteq_nil_l.
  destruct (settled p); [by apply submseteq_skip|by apply submseteq_cons].
Qed.

Lemma settled_ops_all ops ps :
  length ops = length ps -> Forall (fun p => settled p = true) ps ->
  settled_ops ops ps = ops.
Proof.
  revert ps. induction ops as [|op ops IH]; intros [|p ps]; simpl; try done.
  intros [= Hl] [-> Hps]%Forall_cons. by rewrite IH.
Qed.

(** The chain at a position settles or goes on: the settled requests are
    those that were, and the request at that position when it settles. *)
Lemma settled_ops_insert ops ps i op p q :
  ops !! i = Some op -> ps !! i = Some p -> settled p = false ->
  settled_ops ops (<[i := q]> ps) ≡ₚ
  (if settled q then [op] else []) ++ settled_ops ops ps.
Proof.
  revert ps i. induction ops as [|op0 ops IH]; intros [|p0 ps] [|i]; simpl; try done.
  - intros [= ->] [= ->] ->. by destruct (settled q).
  - intros Hop Hp Hs. destruct (settled p0); rewrite (IH ps i Hop Hp Hs); [|done].
    apply Permutation_middle.
Qed.

Section SerialFacts.
Context {bank : Bank} (key : option string).
Implicit Types (t : table) (op : operation) (p : promise field_value).
Implicit Types (pl : pool (W := table) field_value).

(** ** The table grows *)

Lemma respond_grows t e : grows t (schema_respond t e).1.
Proof.
  destruct e as [|w|v|o|e|]; simpl; try reflexivity.
  destruct (table_create_cases t v) as [[_ ->]|[(b & _ & _ & ->)|(b & _ & _ & ->)]];
    simpl; [reflexivity..|]. split; simpl; [by apply prefix_app_r|lia].
Qed.

Lemma idle_grows op t t' : grows t t' -> idle key op t -> idle key op t'.
Proof.
  destruct op as [q|[args]]; simpl; [done|].
  intros Hg [Hno|(n & Hn & Hh)]; [by left|right]. exists n. split; [done|].
  by eapply has_number_grows.
Qed.

(** Serving an idle key request leaves the table as it is. *)
Lemma idle_stable op t : idle key op t -> final (serve key op t) = t.
Proof.
  destruct op as [q|[args]]; simpl.
  - intros _. unfold serve. by rewrite run_no_create by apply serve_query_writes.
  - rewrite serve_addUser. simpl. intros Hidle.
    addUser_cases_of (addUser_cases key args t); simpl; try done.
    + by destruct (table_create_cases t (values args n nm res))
        as [[_ Hc']|[(b & _ & _ & Hc')|(b & _ & _ & Hc')]];
        simpl in Hc; rewrite Hc' in Hc |- *.
    + apply table_lookup_none in Hf. destruct Hidle as [Hno|(n' & Hn' & Hh)].
      * destruct Hno. exists n, nm, res.
        destruct (table_create_cases t (values args n nm res))
          as [[_ Hc']|[(b & _ & _ & Hc')|(b & Hb & _ & _)]];
          [simpl in Hc; by rewrite Hc' in Hc..|]. by exists b.
      * congruence.
Qed.

Lemma serve_all_idle ops t :
  Forall (fun op => idle key op t) ops -> serve_all key ops t = t.
Proof.
  induction 1 as [|op ops Hop _ IH]; simpl; [done|]. by rewrite idle_stable.
Qed.

(** ** The invariant of a chain *)

Lemma serial_inv op t p :
  serial key op t p ->
  match p with
  | Await c k h =>
      (forall t1 t2 x, grows t t1 -> respond t1 c = (t2, Ok x) ->
         serial key op t2 (k x) /\ commits key op t1 t2 (k x)) /\
      (forall t1 t2 e, grows t t1 -> respond t1 c = (t2, Err e) ->
         serial key op t2 (h e) /\ commits key op t1 t2 (h e))
  | _ => idle key op t
  end.
Proof. destruct 1 as [t p Hp Hi|]; [by destruct p|done]. Qed.

Lemma serial_grows op t t' p : serial key op t p -> grows t t' -> serial key op t' p.
Proof.
  destruct 1 as [t p Hp Hi|t c k h Hk Hh]; intros Hg.
  - apply serial_settled; [done|by eapply idle_grows].
  - apply serial_await; intros t1 t2 x Hg1; [apply Hk|apply Hh]; by etrans.
Qed.

(** A chain that creates nothing, of a request that is idle. *)
Lemma avoids_serial op t p : avoids is_create p -> idle key op t -> serial key op t p.
Proof.
  intros Hp. revert t. induction Hp as [a|e|c k h Hc _ IHk _ IHh]; intros t Hi;
    [by apply serial_settled..|].
  apply serial_await; intros t1 t2 x Hg Hr;
    pose proof (respond_unchanged c Hc t1) as Hu;
    change (respond t1 c) with (schema_respond t1 c) in Hr; rewrite Hr in Hu;
    simpl in Hu; subst t2; (split; [|by left]);
    [apply IHk|apply IHh]; by eapply idle_grows.
Qed.

(** The failure of [addUser]: two lines on the console, and the error. *)
Lemma failed_serial op t e :
  idle key op t -> serial key op t (addUser_on_error e .then as_field).
Proof.
  intros Hi. apply avoids_serial; [|done].
  apply avoids_then; [|constructor]. apply addUser_on_error_avoids. by intros [].
Qed.

(** ** The chain of [addUser] *)

Lemma addUser_on_response_values args n name resolved :
  m_user_account_name args = Some name ->
  addUser_on_response args n (mkResponse (Some resolved)) =
  perform (Create (values args n name resolved)) .then addUser_created.
Proof.
  intros Hname. unfold addUser_on_response, values, isMatch. simpl. rewrite Hname.
  by destruct (ld name resolved <=? 2).
Qed.

Section AddUserChain.
Context (args : addUser_args) (n : string).
Context (Hn : m_user_account_number args = Some n) (Hl : js_length n = 10).

Let op : operation := Mutation (M_addUser args).

Lemma respond_table_Create t v :
  respond t (Create v) = ((table_create t v).1, from_store (table_create t v).2).
Proof. done. Qed.

Lemma taken_idle t : has_number n (table_rows t) = true -> idle key op t.
Proof. intros Hh. right. by exists n. Qed.

Lemma created_taken t u :
  user_account_number u = n -> has_number n (table_rows t ++ [u]) = true.
Proof.
  intros Hu. apply has_number_spec. exists u. split; [|done].
  apply elem_of_app. right. by apply list_elem_of_singleton.
Qed.

(** An accepted creation does what serving the request does. *)
Lemma create_commits name resolved t u :
  resolve (request key args n) = Ok (mkResponse (Some resolved)) ->
  m_user_account_name args = Some name ->
  has_number n (table_rows t) = false ->
  (table_create t (values args n name resolved)).2 = Ok u ->
  (table_create t (values args n name resolved)).1 = final (serve key op t).
Proof.
  intros Hr Hname Hf%table_lookup_none Hc. unfold op. rewrite serve_addUser.
  by rewrite (addUser_spec_sound key args t _
                (AddUser_created key args t n resolved name u Hn Hl Hf Hr Hname Hc)).
Qed.

(** The creation: accepted, it settles the chain; refused, it leaves a
    request that is idle. *)
Lemma create_serial name resolved t :
  resolve (request key args n) = Ok (mkResponse (Some resolved)) ->
  m_user_account_name args = Some name ->
  serial key op t
    (perform (Create (values args n name resolved)) .then addUser_created
       .catch addUser_on_error .then as_field).
Proof.
  intros Hr Hname. cbn. apply serial_await; intros t1 t2 x Hg Hc;
    rewrite respond_table_Create in Hc;
    pose proof (create_commits name resolved t1) as Hcom;
    destruct (table_create_cases t1 (values args n name resolved))
      as [[Hb Hc']|[(b & Hb & Hh & Hc')|(b & Hb & Hh & Hc')]];
    rewrite Hc' in Hc, Hcom; cbn in Hc; simplify_eq.
  - split.
    + apply serial_settled; [done|]. by apply taken_idle, created_taken.
    + right. split; [|done]. by eapply Hcom.
  - split; [|by left]. apply failed_serial. not_addable.
  - split; [|by left]. by apply failed_serial, taken_idle.
Qed.

(** The callbacks of the request. *)
Lemma response_serial r t :
  resolve (request key args n) = Ok r ->
  serial key op t
    (addUser_on_response args n r .catch addUser_on_error .then as_field).
Proof.
  intros Hr. destruct r as [[resolved|]];
    destruct (m_user_account_name args) as [name|] eqn:Hname.
  - rewrite (addUser_on_response_values _ _ name) by done. by apply create_serial.
  - unfold addUser_on_response. cbn. rewrite Hname. apply failed_serial. not_addable.
  - unfold addUser_on_response. cbn. apply failed_serial. not_addable.
  - unfold addUser_on_response. cbn. apply failed_serial. not_addable.
Qed.

(** The callback of the lookup. *)
Lemma lookup_serial u t :
  findOne t (WhereNumber n) = Ok u ->
  serial key op t (addUser_lookup key args n u .then as_field).
Proof.
  intros Hf. unfold addUser_lookup. destruct u as [u|].
  - apply serial_settled; [done|]. by eapply taken_idle, table_lookup_some.
  - rewrite resolve_options_request. cbn.
    apply serial_await; intros t1 t2 x Hg Hc;
      rewrite respond_Axios in Hc; destruct (resolve (request key args n)) eqn:Hr;
      cbn in Hc; simplify_eq; (split; [|by left]).
    + by apply response_serial.
    + apply failed_serial. not_addable.
Qed.

End AddUserChain.

(** Every chain starts with the invariant, in every table. *)
Lemma schema_serial op t : serial key op t (schema key op).
Proof.
  destruct op as [q|[args]].
  - apply avoids_serial; [|done]. by apply schema_query_avoids.
  - unfold schema, addUser_resolve, check_account_number.
    destruct (m_user_account_number args) as [n|] eqn:Hn.
    + case_bool_decide as Hl.
      * apply serial_settled; [done|]. not_addable.
      * cbn. apply serial_await; intros t1 t2 x Hg Hc;
          rewrite respond_FindOne in Hc; cbn in Hc; simplify_eq.
        split; [|by left]. by apply lookup_serial.
    + apply serial_settled; [done|]. not_addable.
Qed.

(** ** The invariant of a pool *)

Lemma arrive_serialised ops t : serialised key ops t (arrive key ops t) [].
Proof.
  split_and!; [|apply submseteq_nil_l|done]. simpl.
  apply Forall2_fmap_r, Forall_Forall2_diag, Forall_forall.
  intros op _. apply schema_serial.
Qed.

(** The chain at a position makes a call: the pool is serialised still,
    with the request of the chain served last when the call did what the
    request does. *)
Lemma insert_serialised ops t0 pl done i op p q t2 :
  serialised key ops t0 pl done ->
  ops !! i = Some op -> tasks pl !! i = Some p -> settled p = false ->
  grows (world pl) t2 -> serial key op t2 q -> commits key op (world pl) t2 q ->
  exists done', serialised key ops t0 (Pool (<[i := q]> (tasks pl)) t2) done'.
Proof.
  intros (Hall & Hsub & Hw) Hop Hp Hs Hg Hq Hcom.
  assert (Forall2 (fun op p => serial key op t2 p) ops (<[i := q]> (tasks pl))) as Hall'.
  { rewrite <- (list_insert_id ops i op Hop). apply Forall2_insert; [|done].
    eapply Forall2_impl; [exact Hall|]. intros op' p' Hp'. exact (serial_grows _ _ _ _ Hp' Hg). }
  pose proof (settled_ops_insert ops (tasks pl) i op p q Hop Hp Hs) as Hins.
  destruct Hcom as [->|[-> Hset]].
  - exists done. split_and!; [done| |done]. simpl. rewrite Hins.
    by apply submseteq_inserts_l.
  - exists (done ++ [op]). split_and!; [done| |]; simpl.
    + rewrite Hins, Hset, (comm (++) done). by apply submseteq_skips_l.
    + by rewrite serve_all_app, <- Hw.
Qed.

Lemma step_serialised ops t0 pl e pl' done :
  serialised key ops t0 pl done -> step pl e pl' ->
  exists done', serialised key ops t0 pl' done'.
Proof.
  intros Hinv Hstep. revert Hinv. destruct Hstep as [i pl e Hi]. intros Hinv.
  destruct (tasks pl !! i) as [p|] eqn:Hp; [|done].
  destruct p as [a|e'|c k h]; simplify_eq/=.
  destruct (Forall2_lookup_r _ _ _ _ _ (proj1 Hinv) Hp) as (op & Hop & Hser).
  apply serial_inv in Hser as [Hk Hh].
  pose proof (respond_grows (world pl) e) as Hg.
  unfold turn. rewrite Hp. simpl.
  change (respond (E := schema_effects) (world pl) e)
    with (schema_respond (world pl) e) in *.
  destruct (schema_respond (world pl) e) as [t2 [x|err]] eqn:Hr; simpl in *.
  - destruct (Hk (world pl) t2 x) as [Hq Hcom]; [done..|].
    by eapply insert_serialised.
  - destruct (Hh (world pl) t2 err) as [Hq Hcom]; [done..|].
    by eapply insert_serialised.
Qed.

Lemma steps_serialised ops t0 pl tr pl' done :
  serialised key ops t0 pl done -> steps pl tr pl' ->
  exists done', serialised key ops t0 pl' done'.
Proof.
  intros Hinv Hsteps. revert done Hinv.
  induction Hsteps as [|pl1 e pl2 tr pl3 Hstep _ IH]; intros done Hinv; [eauto|].
  destruct (step_serialised _ _ _ _ _ _ Hinv Hstep) as [done' Hinv']. eauto.
Qed.

(** When all chains have settled, all requests are idle. *)
Lemma serialised_idle ops t0 pl done :
  serialised key ops t0 pl done -> quiescent pl ->
  Forall (fun op => idle key op (world pl)) ops /\ settled_ops ops (tasks pl) = ops.
Proof.
  intros (Hall & _ & _) Hq. split.
  - eapply Forall2_Forall_l; [done|]. eapply Forall_impl; [exact Hq|].
    intros p Hp op Hser%serial_inv. by destruct p.
  - apply settled_ops_all; [by eapply Forall2_length|done].
Qed.

(** The table reached is the one that serving some of the requests, each
    once, leaves. *)
Lemma reached_serial ops t tr pl :
  steps (arrive key ops t) tr pl ->
  exists done, done ⊆+ ops /\ world pl = serve_all key done t.
Proof.
  intros Hsteps.
  destruct (steps_serialised _ _ _ _ _ _ (arrive_serialised ops t) Hsteps)
    as (done & _ & Hsub & Hw).
  exists done. split; [|done]. etrans; [done|apply settled_ops_submseteq].
Qed.

(** When all requests are answered it is the one that serving all of them,
    in some order, leaves. *)
Lemma answered_serial ops t tr pl :
  steps (arrive key ops t) tr pl -> answered pl ->
  exists ops', ops' ≡ₚ ops /\ world pl = serve_all key ops' t.
Proof.
  intros Hsteps Hq%quiescent_answered.
  destruct (steps_serialised _ _ _ _ _ _ (arrive_serialised ops t) Hsteps)
    as [done Hinv].
  pose proof Hinv as (_ & Hsub & Hw).
  destruct (serialised_idle _ _ _ _ Hinv Hq) as [Hidle Hall].
  rewrite Hall in Hsub. apply submseteq_Permutation in Hsub as [rest Hrest].
  exists (done ++ rest). split; [done|].
  rewrite serve_all_app, <- Hw, serve_all_idle; [done|].
  rewrite Hrest in Hidle. by apply Forall_app in Hidle as [_ ?].
Qed.

(** C4. Interleavings are serialisable in what they store.  On the table
    with its unique index, whatever requests are in flight and however
    their calls interleave, the table is the one that serving some of the
    requests one after another leaves, each once; and when all requests are
    answered it is the table that serving all of them one after another,
    in some order, leaves. *)
Theorem interleavings_serialisable ops t tr pl :
  steps (arrive key ops t) tr pl ->
  (exists done, done ⊆+ ops /\ world pl = serve_all key done t) /\
  (answered pl -> exists ops', ops' ≡ₚ ops /\ world pl = serve_all key ops' t).
Proof. intros Hsteps. split; [by eapply reached_serial|by eapply answered_serial]. Qed.

End SerialFacts.

(** * The theorems at work in the example world *)

Lemma interleavings_serialisable_witness :
  (exists done, done ⊆+ race_requests /\
     world (@schedule schema_effects table table_world field_value race_turns race_start)
     = serve_all (bank := example_bank) example_key done example_table) /\
  (answered (@schedule schema_effects table table_world field_value race_turns race_start) ->
   exists ops', ops' ≡ₚ race_requests /\
     world (@schedule schema_effects table table_world field_value race_turns race_start)
     = serve_all (bank := example_bank) example_key ops' example_table).
Proof.
  destruct (@schedule_steps table table_store example_bank race_turns race_start)
    as [tr Htr].
  exact (interleavings_serialisable (bank := example_bank) example_key race_requests
           example_table tr _ Htr).
Defined.

(** The answers are not serialisable: in the race of two creations the
    request that loses is answered [SERVER_ERROR], and no order of serving
    the two requests one after another answers that. *)
Example race_answer_not_serial :
  Some (Err (Error SERVER_ERROR)) ∈
    answers (@schedule schema_effects table table_world field_value race_turns race_start) /\
  forall ops', ops' ≡ₚ race_requests ->
    Err (Error SERVER_ERROR) ∉
      (value <$> serve_each (bank := example_bank) example_key ops' example_table).
Proof.
  split; [vm_compute; apply list_elem_of_In; simpl; auto|].
  intros ops' [->| ->]%Permutation_sym%Permutation_length_2_inv;
    vm_compute; intros Hin%list_elem_of_In; simpl in Hin; intuition discriminate.
Qed.
