(* ===== verification/Linear.v ===== *)
(** * The answers are linearisable, but for lost races

    A request is answered as if it had been served alone at one moment
    between its arrival and its answer: a query at its lookup, a mutation
    at its lookup when it fails and at its creation when it succeeds.  The
    one exception is the mutation that loses a race: its lookup found no
    record, its creation is refused by the unique index, and it is
    answered [SERVER_ERROR], which serving it alone answers in no table.

    [creations_race] is that race, for every pair of creations of one
    number: the second is answered [SERVER_ERROR].

    The proof follows each chain with the invariant [linear], as [Serial]
    does with [serial].  After its last call to the model layer a chain is
    oblivious of the table ([avoids is_store]), and its answer is the
    answer of its run in any table ([oblivious_linear]). *)

From S2P Require Import Prelude JsString Promise Scheduler Progress Types Matcher Store.
From S2P Require Import Paystack World Schema Exec AddUser UserQuery Service Concurrent.
From S2P Require Import Liveness Serial.
From stdpp Require Import strings.

Local Open Scope promise_scope.

Section Linear.
Context {bank : Bank} (key : option string).
Implicit Types (t : table) (op : operation) (p : promise field_value).
Implicit Types (r : result js_error field_value).

(** [lost op t r]: the request [op] lost a race.  It could store its
    account, the table [t] holds its number, and its answer [r] is
    [SERVER_ERROR]. *)
Definition lost op t r : Prop :=
  match op with
  | Query _ => False
  | Mutation (M_addUser args) =>
      addable key args /\ r = Err (Error SERVER_ERROR) /\
      exists n, m_user_account_number args = Some n /\
        has_number n (table_rows t) = true
  end.

(** [at_moment op t0 t r]: [r] is the answer of [op] served alone in some
    table between [t0] and [t]. *)
Definition at_moment op t0 t r : Prop :=
  exists t', grows t0 t' /\ grows t' t /\ r = value (serve key op t').

Definition linearised op t0 t r : Prop := at_moment op t0 t r \/ lost op t r.

(** [linear op t0 t p]: the chain [p] of the request [op], which arrived in
    the table [t0], in a table that has grown from [t]: whatever it is
    answered from here, it settles with a linearised answer. *)
Inductive linear op t0 : table -> promise field_value -> Prop :=
| linear_settled t p r :
    result_of p = Some r -> linearised op t0 t r -> linear op t0 t p
| linear_await t c k h :
    (forall t1 t2 x, grows t t1 -> respond t1 c = (t2, Ok x) -> linear op t0 t2 (k x)) ->
    (forall t1 t2 e, grows t t1 -> respond t1 c = (t2, Err e) -> linear op t0 t2 (h e)) ->
    linear op t0 t (Await c k h).

(** The pool after the race of two creations: both requests looked the
    number up, then both asked the bank, then both created. *)
Definition raced (args1 args2 : addUser_args) t : pool (W := table) field_value :=
  schedule race_turns
    (arrive key [Mutation (M_addUser args1); Mutation (M_addUser args2)] t).

End Linear.

(** * Theorems *)

Section LinearFacts.
Context {bank : Bank} (key : option string).
Implicit Types (t : table) (op : operation) (p : promise field_value).
Implicit Types (r : result js_error field_value).

Lemma linearised_grows op t0 t t' r :
  grows t t' -> linearised key op t0 t r -> linearised key op t0 t' r.
Proof.
  intros Hg [(t1 & H0 & H1 & Hr)|Hlost]; [left|right].
  - exists t1. split_and!; [done| |done]. by etrans.
  - destruct op as [q|[args]]; [done|]. destruct Hlost as (Ha & Hr & n & Hn & Hh).
    split_and!; [done..|]. exists n. split; [done|]. by eapply has_number_grows.
Qed.

Lemma linear_inv op t0 t p :
  linear key op t0 t p ->
  match p with
  | Await c k h =>
      (forall t1 t2 x, grows t t1 -> respond t1 c = (t2, Ok x) ->
         linear key op t0 t2 (k x)) /\
      (forall t1 t2 e, grows t t1 -> respond t1 c = (t2, Err e) ->
         linear key op t0 t2 (h e))
  | _ => exists r, result_of p = Some r /\ linearised key op t0 t r
  end.
Proof. destruct 1 as [t p r Hp Hr|]; [destruct p; by eauto|done]. Qed.

Lemma linear_grows op t0 t t' p :
  linear key op t0 t p -> grows t t' -> linear key op t0 t' p.
Proof.
  destruct 1 as [t p r Hp Hr|t c k h Hk Hh]; intros Hg.
  - eapply linear_settled; [done|by eapply linearised_grows].
  - apply linear_await; intros t1 t2 x Hg1; [apply Hk|apply Hh]; by etrans.
Qed.

(** ** Chains that are oblivious of the table *)

Lemma oblivious_value {A} (p : promise A) t t' :
  avoids is_store p -> value (run p t) = value (run p t').
Proof.
  intros Hp. revert t t'. induction Hp as [a|e|c k h Hc _ IHk _ IHh]; intros t t';
    [done..|].
  simpl. change (respond t c) with (schema_respond t c).
  change (respond t' c) with (schema_respond t' c).
  rewrite (respond_oblivious c t t' Hc), (respond_oblivious c t' t' Hc).
  destruct (schema_respond t' c).2; simpl; auto.
Qed.

(** An oblivious chain settles with the value of its run. *)
Lemma oblivious_linear op t0 t p r :
  avoids is_store p -> value (run p t) = r ->
  (forall t', grows t t' -> linearised key op t0 t' r) -> linear key op t0 t p.
Proof.
  intros Hp. revert t. induction Hp as [a|e|c k h Hc Hk IHk Hh IHh]; intros t Hr Hlin.
  1,2: by apply (linear_settled _ _ _ _ _ r); [rewrite <- Hr|apply Hlin].
  assert (forall t1 t2 q, grows t t1 -> (advance (Await c k h) t1) = (q, t2) ->
            value (run q t2) = r /\
            forall t', grows t2 t' -> linearised key op t0 t' r) as Hnext.
  { intros t1 t2 q Hg Hadv. split.
    - rewrite <- Hr, (oblivious_value (Await c k h) t t1) by (by constructor).
      by rewrite value_run_await, Hadv.
    - intros t' Hg'. apply Hlin. etrans; [done|]. etrans; [|done].
      pose proof (respond_grows t1 c) as Hg2. simpl in Hadv.
      change (respond t1 c) with (schema_respond t1 c) in Hadv.
      by destruct (schema_respond t1 c) as [t3 [x|e]]; simplify_eq/=. }
  apply linear_await; intros t1 t2 x Hg Hc1;
    [destruct (Hnext t1 t2 (k x) Hg)|destruct (Hnext t1 t2 (h x) Hg)];
    try (by simpl; rewrite Hc1); auto.
Qed.

(** A chain that is oblivious from the table [t1] on, and is what serving
    the request in [t1] comes to, answers as the request served in [t1]. *)
Lemma moment_linear op t0 t1 p :
  avoids is_store p -> grows t0 t1 ->
  value (serve key op t1) = value (run p t1) -> linear key op t0 t1 p.
Proof.
  intros Hp Hg Hv. apply (oblivious_linear _ _ _ _ (value (run p t1))); [done..|].
  intros t' Hg'. left. by exists t1.
Qed.

(** A request whose chain reads the table once, and is oblivious after. *)
Lemma read_linear op t0 t c k h :
  schema key op = Await c k h -> is_create c = false ->
  (forall x, avoids is_store (k x)) -> (forall e, avoids is_store (h e)) ->
  grows t0 t -> linear key op t0 t (Await c k h).
Proof.
  intros Hop Hc Hk Hh Hg0.
  apply linear_await; intros t1 t2 x Hg Hr;
    pose proof (respond_unchanged c Hc t1) as Hu;
    change (respond t1 c) with (schema_respond t1 c) in Hr; rewrite Hr in Hu;
    simpl in Hu; subst t2; (apply moment_linear; [auto|by etrans|]);
    unfold serve; rewrite Hop, value_run_await; simpl;
    change (respond t1 c) with (schema_respond t1 c); by rewrite Hr.
Qed.

(** A request that is refused before its first call. *)
Lemma start_linear op t0 t r :
  result_of (schema key op) = Some r -> grows t0 t ->
  linear key op t0 t (schema key op).
Proof.
  intros Hr Hg. apply (linear_settled _ _ _ _ _ r); [done|]. left. exists t.
  split_and!; [done..|]. unfold serve. by rewrite (run_settled (E := schema_effects) _ _ r).
Qed.

(** ** The queries *)

Lemma query_linear q t0 t :
  grows t0 t -> linear key (Query q) t0 t (schema key (Query q)).
Proof.
  intros Hg. destruct q as [|args].
  - apply (read_linear (Query Q_users) t0 t FindAll); try done; constructor.
  - destruct (checked_cases (q_user_account_number args))
      as [[Hn _]|[(n & Hn & Hl & _)|(n & Hn & Hl & _)]].
    + apply (start_linear _ _ _ (Err TypeError)); [|done].
      unfold schema, user_resolve. by rewrite Hn.
    + apply (start_linear _ _ _ (Err (Error ACCOUNT_NUMBER_LENGTH_ERROR))); [|done].
      unfold schema, user_resolve, check_account_number.
      by rewrite Hn, bool_decide_eq_true_2.
    + assert (schema key (Query (Q_user args)) =
              Await (FindOne (WhereNumberAndBank n (q_user_bank_code args)))
                (fun x => user_found key x .then (fun u => Resolved (UserOrNull u)))
                Rejected) as Hop.
      { unfold schema, user_resolve, check_account_number.
        by rewrite Hn, bool_decide_eq_false_2 by (by intros ?). }
      rewrite Hop. apply read_linear; try done; [|constructor].
      intros x. apply avoids_then; [by apply user_found_avoids|constructor].
Qed.

(** ** The mutation *)

(** The failure of [addUser] answers the error of the [catch]. *)
Lemma failed_linear op t0 t e :
  (forall t', grows t t' -> linearised key op t0 t' (Err (addUser_error e))) ->
  linear key op t0 t (addUser_on_error e .then as_field).
Proof.
  intros Hlin. apply (oblivious_linear _ _ _ _ (Err (addUser_error e))); [| |done].
  - apply avoids_then; [|constructor]. apply addUser_on_error_avoids. by intros [].
  - by rewrite run_then, run_addUser_on_error.
Qed.

Section AddUserChain.
Context (args : addUser_args) (n : string).
Context (Hn : m_user_account_number args = Some n) (Hl : js_length n = 10).
Context (t0 t1 : table) (Hg0 : grows t0 t1).

Let op : operation := Mutation (M_addUser args).

(** What serving the request in [t1] answers is an answer at a moment. *)
Lemma served_at t o r :
  addUser_spec key args t1 o -> result_map (fun u => UserOrNull (Some u)) (value o) = r ->
  grows t1 t -> linearised key op t0 t r.
Proof.
  intros Ho <- Hg. left. exists t1. split_and!; [done..|].
  unfold op. by rewrite serve_addUser, (addUser_spec_sound _ _ _ _ Ho).
Qed.

Context (Hf : findOne t1 (WhereNumber n) = Ok None).

(** The creation: accepted in [t], the request is served in [t]; refused
    for its bank code, it is served at its lookup; refused for its number,
    it has lost a race. *)
Lemma create_linear name resolved t :
  resolve (request key args n) = Ok (mkResponse (Some resolved)) ->
  m_user_account_name args = Some name -> grows t1 t ->
  linear key op t0 t
    (perform (Create (values args n name resolved)) .then addUser_created
       .catch addUser_on_error .then as_field).
Proof.
  intros Hr Hname Hg. cbn. apply linear_await; intros t2 t3 x Hg2 Hc;
    rewrite respond_table_Create in Hc;
    destruct (table_create_cases t2 (values args n name resolved))
      as [[Hb Hc']|[(b & Hb & Hh & Hc')|(b & Hb & Hh & Hc')]];
    rewrite Hc' in Hc; cbn in Hc; simplify_eq.
  - eapply linear_settled; [reflexivity|]. left. exists t2.
    split_and!; [by do 2 (etrans; [done|])|split; simpl; [by apply prefix_app_r|lia]|].
    apply table_lookup_none in Hh. unfold op.
    rewrite serve_addUser, (addUser_spec_sound key args t2 _
      (AddUser_created key args t2 n resolved name _ Hn Hl Hh Hr Hname
         (f_equal snd Hc'))).
    done.
  - apply failed_linear. intros t' Hg'.
    destruct (table_create_cases t1 (values args n name resolved))
      as [[_ Hc1]|[(b & Hb1 & _)|(b & Hb1 & _)]]; [|simpl in *; congruence..].
    eapply served_at;
      [apply (AddUser_create_rejected key args t1 n resolved name NotNullViolation);
         [done..|by simpl; rewrite Hc1]
      |done|by do 2 (etrans; [done|])].
  - apply failed_linear. intros t' Hg'. right. split_and!; [|done|].
    + by exists n, name, resolved, b.
    + exists n. split; [done|]. by eapply has_number_grows.
Qed.

Lemma response_linear resp t :
  resolve (request key args n) = Ok resp -> grows t1 t ->
  linear key op t0 t
    (addUser_on_response args n resp .catch addUser_on_error .then as_field).
Proof.
  intros Hr Hg. destruct resp as [[resolved|]];
    destruct (m_user_account_name args) as [name|] eqn:Hname.
  1: rewrite (addUser_on_response_values _ _ name) by done; by apply create_linear.
  all: unfold addUser_on_response; cbn; rewrite ?Hname; apply failed_linear;
    intros t' Hg';
    (eapply served_at;
       [apply (AddUser_no_name key args t1 n _ Hn Hl Hf Hr); auto|done|by etrans]).
Qed.

Lemma request_linear t :
  grows t1 t -> linear key op t0 t (addUser_lookup key args n None .then as_field).
Proof.
  intros Hg. unfold addUser_lookup. rewrite resolve_options_request. cbn.
  apply linear_await; intros t2 t3 x Hg2 Hc;
    rewrite respond_Axios in Hc; destruct (resolve (request key args n)) eqn:Hr;
    cbn in Hc; simplify_eq.
  - apply response_linear; [done|by etrans].
  - apply failed_linear. intros t' Hg'.
    by eapply served_at;
      [by apply AddUser_bank_rejected|done|do 2 (etrans; [done|])].
Qed.

End AddUserChain.

Lemma mutation_linear args t0 t :
  grows t0 t ->
  linear key (Mutation (M_addUser args)) t0 t (schema key (Mutation (M_addUser args))).
Proof.
  intros Hg. destruct (checked_cases (m_user_account_number args))
      as [[Hn _]|[(n & Hn & Hl & _)|(n & Hn & Hl & _)]].
  - apply (start_linear _ _ _ (Err TypeError)); [|done].
    unfold schema, addUser_resolve. by rewrite Hn.
  - apply (start_linear _ _ _ (Err (Error ACCOUNT_NUMBER_LENGTH_ERROR))); [|done].
    unfold schema, addUser_resolve, check_account_number.
    by rewrite Hn, bool_decide_eq_true_2.
  - unfold schema, addUser_resolve, check_account_number.
    rewrite Hn, bool_decide_eq_false_2 by (by intros ?). cbn.
    apply linear_await; intros t1 t2 x Hg1 Hc;
      rewrite respond_FindOne in Hc; cbn in Hc; simplify_eq.
    destruct (find _ _) as [u|] eqn:Hfind.
    + eapply linear_settled; [reflexivity|].
      eapply (served_at args t0 t2);
        [by etrans
        |by apply (AddUser_exists key args t2 n u);
           [..|simpl; unfold table_findOne; rewrite Hfind]
        |done..].
    + apply (request_linear args n Hn Hl t0 t2); [by etrans| |done].
      simpl. unfold table_findOne. by rewrite Hfind.
Qed.

Lemma schema_linear op t : linear key op t t (schema key op).
Proof. destruct op as [q|[args]]; [by apply query_linear|by apply mutation_linear]. Qed.

(** ** The pool *)

Lemma linear_advance op t0 t p :
  linear key op t0 t p -> linear key op t0 (advance p t).2 (advance p t).1.
Proof.
  intros Hp. pose proof (linear_inv _ _ _ _ Hp) as Hinv.
  destruct p as [a|e|c k h]; [done..|]. destruct Hinv as [Hk Hh]. simpl.
  destruct (respond t c) as [t2 [x|e]] eqn:Hr; simpl; [by eapply Hk|by eapply Hh].
Qed.

Lemma steps_linear ops t tr pl :
  steps (arrive key ops t) tr pl ->
  Forall2 (fun op p => linear key op t (world pl) p) ops (tasks pl).
Proof.
  apply (steps_chains (E := schema_effects) (fun op => linear key op t)).
  - intros op w p e Hp. eapply linear_grows; [done|apply respond_grows].
  - intros op w p. apply linear_advance.
  - simpl. apply Forall2_fmap_r, Forall_Forall2_diag, Forall_forall.
    intros op _. apply schema_linear.
Qed.

(** The answer of a lost race is the answer of no table. *)
Lemma lost_not_served op t r t' : lost key op t r -> r <> value (serve key op t').
Proof.
  destruct op as [q|[args]]; [done|].
  intros ((n & name & resolved & b & Hn & Hl & Hr & Hname & Hb) & -> & _).
  rewrite serve_addUser. destruct (has_number n (table_rows t')) eqn:Hh.
  - destruct (findOne t' (WhereNumber n)) as [[u|]|d] eqn:Hf; [| |done].
    + by rewrite (addUser_spec_sound key args t' _
                    (AddUser_exists key args t' n u Hn Hl Hf)).
    + apply table_lookup_none in Hf. congruence.
  - pose proof (proj2 (table_lookup_none t' n) Hh) as Hf.
    destruct (table_create_cases t' (values args n name resolved))
      as [[Hb' _]|[(b' & _ & Hh' & _)|(b' & _ & _ & Hc)]]; [simpl in *; congruence..|].
    by rewrite (addUser_spec_sound key args t' _
                  (AddUser_created key args t' n resolved name _ Hn Hl Hf Hr Hname
                     (f_equal snd Hc))).
Qed.

(** ** The race of two creations *)

Section Race.
Context (n : string).

(** The first turn of a creation of [n] in a table that does not hold the
    number is its lookup, which finds nothing. *)
Lemma advance_lookup args t' :
  m_user_account_number args = Some n -> js_length n = 10 ->
  has_number n (table_rows t') = false ->
  advance (schema key (Mutation (M_addUser args))) t' =
  (addUser_lookup key args n None .then as_field, t').
Proof.
  intros Hn Hl Hh%table_lookup_none. unfold schema, addUser_resolve, check_account_number.
  rewrite Hn, bool_decide_eq_false_2 by (by intros ?). cbn.
  simpl in Hh. unfold table_findOne in Hh. by injection Hh as ->.
Qed.

(** Its second turn is the request; the bank resolves the account and the
    creation is next. *)
Lemma advance_request args name resolved t' :
  m_user_account_name args = Some name ->
  resolve (request key args n) = Ok (mkResponse (Some resolved)) ->
  advance (addUser_lookup key args n None .then as_field) t' =
  (perform (Create (values args n name resolved)) .then addUser_created
     .catch addUser_on_error .then as_field, t').
Proof.
  intros Hname Hr. unfold addUser_lookup. rewrite resolve_options_request. cbn.
  rewrite Hr. cbn. by rewrite (addUser_on_response_values args n name resolved Hname).
Qed.

(** Its third turn is the creation: accepted while the table does not hold
    the number; refused when it does, and then the [catch] logs the error
    at the next two turns and fails with [SERVER_ERROR]. *)
Lemma advance_create args name resolved b t' :
  m_user_bank_code args = Some b -> has_number n (table_rows t') = false ->
  advance (perform (Create (values args n name resolved)) .then addUser_created
             .catch addUser_on_error .then as_field) t' =
  (Resolved (UserOrNull (Some (new_row (next_id t') (values args n name resolved) b))),
   mkTable (table_rows t' ++ [new_row (next_id t') (values args n name resolved) b])
           (S (next_id t'))).
Proof.
  intros Hb Hh.
  destruct (table_create_cases t' (values args n name resolved))
    as [[Hb' _]|[(b' & _ & Hh' & _)|(b' & Hb' & _ & Hc)]]; [simpl in *; congruence..|].
  assert (b' = b) as -> by (simpl in Hb'; congruence).
  cbn [advance perform then_ catch_]. rewrite respond_table_Create, Hc. done.
Qed.

Lemma advance_refused args name resolved b t' :
  m_user_bank_code args = Some b -> has_number n (table_rows t') = true ->
  advance_n 3 (perform (Create (values args n name resolved)) .then addUser_created
                 .catch addUser_on_error .then as_field) t' =
  (Rejected (Error SERVER_ERROR), t').
Proof.
  intros Hb Hh.
  destruct (table_create_cases t' (values args n name resolved))
    as [[Hb' _]|[(b' & _ & _ & Hc)|(b' & _ & Hh' & _)]]; [simpl in *; congruence| |].
  - cbn [advance_n advance perform then_ catch_]. by rewrite respond_table_Create, Hc.
  - simpl in Hh'. congruence.
Qed.

(** The schedule in which both requests look the number up, then both ask
    the bank, then both create. *)
Lemma race_schedule (p q : promise field_value) w :
  schedule race_turns (Pool [p; q] w) =
  let a1 := advance p w in let b1 := advance q a1.2 in
  let a2 := advance a1.1 b1.2 in let b2 := advance b1.1 a2.2 in
  let a3 := advance a2.1 b2.2 in let b3 := advance_n 3 b2.1 a3.2 in
  Pool [a3.1; b3.1] b3.2.
Proof. done. Qed.

(** C16. The race of two creations.  Two requests to create the account [n],
    which the table does not hold, with names and bank codes and an
    account that the bank resolves: when both look the number up before
    either creates it, the first is answered the row it created, the
    second is refused by the unique index of the table and is answered
    [SERVER_ERROR], not [USER_ALREADY_EXISTS]; the table holds the row of
    the first, and the second has lost a race. *)
Theorem creations_race args1 args2 t name1 name2 resolved1 resolved2 b1 b2 :
  m_user_account_number args1 = Some n -> m_user_account_number args2 = Some n ->
  js_length n = 10 -> has_number n (table_rows t) = false ->
  m_user_account_name args1 = Some name1 -> m_user_account_name args2 = Some name2 ->
  m_user_bank_code args1 = Some b1 -> m_user_bank_code args2 = Some b2 ->
  resolve (request key args1 n) = Ok (mkResponse (Some resolved1)) ->
  resolve (request key args2 n) = Ok (mkResponse (Some resolved2)) ->
  answers (raced key args1 args2 t) =
    [Some (Ok (UserOrNull
       (Some (new_row (next_id t) (values args1 n name1 resolved1) b1))));
     Some (Err (Error SERVER_ERROR))] /\
  world (raced key args1 args2 t) =
    mkTable (table_rows t ++ [new_row (next_id t) (values args1 n name1 resolved1) b1])
            (S (next_id t)) /\
  lost key (Mutation (M_addUser args2)) (world (raced key args1 args2 t))
    (Err (Error SERVER_ERROR)).
Proof.
  intros Hn1 Hn2 Hl Hfree Hname1 Hname2 Hb1 Hb2 Hr1 Hr2.
  assert (has_number n (table_rows t ++
            [new_row (next_id t) (values args1 n name1 resolved1) b1]) = true) as Hh.
  { by apply created_taken. }
  assert (raced key args1 args2 t =
          Pool [Resolved (UserOrNull
                  (Some (new_row (next_id t) (values args1 n name1 resolved1) b1)));
                Rejected (Error SERVER_ERROR)]
               (mkTable (table_rows t ++
                           [new_row (next_id t) (values args1 n name1 resolved1) b1])
                        (S (next_id t)))) as ->.
  { unfold raced, arrive. cbn [fmap list_fmap]. rewrite race_schedule. cbv zeta.
    rewrite (advance_lookup args1 t Hn1 Hl Hfree). cbn [fst snd].
    rewrite (advance_lookup args2 t Hn2 Hl Hfree). cbn [fst snd].
    rewrite (advance_request args1 name1 resolved1 t Hname1 Hr1). cbn [fst snd].
    rewrite (advance_request args2 name2 resolved2 t Hname2 Hr2). cbn [fst snd].
    rewrite (advance_create args1 name1 resolved1 b1 t Hb1 Hfree). cbn [fst snd].
    by rewrite (advance_refused args2 name2 resolved2 b2 (mkTable _ _) Hb2 Hh). }
  split_and!; [done..|]. split_and!; [|done|by exists n].
  by exists n, name2, resolved2, b2.
Qed.

End Race.

(** C5. The answers are linearisable, but for lost races.  Whatever requests
    are in flight on the table and however their calls interleave, the
    answer of a request is the answer of serving it alone in the table as
    it was at some moment between its arrival and now; or the request is a
    mutation that could store its account, its number is in the table, and
    it is answered [SERVER_ERROR] -- and that is the answer of serving it
    alone in no table at all. *)
Theorem answers_linearisable ops t tr pl i op r :
  steps (arrive key ops t) tr pl ->
  ops !! i = Some op -> answers pl !! i = Some (Some r) ->
  linearised key op t (world pl) r /\
  (lost key op (world pl) r -> forall t', r <> value (serve key op t')).
Proof.
  intros Hsteps Hop Hans. split; [|intros Hlost t'; by eapply lost_not_served].
  unfold answers in Hans. rewrite list_lookup_fmap in Hans.
  destruct (tasks pl !! i) as [p|] eqn:Hp; [|done]. simpl in Hans.
  destruct (Forall2_lookup_r _ _ _ _ _ (steps_linear ops t tr pl Hsteps) Hp)
    as (op' & Hop' & Hlin).
  apply linear_inv in Hlin. destruct p as [a|e|]; [| |done];
    destruct Hlin as (r' & Hr' & Hlin); by simplify_eq/=.
Qed.

End LinearFacts.

(** * The theorems at work in the example world *)

Lemma answers_linearisable_witness :
  linearised (bank := example_bank) example_key (Mutation (M_addUser example_new))
    example_table
    (world (@schedule schema_effects table table_world field_value race_turns race_start))
    (Err (Error SERVER_ERROR)) /\
  (lost (bank := example_bank) example_key (Mutation (M_addUser example_new))
     (world (@schedule schema_effects table table_world field_value race_turns race_start))
     (Err (Error SERVER_ERROR)) ->
   forall t', Err (Error SERVER_ERROR) <>
     value (serve (bank := example_bank) example_key (Mutation (M_addUser example_new)) t')).
Proof.
  destruct (@schedule_steps table table_store example_bank race_turns race_start)
    as [tr Htr].
  apply (answers_linearisable (bank := example_bank) example_key race_requests
           example_table tr _ 1 _ _ Htr); reflexivity.
Defined.

Lemma creations_race_witness :
  answers (raced (bank := example_bank) example_key example_new example_new example_table) =
    [Some (Ok (UserOrNull
       (Some (new_row (next_id example_table)
                (values example_new "2222222222" "Mary Anne Okoro" "MARY ANN OKORO")
                "033"))));
     Some (Err (Error SERVER_ERROR))] /\
  world (raced (bank := example_bank) example_key example_new example_new example_table) =
    mkTable (table_rows example_table ++
               [new_row (next_id example_table)
                  (values example_new "2222222222" "Mary Anne Okoro" "MARY ANN OKORO")
                  "033"])
            (S (next_id example_table)) /\
  lost (bank := example_bank) example_key (Mutation (M_addUser example_new))
    (world (raced (bank := example_bank) example_key example_new example_new example_table))
    (Err (Error SERVER_ERROR)).
Proof.
  apply (creations_race (bank := example_bank) example_key "2222222222" example_new
           example_new example_table "Mary Anne Okoro" "Mary Anne Okoro"
           "MARY ANN OKORO" "MARY ANN OKORO" "033" "033"); reflexivity.
Defined.

(** The request that loses the race of two creations has lost a race. *)
Example race_lost :
  lost (bank := example_bank) example_key (Mutation (M_addUser example_new))
    (world (@schedule schema_effects table table_world field_value race_turns race_start))
    (Err (Error SERVER_ERROR)).
Proof.
  split_and!; [|done|].
  - by exists "2222222222", "Mary Anne Okoro", "MARY ANN OKORO", "033".
  - by exists "2222222222".
Qed.
