(* ===== verification/Abstract.v ===== *)
(** * The directory of accounts: what the resolvers promise

    The table of the model layer is, for a client of the schema, a finite
    map from account numbers to records: the [directory].  [abs] reads the
    directory off a state of the store.  [spec_addUser] and [spec_user] say
    what the mutation and the query of [src/schema/schema.js] answer as
    functions of the directory and of the bank alone, with no promise, no
    call and no table; [spec_after] says how the directory changes.

    The refinement theorems: on every store that obeys the laws, a run of a
    resolver changes the directory as [spec_after] says and a row it returns
    is the one [spec_addUser] names; on the table, and on every store whose
    lookups answer, the answer of a run is the answer of the
    specification. *)

From S2P Require Import Prelude JsString Promise Types Matcher Store Paystack World Schema Exec.
From S2P Require Import AddUser UserQuery Service.
From stdpp Require Import strings gmap.

(** The accounts by number. *)
Definition directory : Type := gmap string UserType.

Definition keyed (u : UserType) : string * UserType := (user_account_number u, u).

Definition directory_of (l : list UserType) : directory := list_to_map (keyed <$> l).

(** The directory after an answer: a row returned is entered under its
    number; a failure changes nothing. *)
Definition spec_after (m : directory) (r : result js_error UserType) : directory :=
  match r with
  | Ok u => <[user_account_number u := u]> m
  | Err _ => m
  end.

Section Abstract.
Context {T : Type} {store : Store T} {bank : Bank} (key : option string).
Implicit Types (s : T) (m : directory).

(** The directory of a state. *)
Definition abs s : directory := directory_of (rows s).

(** What [addUser] answers in the directory [m], when the row it would
    create gets the identifier [i]. *)
Definition spec_addUser (args : addUser_args) m (i : nat) : result js_error UserType :=
  match m_user_account_number args with
  | None => Err TypeError
  | Some n =>
      if bool_decide (js_length n <> 10) then Err (Error ACCOUNT_NUMBER_LENGTH_ERROR)
      else if bool_decide (is_Some (m !! n)) then Err (Error USER_ALREADY_EXISTS)
      else
        match resolve (request key args n) with
        | Err (Some rejection) =>
            if status rejection =? 422 then
              match data rejection with
              | NoData => Err TypeError
              | Data (Some false) => Err (Error INVALID_BANK_DETAILS)
              | Data _ => Err (Error SERVER_ERROR)
              end
            else Err (Error SERVER_ERROR)
        | Err None => Err (Error SERVER_ERROR)
        | Ok r =>
            match account_name r, m_user_account_name args, m_user_bank_code args with
            | Some resolved, Some name, Some b =>
                Ok (mkUser i n b (Some name)
                      (isMatch name resolved || m_is_verified args))
            | _, _, _ => Err (Error SERVER_ERROR)
            end
        end
  end.

(** What [user] answers in the directory [m]. *)
Definition spec_user (args : user_args) m : result js_error (option UserType) :=
  match q_user_account_number args with
  | None => Err TypeError
  | Some n =>
      if bool_decide (js_length n <> 10) then Err (Error ACCOUNT_NUMBER_LENGTH_ERROR)
      else
        match m !! n with
        | Some u =>
            if bool_decide (q_user_bank_code args = Some (user_bank_code u)) then
              if truthy (user_account_name u) then Ok (Some (stored_view u))
              else
                match resolve (user_request key u) with
                | Ok (mkResponse (Some resolved)) => Ok (Some (resolved_view u resolved))
                | _ => Ok None
                end
            else Err (Error USER_DOESNT_EXIST)
        | None => Err (Error USER_DOESNT_EXIST)
        end
  end.

(** Every lookup of the state [s] answers. *)
Definition lookups_answer s : Prop := forall w, is_ok (findOne s w) = true.

(** * Theorems *)

(** ** The directory of a list of rows *)

Lemma keyed_fst l : (keyed <$> l).*1 = user_account_number <$> l.
Proof. by rewrite <- list_fmap_compose. Qed.

Lemma directory_of_Some l n u :
  unique_on user_account_number l ->
  directory_of l !! n = Some u <-> u ∈ l /\ user_account_number u = n.
Proof.
  intros Hl. unfold directory_of. split.
  - intros Hm%elem_of_list_to_map_2.
    by apply list_elem_of_fmap in Hm as (u' & [= -> ->] & Hu').
  - intros [Hu <-]. apply elem_of_list_to_map_1; [by rewrite keyed_fst|].
    apply list_elem_of_fmap. by exists u.
Qed.

Lemma directory_of_None l n :
  directory_of l !! n = None <-> forall u, u ∈ l -> user_account_number u <> n.
Proof.
  unfold directory_of. split.
  - intros Hm%not_elem_of_list_to_map_2 u Hu Hn. apply Hm.
    rewrite keyed_fst, <- Hn. by apply list_elem_of_fmap_2.
  - intros Hno. apply not_elem_of_list_to_map_1. rewrite keyed_fst.
    intros (u & -> & Hu)%list_elem_of_fmap. by apply (Hno u).
Qed.

Lemma directory_of_snoc l u :
  user_account_number u ∉ (user_account_number <$> l) ->
  directory_of (l ++ [u]) = <[user_account_number u := u]> (directory_of l).
Proof.
  intros Hu. unfold directory_of. rewrite fmap_app. simpl.
  apply list_to_map_snoc. by rewrite keyed_fst.
Qed.

Section Laws.
Context {laws : StoreLaws T}.

(** ** Lookups read the directory *)

Lemma findOne_number_abs s n r :
  valid s -> unique_numbers s -> findOne s (WhereNumber n) = Ok r -> r = abs s !! n.
Proof.
  intros Hs Hu Hf. symmetry. destruct r as [u|].
  - apply directory_of_Some; [done|]. by apply lookup_some_taken.
  - apply directory_of_None. by apply lookup_none_free.
Qed.

Lemma findOne_bank_abs s n b r :
  valid s -> unique_numbers s -> findOne s (WhereNumberAndBank n b) = Ok r ->
  r = match abs s !! n with
      | Some u => if bool_decide (b = Some (user_bank_code u)) then Some u else None
      | None => None
      end.
Proof.
  intros Hs Hu Hf. unfold abs. destruct r as [u|].
  - apply findOne_found in Hf as [Hin Hm]; [|done].
    pose proof (where_matches_number _ _ Hm) as Hn. simpl in Hn.
    rewrite (proj2 (directory_of_Some (rows s) n u Hu)) by done.
    destruct b as [b|]; simpl in Hm; [|done].
    apply andb_prop in Hm as [_ Hb%bool_decide_eq_true].
    by rewrite bool_decide_eq_true_2 by congruence.
  - destruct (directory_of (rows s) !! n) as [u|] eqn:Hm; [|done].
    apply directory_of_Some in Hm as [Hin Hn]; [|done].
    case_bool_decide as Hb; [|done]. subst b n.
    pose proof (findOne_missing s _ u Hs Hf Hin) as Hno.
    by rewrite where_matches_self in Hno.
Qed.

(** ** The mutation *)

Lemma abs_addUser_ok (args : addUser_args) s u :
  valid s -> value (addUser key args s) = Ok u ->
  abs (final (addUser key args s)) = <[user_account_number u := u]> (abs s).
Proof.
  intros Hs Hv. destruct (addUser_ok_rows key args s u Hs Hv) as (Hrows & Hnum & _).
  unfold abs. rewrite Hrows. by apply directory_of_snoc.
Qed.

Lemma spec_addUser_ok (args : addUser_args) s u :
  valid s -> unique_numbers s -> value (addUser key args s) = Ok u ->
  spec_addUser args (abs s) (id_ u) = Ok u.
Proof.
  intros Hs Hu (n & nm & res & Hn & Hl & Hf & Hr & Hnm & Hc & _)%addUser_ok_inv.
  apply create_ok in Hc as (_ & (Hun & Hub & Hua & Huv) & _); [|done]. simpl in *.
  unfold spec_addUser. rewrite Hn, bool_decide_eq_false_2 by (by intros ?).
  rewrite <- (findOne_number_abs s n None Hs Hu Hf).
  rewrite bool_decide_eq_false_2 by (by intros [? ?]).
  rewrite Hr, Hnm, Hub. simpl. destruct u; simpl in *. congruence.
Qed.

(** C6. The mutation refines its specification on the directory, on every
    store that obeys the laws: the directory after a run is the directory
    before with the returned row entered under its number, or the directory
    before when the run failed; and a row returned is the one
    [spec_addUser] answers for its identifier. *)
Theorem addUser_refines (args : addUser_args) s :
  invariant s ->
  abs (final (addUser key args s)) = spec_after (abs s) (value (addUser key args s)) /\
  forall u, value (addUser key args s) = Ok u ->
    spec_addUser args (abs s) (id_ u) = Ok u /\ abs s !! user_account_number u = None.
Proof.
  intros (Hs & Hu & _). split.
  - destruct (value (addUser key args s)) as [u|e] eqn:Hv; simpl.
    + by apply abs_addUser_ok.
    + unfold abs. by rewrite (addUser_err_rows key args s e).
  - intros u Hv. split; [by apply spec_addUser_ok|].
    apply directory_of_None. intros u' Hu' Heq.
    destruct (addUser_ok_rows key args s u Hs Hv) as (_ & Hnum & _).
    apply Hnum. rewrite <- Heq. by apply list_elem_of_fmap_2.
Qed.

(** ** The query *)

Lemma user_value_abs (args : user_args) s :
  invariant s -> lookups_answer s ->
  value (user key args s) = spec_user args (abs s).
Proof.
  intros (Hs & Hu & _) Hok. unfold spec_user.
  user_cases_of (user_cases key args s); simpl; rewrite Hn; try done.
  1: by rewrite bool_decide_eq_true_2.
  1: by specialize (Hok (user_where args n)); rewrite Hf in Hok.
  all: rewrite bool_decide_eq_false_2 by (by intros ?).
  all: apply findOne_bank_abs in Hf; [|done..].
  all: destruct (abs s !! n) as [u'|]; [|done]; case_bool_decide; simplify_eq; try done.
  all: by rewrite Hname, ?Hr.
Qed.

(** C13. The query refines its specification on the directory: on every
    store that obeys the laws and answers its lookups, the answer of a run
    is the answer [spec_user] reads off the directory, and the directory
    after the run is the directory before. *)
Theorem user_refines (args : user_args) s :
  invariant s -> lookups_answer s ->
  value (user key args s) = spec_user args (abs s) /\
  abs (final (user key args s)) = abs s.
Proof.
  intros Hs Hok. split; [by apply user_value_abs|].
  unfold user. by rewrite run_no_create by apply user_writes.
Qed.

End Laws.

End Abstract.

(** ** On the table *)

(** On the table the mutation is its specification: the answer of a run
    from a table that keeps its constraints is the answer of [spec_addUser]
    in the directory of the table, for the next identifier of the table. *)
Lemma table_addUser_refines {bank : Bank} key (args : addUser_args) (t : table) :
  table_constraints t ->
  value (addUser key args t) = spec_addUser key args (abs t) (next_id t).
Proof.
  intros (Hv & Hid & Hnum). unfold spec_addUser.
  addUser_cases_of (addUser_cases key args t); simpl; rewrite Hn; try done.
  1: by rewrite bool_decide_eq_true_2.
  all: rewrite bool_decide_eq_false_2 by (by intros ?).
  all: apply (findOne_number_abs (T := table)) in Hf as Hm; [|done..].
  all: rewrite <- Hm.
  - by rewrite bool_decide_eq_true_2.
  - rewrite bool_decide_eq_false_2 by (by intros [? ?]). rewrite Hr.
    unfold addUser_error. destruct resp as [[st [|[[]|]]]|]; simpl; try done;
      by destruct (st =? 422).
  - rewrite bool_decide_eq_false_2 by (by intros [? ?]). rewrite Hr.
    destruct Hnull as [-> | ->]; [done|]. by destruct (account_name r).
  - rewrite bool_decide_eq_false_2 by (by intros [? ?]). rewrite Hr, Hnm. simpl in *.
    destruct (table_create_cases t (values args n nm res))
      as [[Hb Heq]|[(b & Hb & Hh & Heq)|(b & Hb & Hh & Heq)]]; rewrite Heq in Hc;
      simpl in *; [by rewrite Hb| |done].
    apply has_number_spec in Hh as (u & Hu & Hun).
    symmetry in Hm. by apply directory_of_None with (u := u) in Hm.
  - rewrite bool_decide_eq_false_2 by (by intros [? ?]). rewrite Hr, Hnm. simpl in *.
    destruct (table_create_cases t (values args n nm res))
      as [[Hb Heq]|[(b & Hb & Hh & Heq)|(b & Hb & Hh & Heq)]]; rewrite Heq in Hc;
      simpl in *; [done..|].
    rewrite Hb. by injection Hc as <-.
Qed.

(** * The theorems at work in the example world *)

Lemma addUser_refines_witness :
  abs (final (addUser (bank := example_bank) example_key example_new example_table)) =
    spec_after (abs example_table)
      (value (addUser (bank := example_bank) example_key example_new example_table)) /\
  forall u,
    value (addUser (bank := example_bank) example_key example_new example_table) = Ok u ->
    spec_addUser (bank := example_bank) example_key example_new (abs example_table) (id_ u)
      = Ok u /\
    abs example_table !! user_account_number u = None.
Proof.
  apply (addUser_refines (bank := example_bank) example_key example_new example_table).
  split_and!; apply example_table_constraints.
Defined.

Lemma user_refines_witness :
  value (user (bank := example_bank) example_key example_unnamed example_table) =
  spec_user (bank := example_bank) example_key example_unnamed (abs example_table) /\
  abs (final (user (bank := example_bank) example_key example_unnamed example_table)) =
  abs example_table.
Proof.
  apply (user_refines (bank := example_bank) example_key example_unnamed example_table).
  - split_and!; apply example_table_constraints.
  - intros w. reflexivity.
Defined.

Lemma table_addUser_refines_witness :
  value (addUser (bank := example_bank) example_key example_new example_table) =
  spec_addUser (bank := example_bank) example_key example_new (abs example_table) 3.
Proof.
  apply (table_addUser_refines (bank := example_bank) example_key example_new example_table).
  apply example_table_constraints.
Defined.
