(* ===== verification/Session.v ===== *)
(** * Sessions on the directory

    The specification of [Abstract], as a machine: its state is a [book],
    the directory and the identifier the next record gets, and
    [spec_serve] is what a request answers and does to the book, with no
    promise, no call and no table.  The table of the model layer simulates
    it: [book_of] commutes with every request, and so with every session.

    The directory does not keep the order of the rows, so the answer of
    [users] is compared up to the order of its records ([same_answer]). *)

From S2P Require Import Prelude JsString Promise Scheduler Types Matcher Store Paystack.
From S2P Require Import World Schema Exec AddUser UserQuery Service Concurrent.
From S2P Require Import Liveness Serial Abstract.
From stdpp Require Import strings gmap.

(** The state of the specification. *)
Record book : Type := Book {
  accounts : directory;
  next : nat;
}.

(** The book of a table. *)
Definition book_of (t : table) : book := Book (abs t) (next_id t).

(** Answers that differ in the order of the records of a list at most. *)
Inductive same_answer : relation (result js_error field_value) :=
| same_users l l' : l ≡ₚ l' -> same_answer (Ok (UserList l)) (Ok (UserList l'))
| same_user u : same_answer (Ok (UserOrNull u)) (Ok (UserOrNull u))
| same_error e : same_answer (Err e) (Err e).

Section Session.
Context {bank : Bank} (key : option string).
Implicit Types (t : table) (b : book) (op : operation).

(** One request on the book. *)
Definition spec_serve op b : book * result js_error field_value :=
  match op with
  | Query Q_users => (b, Ok (UserList (map_to_list (accounts b)).*2))
  | Query (Q_user args) => (b, result_map UserOrNull (spec_user key args (accounts b)))
  | Mutation (M_addUser args) =>
      let r := spec_addUser key args (accounts b) (next b) in
      (Book (spec_after (accounts b) r) (if is_ok r then S (next b) else next b),
       result_map (fun u => UserOrNull (Some u)) r)
  end.

(** A session on the book: the answers, and the book left. *)
Fixpoint spec_session (ops : list operation) b
  : list (result js_error field_value) * book :=
  match ops with
  | [] => ([], b)
  | op :: ops =>
      let s1 := spec_serve op b in
      let s2 := spec_session ops s1.1 in
      (s1.2 :: s2.1, s2.2)
  end.

End Session.

(** * Theorems *)

#[export] Instance same_answer_equiv : Equivalence same_answer.
Proof.
  split.
  - intros [[l|u]|e]; by constructor.
  - intros r1 r2 []; by constructor.
  - intros r1 r2 r3 [] Hr; inversion_clear Hr; constructor. by etrans.
Qed.

#[export] Instance UserList_proper :
  Proper ((≡ₚ) ==> same_answer) (fun l => Ok (UserList l)).
Proof. intros l l' Hl. by constructor. Qed.

(** The records of the directory of rows with unique numbers are the rows,
    in some order. *)
Lemma directory_of_values l :
  unique_on user_account_number l -> (map_to_list (directory_of l)).*2 ≡ₚ l.
Proof.
  intros Hl. unfold directory_of.
  etrans; [apply fmap_Permutation, map_to_list_to_map; by rewrite keyed_fst|].
  rewrite <- list_fmap_compose. by rewrite list_fmap_id.
Qed.

Section SessionFacts.
Context {bank : Bank} (key : option string).
Implicit Types (t : table) (b : book) (op : operation).

Lemma table_lookups_answer t : lookups_answer t.
Proof. by intros w. Qed.

Lemma table_invariant t : table_constraints t -> invariant t.
Proof. by intros (? & ? & ?). Qed.

Lemma serve_table_constraints op t :
  table_constraints t -> table_constraints (final (serve key op t)).
Proof.
  intros Ht. destruct (serve_invariant key op t (table_invariant t Ht)) as (? & ? & ?).
  by split_and!.
Qed.

(** The identifier of the next record moves on exactly when a record was
    created. *)
Lemma addUser_next_id args t :
  next_id (final (addUser key args t)) =
  if is_ok (value (addUser key args t)) then S (next_id t) else next_id t.
Proof.
  destruct (value (addUser key args t)) as [u|e] eqn:Hv; simpl.
  - apply addUser_ok_inv in Hv as (n & nm & res & _ & _ & _ & _ & _ & Hc & ->).
    simpl in *.
    by destruct (table_create_cases t (values args n nm res))
      as [[_ Hc']|[(b & _ & _ & Hc')|(b & _ & _ & Hc')]]; rewrite Hc' in Hc |- *.
  - apply addUser_err_inv in Hv as [->|(v & d & -> & Hc)]; [done|]. simpl in *.
    by destruct (table_create_cases t v)
      as [[_ Hc']|[(b & _ & _ & Hc')|(b & _ & _ & Hc')]]; rewrite Hc' in Hc |- *.
Qed.

(** One request: the table simulates the book. *)
Lemma serve_simulates op t :
  table_constraints t ->
  book_of (final (serve key op t)) = (spec_serve key op (book_of t)).1 /\
  same_answer (value (serve key op t)) (spec_serve key op (book_of t)).2.
Proof.
  intros Ht. pose proof (table_invariant t Ht) as Hinv.
  destruct op as [[|args]|[args]]; unfold spec_serve, book_of;
    rewrite ?serve_users, ?users_run, ?serve_user, ?serve_addUser;
    unfold answer_with; cbn [fst snd accounts next value final].
  - split; [done|]. constructor. symmetry. apply directory_of_values, Ht.
  - rewrite (user_value_abs key args t Hinv (table_lookups_answer t)).
    split; [|reflexivity]. unfold user. by rewrite run_no_create by apply user_writes.
  - rewrite <- (table_addUser_refines key args t Ht).
    split; [|reflexivity]. f_equal; [|apply addUser_next_id].
    destruct (value (addUser key args t)) as [u|e] eqn:Hv; simpl.
    + apply abs_addUser_ok; [apply _|apply Hinv|done].
    + unfold abs. by rewrite (addUser_err_rows key args t e) by (done || apply Hinv).
Qed.

(** A session: the book of the table left is the book the specification
    leaves. *)
Lemma serve_all_book ops t :
  table_constraints t ->
  book_of (serve_all key ops t) = (spec_session key ops (book_of t)).2.
Proof.
  revert t. induction ops as [|op ops IH]; intros t Ht; simpl; [done|].
  destruct (serve_simulates op t Ht) as [<- _].
  apply IH, serve_table_constraints, Ht.
Qed.

(** C14. The table simulates the specification through whole sessions: from
    a table that keeps its constraints, the answers of the requests served
    one after another are the answers of the specification on the book of
    the table, up to the order of the records [users] lists, and the book
    of the table that is left is the book the specification leaves. *)
Theorem session_refines ops t :
  table_constraints t ->
  Forall2 same_answer (value <$> serve_each key ops t)
    (spec_session key ops (book_of t)).1 /\
  book_of (serve_all key ops t) = (spec_session key ops (book_of t)).2.
Proof.
  intros Ht. split; [|by apply serve_all_book].
  revert t Ht. induction ops as [|op ops IH]; intros t Ht; simpl; [done|].
  destruct (serve_simulates op t Ht) as [<- Hans].
  constructor; [done|]. apply IH, serve_table_constraints, Ht.
Qed.

(** C22. Requests served at once refine the specification in what they
    store: when all the requests of an interleaving are answered, the book
    of the table is the book the specification leaves after a session of
    the same requests in some order. *)
Theorem interleaved_refines ops t tr pl :
  table_constraints t -> steps (arrive key ops t) tr pl -> answered pl ->
  exists ops', ops' ≡ₚ ops /\
    book_of (world pl) = (spec_session key ops' (book_of t)).2.
Proof.
  intros Ht Hsteps Hq.
  destruct (answered_serial key ops t tr pl Hsteps Hq) as (ops' & Hperm & ->).
  exists ops'. split; [done|by apply serve_all_book].
Qed.

End SessionFacts.

(** * The theorems at work in the example world *)

Lemma session_refines_witness :
  Forall2 same_answer
    (value <$> serve_each (bank := example_bank) example_key example_session example_table)
    (spec_session (bank := example_bank) example_key example_session
       (book_of example_table)).1 /\
  book_of (serve_all (bank := example_bank) example_key example_session example_table) =
  (spec_session (bank := example_bank) example_key example_session
     (book_of example_table)).2.
Proof.
  apply (session_refines (bank := example_bank) example_key example_session example_table).
  apply example_table_constraints.
Defined.

Lemma interleaved_refines_witness :
  exists ops', ops' ≡ₚ race_requests /\
    book_of (world (@schedule schema_effects table table_world field_value
                      race_turns race_start)) =
    (spec_session (bank := example_bank) example_key ops' (book_of example_table)).2.
Proof.
  destruct (@schedule_steps table table_store example_bank race_turns race_start)
    as [tr Htr].
  apply (interleaved_refines (bank := example_bank) example_key race_requests
           example_table tr _ example_table_constraints Htr).
  unfold answered. vm_compute. repeat constructor; eauto.
Defined.
